(** * ICgen: density interpolant and particle-position sampler

    A shallow embedding of [backup03/calc_rho_zr.py], [backup03/pos_class.py]
    and the settings object of [backup03/ICgen_settings.py].

    Conventions of the embedding.
    - Floating-point numbers are idealised as real numbers ([R]); numpy 1-D
      arrays are lists of reals, 2-D arrays carry their shape explicitly.
    - A unit-tagged array ([SimArray]) is represented by its magnitudes,
      expressed in the unit of the grid it is compared with.
    - Python exceptions are values of [exn]; a computation that may raise
      returns a [result].  Methods that read or write the initial-conditions
      object, draw random numbers, print, or call a collaborator run in the
      state-and-exception monad [M] over a [World].
    - Instance attributes that are assigned dynamically are [option] fields:
      [None] means that the attribute has not been assigned, and reading it
      raises [AttributeError]. *)

From Stdlib Require Import Reals Lra Lia ZArith.
From stdpp Require Import gmap strings list pretty.

#[local] Open Scope R_scope.

(** ** Exceptions and results *)

Inductive exn : Type :=
| NameError (msg : string)
| UnboundLocalError (var : string)
| AttributeError (attr : string)
| IndexError
| ValueError.

Inductive result (A : Type) : Type :=
| Ok (a : A)
| Raise (e : exn).
Arguments Ok {A} a.
Arguments Raise {A} e.

#[global] Instance result_ret : MRet result := fun A a => Ok a.
#[global] Instance result_bind : MBind result := fun A B f c =>
  match c with
  | Ok a => f a
  | Raise e => Raise e
  end.

Definition is_Ok {A} (c : result A) : Prop :=
  match c with Ok _ => True | Raise _ => False end.

(** ** Real-number comparisons as decisions *)

#[global] Instance Rle_decision : RelDecision Rle := Rle_dec.
#[global] Instance Rlt_decision : RelDecision Rlt := Rlt_dec.
#[global] Instance Rge_decision : RelDecision Rge := Rge_dec.
#[global] Instance Rgt_decision : RelDecision Rgt := Rgt_dec.
#[global] Instance Req_decision : EqDecision R := Req_dec_T.

(** ** The numpy operations the sources use *)

Module np.

(** A 2-D array: [data] lists the rows; the shape is kept because a
    [0 x n] array has no row to read the column count from. *)
Record ndarray2 : Type := mk2 {
  nrows : nat;
  ncols : nat;
  data : list (list R)
}.

(** [np.zeros(n)]; a negative dimension is a [ValueError]. *)
Definition zeros (n : Z) : result (list R) :=
  if (n <? 0)%Z then Raise ValueError else Ok (replicate (Z.to_nat n) 0).

(** [np.zeros([n, k])]. *)
Definition zeros2 (n k : Z) : result ndarray2 :=
  if ((n <? 0) || (k <? 0))%Z then Raise ValueError
  else Ok (mk2 (Z.to_nat n) (Z.to_nat k)
               (replicate (Z.to_nat n) (replicate (Z.to_nat k) 0))).

(** [np.linspace(start, stop, num)] with the default [endpoint=True]:
    [arange(0, num) * step + start] with [step = (stop - start)/(num - 1)],
    the last sample overwritten by [stop]; a single sample is [start].
    A negative [num] raises [ValueError] (the oldest numpy releases
    returned an empty array there instead). *)
Definition linspace (start stop : R) (num : Z) : result (list R) :=
  if (num <? 0)%Z then Raise ValueError
  else
    let n := Z.to_nat num in
    match n with
    | O => Ok []
    | S O => Ok [start]
    | S (S _) =>
        let step := (stop - start) / IZR (num - 1) in
        let y := (fun k : nat => IZR (Z.of_nat k) * step + start) <$> seq 0 n in
        Ok (<[ (n - 1)%nat := stop ]> y)
    end.

(** [a.min()] and [a.max()]: a [ValueError] on an empty array. *)
Definition min (a : list R) : result R :=
  match a with
  | [] => Raise ValueError
  | x :: xs => Ok (foldl Rmin x xs)
  end.

Definition max (a : list R) : result R :=
  match a with
  | [] => Raise ValueError
  | x :: xs => Ok (foldl Rmax x xs)
  end.

(** Normalisation of a slice bound against a length (Python's rule:
    a negative bound counts from the end, then the bound is clipped). *)
Definition slice_bound (len : nat) (i : Z) : nat :=
  if (i <? 0)%Z then Z.to_nat (Z.max 0 (Z.of_nat len + i))
  else Nat.min (Z.to_nat i) len.

(** [a[lo:hi]]; [hi = None] is an omitted upper bound. *)
Definition slice {A} (a : list A) (lo : Z) (hi : option Z) : list A :=
  let h := match hi with
           | Some h => slice_bound (length a) h
           | None => length a
           end in
  drop (slice_bound (length a) lo) (take h a).

(** [a[i]] for an integer [i] (and [a[[i]]], a one-element array): a
    negative index counts from the end, anything out of range is an
    [IndexError].  Python lists index the same way. *)
Definition getitem {A} (a : list A) (i : Z) : result A :=
  let n := Z.of_nat (length a) in
  let k := if (i <? 0)%Z then (i + n)%Z else i in
  if ((k <? 0) || (n <=? k))%Z then Raise IndexError
  else match a !! Z.to_nat k with
       | Some x => Ok x
       | None => Raise IndexError
       end.

(** [a[i] = v] for an index [i >= 0]. *)
Definition setitem {A} (a : list A) (i : nat) (v : A) : result (list A) :=
  if decide (i < length a)%nat then Ok (<[ i := v ]> a) else Raise IndexError.

(** [a[mask]] for a boolean mask of the length of [a]. *)
Fixpoint compress {A} (mask : list bool) (a : list A) : list A :=
  match mask, a with
  | b :: mask', x :: a' => if b then x :: compress mask' a' else compress mask' a'
  | _, _ => []
  end.

(** An elementwise binary operation on two 1-D arrays, with numpy's
    broadcasting: equal lengths, or one operand of length one. *)
Definition broadcast2 (op : R -> R -> R) (a b : list R) : result (list R) :=
  if decide (length a = length b) then Ok (zip_with op a b)
  else match a, b with
       | [x], _ => Ok (op x <$> b)
       | _, [y] => Ok ((fun x => op x y) <$> a)
       | _, _ => Raise ValueError
       end.

(** [A[:, k] = v]: [v] must have one entry per row, or a single entry that
    is broadcast; the column must exist. *)
Definition set_column (A : ndarray2) (k : nat) (v : list R) : result ndarray2 :=
  if decide (ncols A <= k)%nat then Raise IndexError
  else if decide (length v = nrows A) then
    Ok (mk2 (nrows A) (ncols A) (zip_with (fun row x => <[ k := x ]> row) (data A) v))
  else match v with
       | [x] => Ok (mk2 (nrows A) (ncols A) ((fun row => <[ k := x ]> row) <$> data A))
       | _ => Raise ValueError
       end.

(** [A[:, k]], read. *)
Definition column (A : ndarray2) (k : nat) : result (list R) :=
  if decide (ncols A <= k)%nat then Raise IndexError
  else Ok ((fun row => default 0 (row !! k)) <$> data A).

Fixpoint nondecreasing (l : list R) : bool :=
  match l with
  | x :: (y :: _) as t => bool_decide (x <= y) && nondecreasing t
  | _ => true
  end.

Fixpoint nonincreasing (l : list R) : bool :=
  match l with
  | x :: (y :: _) as t => bool_decide (y <= x) && nonincreasing t
  | _ => true
  end.

(** [np.digitize(x, bins)] with the default [right=False].  For
    nondecreasing bins the index [i] of [x] satisfies
    [bins[i-1] <= x < bins[i]], which is the number of bins [<= x]; for
    nonincreasing bins it satisfies [bins[i-1] > x >= bins[i]], the number
    of bins [> x]; bins that are neither raise [ValueError]. *)
Definition digitize1 (bins : list R) (x : R) : nat :=
  length (filter (fun b => b <= x) bins).

Definition digitize1_decr (bins : list R) (x : R) : nat :=
  length (filter (fun b => b > x) bins).

Definition digitize (x bins : list R) : result (list nat) :=
  if nondecreasing bins then Ok (digitize1 bins <$> x)
  else if nonincreasing bins then Ok (digitize1_decr bins <$> x)
  else Raise ValueError.

(** [np.gradient(f, dz, dr)[1]]: the derivative along the second axis
    with constant spacing [dr], central differences inside and one-sided
    first differences at the two ends.  Both axes need two samples. *)
Definition gradient_row (dr : R) (row : list R) : list R :=
  let n := length row in
  (fun j : nat =>
     let at_ k := default 0 (row !! k) in
     if decide (j = 0)%nat then (at_ 1%nat - at_ 0%nat) / dr
     else if decide (j = n - 1)%nat then (at_ (n - 1)%nat - at_ (n - 2)%nat) / dr
     else (at_ (j + 1)%nat - at_ (j - 1)%nat) / (2 * dr)) <$> seq 0 n.

Definition gradient_axis1 (f : ndarray2) (dr : R) : result ndarray2 :=
  if decide (nrows f < 2 \/ ncols f < 2)%nat then Raise ValueError
  else Ok (mk2 (nrows f) (ncols f) (gradient_row dr <$> data f)).

End np.

(** ** The settings object ([ICgen_settings.py]) *)

Module ICgen_settings.

(** [filenames].  [rhoFileName] is not among the defaults of the class: it
    exists only once it has been assigned (the density interpolant's [save]
    assigns it), hence an [option]. *)
Record filenames : Type := mk_filenames {
  IC_file_name : string;
  snapshotName : string;
  paramName : string;
  rhoFileName : option string
}.

Record rho_calc : Type := mk_rho_calc {
  nr : Z;
  nz : Z;
  zmax : R;
  rho_tol : R
}.

Record pos_gen : Type := mk_pos_gen {
  nParticles : Z;
  method : string
}.

Record snapshot : Type := mk_snapshot {
  mScale : R;
  metals : R;
  eps : R
}.

(** [physical]; [Tmax = None] stands for the default [np.inf]. *)
Record physical : Type := mk_physical {
  m : R;
  M : R;
  T0 : R;
  r0 : R;
  Tpower : R;
  Tmin : R;
  Tmax : option R
}.

Record settings : Type := mk_settings {
  s_filenames : filenames;
  s_rho_calc : rho_calc;
  s_pos_gen : pos_gen;
  s_snapshot : snapshot;
  s_physical : physical;
  settings_filename : option string
}.

(** The defaults of [settings()] called without a file name. *)
Definition defaults : settings :=
  {| s_filenames := mk_filenames "IC.p" "snapshot.std" "snapshot.param" None;
     s_rho_calc := mk_rho_calc 1000 1000 1 1.001;
     s_pos_gen := mk_pos_gen 40411 "grid";
     s_snapshot := mk_snapshot 0.01 1 0.01;
     s_physical := mk_physical 2.00132 0.33 332.406 0.5 (-0.59) 0 None;
     settings_filename := None |}.

(** [settings.pos_gen.method = v] *)
Definition set_method (v : string) (s : settings) : settings :=
  {| s_filenames := s_filenames s;
     s_rho_calc := s_rho_calc s;
     s_pos_gen := mk_pos_gen (nParticles (s_pos_gen s)) v;
     s_snapshot := s_snapshot s;
     s_physical := s_physical s;
     settings_filename := settings_filename s |}.

(** [settings.filenames.rhoFileName = v] *)
Definition set_rhoFileName (v : string) (s : settings) : settings :=
  {| s_filenames :=
       mk_filenames (IC_file_name (s_filenames s)) (snapshotName (s_filenames s))
                    (paramName (s_filenames s)) (Some v);
     s_rho_calc := s_rho_calc s;
     s_pos_gen := s_pos_gen s;
     s_snapshot := s_snapshot s;
     s_physical := s_physical s;
     settings_filename := settings_filename s |}.

(** [settings.settings_filename = v] *)
Definition set_settings_filename (v : string) (s : settings) : settings :=
  {| s_filenames := s_filenames s;
     s_rho_calc := s_rho_calc s;
     s_pos_gen := s_pos_gen s;
     s_snapshot := s_snapshot s;
     s_physical := s_physical s;
     settings_filename := Some v |}.

(** What the settings class raises: the [RuntimeError] of [save] and the
    [IOError] of opening a file that does not exist. *)
Inductive error : Type :=
| RuntimeError (msg : string)
| IOError (filename : string).

(** The environment of the settings class: the pickled attribute
    dictionaries written so far, by file name, and the printed lines.  A
    pickled dictionary is a [settings] value: its five sub-objects, and
    [settings_filename] if the attribute existed when it was dumped. *)
Record env : Type := mk_env {
  pickles : gmap string settings;
  printed : list string
}.

(** [self.__dict__.update(tmp_dict)]: every key of [tmp_dict] replaces the
    attribute of the same name; [settings_filename] is a key only if it was
    one when the dictionary was dumped. *)
Definition update (self tmp_dict : settings) : settings :=
  {| s_filenames := s_filenames tmp_dict;
     s_rho_calc := s_rho_calc tmp_dict;
     s_pos_gen := s_pos_gen tmp_dict;
     s_snapshot := s_snapshot tmp_dict;
     s_physical := s_physical tmp_dict;
     settings_filename :=
       match settings_filename tmp_dict with
       | Some f => Some f
       | None => settings_filename self
       end |}.

(** [settings.save(settings_filename)]: the dictionary is dumped before the
    object's own [settings_filename] is updated. *)
Definition save (self : settings) (name : option string) (e : env)
    : (error + settings) * env :=
  let target :=
    match name with
    | None =>
        match settings_filename self with
        | None => inl (RuntimeError "No settings_filename defined.  Cannot save")
        | Some f => inr f
        end
    | Some f => inr f
    end in
  match target with
  | inl err => (inl err, e)
  | inr f =>
      (inr (set_settings_filename f self),
       mk_env (<[ f := self ]> (pickles e))
              (printed e ++ ["Settings saved to " +:+ f]))
  end.

(** [settings.load(settings_filename)] *)
Definition load (self : settings) (name : string) (e : env)
    : (error + settings) * env :=
  match pickles e !! name with
  | None => (inl (IOError name), e)
  | Some tmp_dict => (inr (set_settings_filename name (update self tmp_dict)), e)
  end.

(** [settings(settings_filename)].  Without a file name the defaults are
    loaded.  With one, [load] fills the new object, which has no attribute
    yet; every pickled dictionary carries the five sub-objects, so whatever
    stands for the empty object is overwritten, and [blank] only has to have
    no [settings_filename]. *)
Definition blank : settings :=
  {| s_filenames := s_filenames defaults;
     s_rho_calc := s_rho_calc defaults;
     s_pos_gen := s_pos_gen defaults;
     s_snapshot := s_snapshot defaults;
     s_physical := s_physical defaults;
     settings_filename := None |}.

Definition __init__ (name : option string) (e : env) : (error + settings) * env :=
  match name with
  | None => (inr defaults, e)
  | Some f => load blank f e
  end.

End ICgen_settings.

(** ** The initial-conditions object and the world around it *)

(** The density interpolant's data ([rho_from_array] without its
    back-reference [_parent], which is the world's [ICobj]). *)
Record rho_from_array : Type := mk_rho_from_array {
  _rho_spline : R -> R -> R;
  rho_binned : np.ndarray2;
  r_bins : list R;
  z_bins : list R;
  _cdf_inv : list (R -> R);
  _drho_dr : R -> R -> R
}.

(** The surface-density profile, an external collaborator: its radial grid
    and its inverse CDF, a callable from an array of cumulative
    probabilities to an array of radii. *)
Record sigma_profile : Type := mk_sigma {
  sigma_r_bins : list R;
  sigma_cdf_inv : list R -> list R
}.

(** [ICgen.IC]: [rho] and [sigma] are attributes that exist only once they
    have been calculated. *)
Record IC : Type := mk_IC {
  IC_rho : option rho_from_array;
  IC_sigma : option sigma_profile;
  IC_settings : ICgen_settings.settings
}.

(** A pickled value: a 1-D or a 2-D array. *)
Inductive pickled : Type :=
| arr1 (a : list R)
| arr2 (a : np.ndarray2).

(** What a run makes observable, in order: printed lines (the elapsed-time
    line carries a clock reading and is recorded without it) and the calls
    to the collaborators. *)
Inductive event : Type :=
| Print (line : string)
| Print_elapsed
| Call_sigma_cdf_inv (m : list R)
| Call_rho_z (r : list R).

(** The state a method can touch: the one initial-conditions object that
    every component refers to as its [_parent], the files written so far
    (a pickled dictionary per file name), numpy's global random generator
    (the stream of uniform variates in [0, 1) that [rand] returns, the stream
    of index picks of [choice], and the number of draws consumed), and the
    trace of events. *)
Record World : Type := mk_World {
  ICobj : IC;
  files : gmap string (gmap string pickled);
  rand_stream : nat -> R;
  choice_stream : nat -> nat;
  rand_pos : nat;
  trace : list event
}.

Definition set_settings (f : ICgen_settings.settings -> ICgen_settings.settings)
    (w : World) : World :=
  {| ICobj := mk_IC (IC_rho (ICobj w)) (IC_sigma (ICobj w)) (f (IC_settings (ICobj w)));
     files := files w;
     rand_stream := rand_stream w;
     choice_stream := choice_stream w;
     rand_pos := rand_pos w;
     trace := trace w |}.

Definition write_file (name : string) (content : gmap string pickled) (w : World) : World :=
  {| ICobj := ICobj w;
     files := <[ name := content ]> (files w);
     rand_stream := rand_stream w;
     choice_stream := choice_stream w;
     rand_pos := rand_pos w;
     trace := trace w |}.

Definition log (e : event) (w : World) : World :=
  {| ICobj := ICobj w;
     files := files w;
     rand_stream := rand_stream w;
     choice_stream := choice_stream w;
     rand_pos := rand_pos w;
     trace := trace w ++ [e] |}.

Definition advance (n : nat) (w : World) : World :=
  {| ICobj := ICobj w;
     files := files w;
     rand_stream := rand_stream w;
     choice_stream := choice_stream w;
     rand_pos := (rand_pos w + n)%nat;
     trace := trace w |}.

(** ** The state-and-exception monad *)

Definition M (A : Type) : Type := World -> result A * World.

#[global] Instance M_ret : MRet M := fun A a w => (Ok a, w).
#[global] Instance M_bind : MBind M := fun A B f c w =>
  match c w with
  | (Ok a, w') => f a w'
  | (Raise e, w') => (Raise e, w')
  end.

Definition raise {A} (e : exn) : M A := fun w => (Raise e, w).
Definition lift {A} (c : result A) : M A := fun w => (c, w).
Definition gets {A} (f : World -> A) : M A := fun w => (Ok (f w), w).
Definition modify (f : World -> World) : M unit := fun w => (Ok tt, f w).
Definition emit (e : event) : M unit := modify (log e).

(** Reading an attribute that may not have been assigned. *)
Definition getattr {A} (name : string) (o : option A) : result A :=
  match o with
  | Some a => Ok a
  | None => Raise (AttributeError name)
  end.

(** [for x in xs: s = body(x, s)] *)
Fixpoint for_M {A S} (xs : list A) (body : A -> S -> M S) (s : S) : M S :=
  match xs with
  | [] => mret s
  | x :: xs' => s' ← body x s; for_M xs' body s'
  end.

Fixpoint for_result {A S} (xs : list A) (body : A -> S -> result S) (s : S) : result S :=
  match xs with
  | [] => Ok s
  | x :: xs' => s' ← body x s; for_result xs' body s'
  end.

(** [np.random.rand(n)]: the next [n] uniform variates. *)
Definition np_random_rand (n : Z) : M (list R) := fun w =>
  if (n <? 0)%Z then (Raise ValueError, w)
  else (Ok ((fun k => rand_stream w (rand_pos w + k)%nat) <$> seq 0 (Z.to_nat n)),
        advance (Z.to_nat n) w).

(** [np.random.choice(a, n)]: [n] entries of [a], picked by the next [n]
    index draws; an empty [a] is a [ValueError]. *)
Definition np_random_choice (a : list R) (n : Z) : M (list R) := fun w =>
  if (n <? 0)%Z then (Raise ValueError, w)
  else match a with
       | [] => (Raise ValueError, w)
       | a0 :: _ =>
           (Ok ((fun k => default a0 (a !! (choice_stream w (rand_pos w + k)%nat `mod` length a)%nat))
                  <$> seq 0 (Z.to_nat n)),
            advance (Z.to_nat n) w)
       end.

(** ** [calc_rho_zr.py] *)

Module calc_rho_zr.

(** An argument that is either a float (or 0-D array) or a 1-D array. *)
Inductive arg : Type :=
| scalar (x : R)
| array (xs : list R).

(** [if not hasattr(a, '__iter__'): a = np.array(a).reshape(1)] *)
Definition as_array (a : arg) : list R :=
  match a with
  | scalar x => [x]
  | array xs => xs
  end.

(** The result of evaluating the interpolant: a 1-D array of the shape of
    [z], or the 2-D grid the spline returns for a scalar [z]. *)
Definition evaluated : Type := pickled.

Section externals.

(** Parts of the package that the module imports and that are taken as
    given: the vertical density solver [calc_rho.rho_z(ICobj, r)], which
    returns the density vector and the vertical grid at the radius [r]; the
    constructor [calc_rho.cdfinv_z(z, rho)] of the inverse CDF over [z] at a
    fixed radius; and scipy's [RectBivariateSpline(z, r, rho)], whose result
    is represented by its pointwise evaluation. *)
Variable rho_z : IC -> list R -> result (list R * list R).
Variable cdfinv_z : list R -> list R -> result (R -> R).
Variable RectBivariateSpline : list R -> list R -> np.ndarray2 -> result (R -> R -> R).

(** The body of the loop of [rho_zr] for the radial index [n].  The loop
    carries the table and the solver's last answer [(rho_vector, z)]. *)
Definition rho_zr_body (r : list R) (nr : Z) (n : nat)
    (st : np.ndarray2 * option (list R * list R)) :
    M (np.ndarray2 * option (list R * list R)) :=
  emit (Print "************************************");;
  emit (Print ("Calculating rho(z) - " +:+ pretty (Z.of_nat n + 1)%Z
                 +:+ " of " +:+ pretty nr));;
  emit Print_elapsed;;
  emit (Print "************************************");;
  rn ← lift (np.getitem r (Z.of_nat n));
  ic ← gets ICobj;
  emit (Call_rho_z [rn]);;
  '(rho_vector, z) ← lift (rho_z ic [rn]);
  rho' ← lift (np.set_column st.1 n rho_vector);
  mret (rho', Some (rho_vector, z)).

(** [rho_zr(ICobj)]; [rho_vector] is unbound when the loop body never
    ran. *)
Definition rho_zr : M (np.ndarray2 * list R * list R) :=
  settings ← gets (fun w => IC_settings (ICobj w));
  let nr := ICgen_settings.nr (ICgen_settings.s_rho_calc settings) in
  let nz := ICgen_settings.nz (ICgen_settings.s_rho_calc settings) in
  sigma ← (ic ← gets ICobj; lift (getattr "sigma" (IC_sigma ic)));
  rmin ← lift (np.min (sigma_r_bins sigma));
  rmax ← lift (np.max (sigma_r_bins sigma));
  r ← lift (np.linspace rmin rmax nr);
  rho ← lift (np.zeros2 nz nr);
  '(rho, last) ← for_M (seq 0 (Z.to_nat nr)) (rho_zr_body r nr) (rho, None);
  match last with
  | None => raise (UnboundLocalError "rho_vector")
  | Some (_, z) => mret (rho, z, r)
  end.

(** [rho_from_array._cdf_inv_gen]: one sampler per radial grid point. *)
Definition _cdf_inv_gen (rho : np.ndarray2) (z r : list R) : result (list (R -> R)) :=
  for_result (seq 0 (length r))
    (fun n cdf_inv =>
       col ← np.column rho n;
       f ← cdfinv_z z col;
       mret (cdf_inv ++ [f]))
    [].

(** [rho_from_array._radial_derivative] *)
Definition _radial_derivative (rho : np.ndarray2) (z r : list R) : result (R -> R -> R) :=
  z1 ← np.getitem z 1;
  z0 ← np.getitem z 0;
  r1 ← np.getitem r 1;
  r0 ← np.getitem r 0;
  let dr := r1 - r0 in
  drho_dr_binned ← np.gradient_axis1 rho dr;
  RectBivariateSpline z r drho_dr_binned.

(** [rho_from_array.__init__(ICobj, rho, z, r)] *)
Definition __init__ (rho : np.ndarray2) (z r : list R) : result rho_from_array :=
  spline ← RectBivariateSpline z r rho;
  cdf_inv ← _cdf_inv_gen rho z r;
  drho_dr ← _radial_derivative rho z r;
  mret {| _rho_spline := spline;
          rho_binned := rho;
          r_bins := r;
          z_bins := z;
          _cdf_inv := cdf_inv;
          _drho_dr := drho_dr |}.

End externals.

(** The body of the loop of [cdf_inv] for the point [i] in radial bin [j]. *)
Definition cdf_inv_step (self : rho_from_array) (m r : list R) (dr : R)
    (ij : nat * nat) (z_out : list R) : result (list R) :=
  let '(i, j) := ij in
  f_lo ← np.getitem (_cdf_inv self) (Z.of_nat j - 1);
  m_i ← np.getitem m (Z.of_nat i);
  let z_lo := f_lo m_i in
  f_hi ← np.getitem (_cdf_inv self) (Z.of_nat j);
  m_i' ← np.getitem m (Z.of_nat i);
  let z_hi := f_hi m_i' in
  r_i ← np.getitem r (Z.of_nat i);
  r_lo ← np.getitem (r_bins self) (Z.of_nat j - 1);
  np.setitem z_out i (z_lo + ((z_hi - z_lo) / dr) * (r_i - r_lo)).

(** The mask [(r >= r_bins.min()) & (r < r_bins.max())]. *)
Definition in_range (rmin rmax x : R) : bool :=
  bool_decide (x >= rmin) && bool_decide (x < rmax).

(** The shape check of [cdf_inv]: the shorter of the two arrays is
    multiplied by [np.ones] of the shape of the longer one. *)
Definition match_shapes (m r : list R) : result (list R * list R) :=
  if decide (length r < length m)%nat then
    r' ← np.broadcast2 Rmult r (replicate (length m) 1); mret (m, r')
  else if decide (length m < length r)%nat then
    m' ← np.broadcast2 Rmult m (replicate (length r) 1); mret (m', r)
  else mret (m, r).

(** [rho_from_array.cdf_inv(m, r)] *)
Definition cdf_inv (self : rho_from_array) (m r : arg) : result (list R) :=
  let m := as_array m in
  let r := as_array r in
  '(m, r) ← match_shapes m r;
  let n_pts := length r in
  let z_out := replicate n_pts 0 in
  b1 ← np.getitem (r_bins self) 1;
  b0 ← np.getitem (r_bins self) 0;
  let dr := b1 - b0 in
  r_indices ← np.digitize r (r_bins self);
  rmin ← np.min (r_bins self);
  rmax ← np.max (r_bins self);
  let mask := in_range rmin rmax <$> r in
  let z_ind := seq 0 n_pts in
  for_result (zip (np.compress mask z_ind) (np.compress mask r_indices))
    (cdf_inv_step self m r dr) z_out.

(** [rho_from_array.rho(z, r)].  A scalar [z] returns the spline's grid
    evaluation, one row with a column per entry of [r]; an array [z] is
    iterated together with [r] under broadcasting, each value stored at its
    index in an output of the shape of [z]. *)
Definition rho (self : rho_from_array) (z r : arg) : result evaluated :=
  match z with
  | scalar z_val =>
      let rs := as_array r in
      Ok (arr2 (np.mk2 1 (length rs) [_rho_spline self z_val <$> rs]))
  | array zs =>
      vals ← np.broadcast2 (_rho_spline self) zs (as_array r);
      rho_out ← for_result (zip (seq 0 (length vals)) vals)
                  (fun iv rho_out => np.setitem rho_out iv.1 iv.2)
                  (replicate (length zs) 0);
      mret (arr1 rho_out)
  end.

(** [rho_from_array.__call__] *)
Definition __call__ (self : rho_from_array) (z r : arg) : result evaluated :=
  rho self z r.

(** [rho_from_array.save(filename)] *)
Definition save (self : rho_from_array) (filename : option string) : M unit :=
  filename ← match filename with
             | None =>
                 s ← gets (fun w => IC_settings (ICobj w));
                 lift (getattr "rhoFileName"
                         (ICgen_settings.rhoFileName (ICgen_settings.s_filenames s)))
             | Some f => mret f
             end;
  let save_dict : gmap string pickled :=
    <[ "r" := arr1 (r_bins self) ]>
      (<[ "z" := arr1 (z_bins self) ]>
         (<[ "rho" := arr2 (rho_binned self) ]> ∅)) in
  modify (write_file filename save_dict);;
  emit (Print ("rho(z,r) saved to " +:+ filename));;
  modify (set_settings (ICgen_settings.set_rhoFileName filename)).

(** [rho_from_array.drho_dr(z, r)]: the radial derivative, evaluated like
    [rho] but through the derivative spline. *)
Definition drho_dr (self : rho_from_array) (z r : arg) : result evaluated :=
  match z with
  | scalar z_val =>
      let rs := as_array r in
      Ok (arr2 (np.mk2 1 (length rs) [_drho_dr self z_val <$> rs]))
  | array zs =>
      vals ← np.broadcast2 (_drho_dr self) zs (as_array r);
      drho ← for_result (zip (seq 0 (length vals)) vals)
               (fun iv drho => np.setitem drho iv.1 iv.2)
               (replicate (length zs) 0);
      mret (arr1 drho)
  end.

End calc_rho_zr.

(** ** [pos_class.py] *)

Module pos_class.

(** Modelled from the spec: [isaac.strip_units] and [isaac.match_units] are
    functions of a module of the package that is not among the sources.  The
    spec leaves unit bookkeeping to an external collaborator and only asks
    that values be converted and compared consistently; arrays being
    magnitudes in a common unit here, both leave the magnitudes as they
    are. *)
Definition strip_units (a : list R) : list R := a.

Definition match_units {A B} (a : A) (like : B) : A := a.

(** The attributes of a [pos] instance ([_parent] is the world's [ICobj]). *)
Record pos : Type := mk_pos {
  method : option string;
  nParticles : option Z;
  r : option (list R);
  z : option (list R);
  theta : option (list R);
  x : option (list R);
  y : option (list R);
  xyz : option np.ndarray2
}.

Definition new : pos := mk_pos None None None None None None None None.

Definition set_method (v : string) (p : pos) : pos :=
  mk_pos (Some v) (nParticles p) (r p) (z p) (theta p) (x p) (y p) (xyz p).
Definition set_nParticles (v : Z) (p : pos) : pos :=
  mk_pos (method p) (Some v) (r p) (z p) (theta p) (x p) (y p) (xyz p).
Definition set_r (v : list R) (p : pos) : pos :=
  mk_pos (method p) (nParticles p) (Some v) (z p) (theta p) (x p) (y p) (xyz p).
Definition set_z (v : list R) (p : pos) : pos :=
  mk_pos (method p) (nParticles p) (r p) (Some v) (theta p) (x p) (y p) (xyz p).
Definition set_theta (v : list R) (p : pos) : pos :=
  mk_pos (method p) (nParticles p) (r p) (z p) (Some v) (x p) (y p) (xyz p).
Definition set_xy_xyz (vx vy : list R) (vxyz : np.ndarray2) (p : pos) : pos :=
  mk_pos (method p) (nParticles p) (r p) (z p) (theta p) (Some vx) (Some vy) (Some vxyz).

(** A call of [self._parent.sigma.cdf_inv]. *)
Definition call_cdf_inv_r (sigma : sigma_profile) (m : list R) : M (list R) :=
  emit (Call_sigma_cdf_inv m);;
  mret (sigma_cdf_inv sigma m).

(** [pos._generate_r] *)
Definition _generate_r (self : pos) : M pos :=
  emit (Print "Generating r positions");;
  sigma ← (ic ← gets ICobj; lift (getattr "sigma" (IC_sigma ic)));
  meth ← lift (getattr "method" (method self));
  self ← (if decide (meth = "grid") then
            n ← lift (getattr "nParticles" (nParticles self));
            m ← lift (np.linspace 0 1 (n + 2));
            r ← call_cdf_inv_r sigma (np.slice m 1 (Some (-1)%Z));
            mret (set_r r self)
          else mret self);
  meth ← lift (getattr "method" (method self));
  if decide (meth = "random") then
    n ← lift (getattr "nParticles" (nParticles self));
    m ← np_random_rand n;
    r ← call_cdf_inv_r sigma m;
    mret (set_r r self)
  else mret self.

(** [pos._generate_z] *)
Definition _generate_z (self : pos) : M pos :=
  emit (Print "Generating z positions");;
  rho ← (ic ← gets ICobj; lift (getattr "rho" (IC_rho ic)));
  n ← lift (getattr "nParticles" (nParticles self));
  m ← np_random_rand n;
  r ← lift (getattr "r" (r self));
  z ← lift (calc_rho_zr.cdf_inv rho (calc_rho_zr.array m) (calc_rho_zr.array r));
  n' ← lift (getattr "nParticles" (nParticles self));
  sign ← np_random_choice [-1; 1] n';
  z ← lift (np.broadcast2 Rmult z sign);
  mret (set_z z self).

(** The loop of the grid branch of [_generate_theta]:
    [theta[n+1] = theta[n] - dtheta[n]]. *)
Definition theta_step (dtheta : list R) (n : nat) (theta : list R) : result (list R) :=
  t_n ← np.getitem theta (Z.of_nat n);
  d_n ← np.getitem dtheta (Z.of_nat n);
  np.setitem theta (n + 1) (t_n - d_n).

(** [np.sqrt(2*np.pi*(1 - r[0:-1]/r[1:]))] *)
Definition dtheta_of (r : list R) : result (list R) :=
  q ← np.broadcast2 Rdiv (np.slice r 0 (Some (-1)%Z)) (np.slice r 1 None);
  mret ((fun q_n => sqrt (2 * PI * (1 - q_n))) <$> (q : list R)).

(** [pos._generate_theta] *)
Definition _generate_theta (self : pos) : M pos :=
  nParticles ← lift (getattr "nParticles" (nParticles self));
  meth ← lift (getattr "method" (method self));
  self ← (if decide (meth = "grid") then
            r ← lift (getattr "r" (r self));
            dtheta ← lift (dtheta_of r);
            let dtheta := strip_units dtheta in
            theta ← lift (np.zeros nParticles);
            theta ← lift (for_result (seq 0 (Z.to_nat (nParticles - 1)))
                            (theta_step dtheta) theta);
            mret (set_theta theta self)
          else mret self);
  meth ← lift (getattr "method" (method self));
  if decide (meth = "random") then
    u ← np_random_rand nParticles;
    mret (set_theta ((fun u_n => 2 * PI * u_n) <$> u) self)
  else mret self.

(** [pos._cartesian_pos] *)
Definition _cartesian_pos (self : pos) : M pos :=
  r ← lift (getattr "r" (r self));
  z ← lift (getattr "z" (z self));
  theta ← lift (getattr "theta" (theta self));
  x ← lift (np.broadcast2 Rmult r (cos <$> theta));
  y ← lift (np.broadcast2 Rmult r (sin <$> theta));
  n ← lift (getattr "nParticles" (nParticles self));
  xyz ← lift (np.zeros2 n 3);
  let xyz := match_units xyz r in
  xyz ← lift (np.set_column xyz 0 x);
  xyz ← lift (np.set_column xyz 1 y);
  xyz ← lift (np.set_column xyz 2 (match_units z r));
  mret (set_xy_xyz x y xyz self).

(** [pos.__init__(ICobj, method)]; [method = None] is the default. *)
Definition __init__ (meth : option string) : M pos :=
  let self := new in
  ic ← gets ICobj;
  match IC_rho ic with
  | None => raise (NameError "rho could not be found in the IC object")
  | Some _ =>
      match IC_sigma ic with
      | None => raise (NameError "sigma could not be found in the IC object")
      | Some _ =>
          self ← match meth with
                 | None =>
                     s ← gets (fun w => IC_settings (ICobj w));
                     mret (set_method (ICgen_settings.method (ICgen_settings.s_pos_gen s)) self)
                 | Some v =>
                     modify (set_settings (ICgen_settings.set_method v));;
                     mret (set_method v self)
                 end;
          s ← gets (fun w => IC_settings (ICobj w));
          let n := ICgen_settings.nParticles (ICgen_settings.s_pos_gen s) in
          let self := set_nParticles n self in
          emit (Print ("Generating " +:+ pretty n +:+ " particle positions using method: "
                         +:+ default "" (method self)));;
          self ← _generate_r self;
          self ← _generate_z self;
          self ← _generate_theta self;
          _cartesian_pos self
      end
  end.

End pos_class.

(** ** Vocabulary of the statements *)

(** The arguments of the calls to the radial inverse CDF, in order. *)
Definition sigma_cdf_inv_calls (tr : list event) : list (list R) :=
  omap (fun e => match e with Call_sigma_cdf_inv m => Some m | _ => None end) tr.

(** The arguments of the calls to the vertical density solver, in order. *)
Definition rho_z_calls (tr : list event) : list (list R) :=
  omap (fun e => match e with Call_rho_z r => Some r | _ => None end) tr.

Definition strictly_increasing (l : list R) : Prop :=
  forall (i j : nat) (a b : R), (i < j)%nat -> l !! i = Some a -> l !! j = Some b -> a < b.

Definition strictly_decreasing (l : list R) : Prop :=
  forall (i j : nat) (a b : R), (i < j)%nat -> l !! i = Some a -> l !! j = Some b -> b < a.

Definition is_NameError (e : exn) : Prop :=
  match e with NameError _ => True | _ => False end.

(** A pure computation that raises no [NameError]. *)
Definition rsafe {A} (c : result A) : Prop :=
  forall e : exn, c = Raise e -> ~ is_NameError e.

(** A method that leaves the initial-conditions object and the files as
    they are and raises no [NameError]. *)
Definition steady {A} (c : M A) : Prop :=
  forall w : World,
    ICobj (c w).2 = ICobj w /\ files (c w).2 = files w /\
    (forall e : exn, (c w).1 = Raise e -> ~ is_NameError e).

(** The radial grid is monotone, as [np.digitize] requires. *)
Definition monotone (bins : list R) : bool :=
  np.nondecreasing bins || np.nonincreasing bins.

(** The bin index [np.digitize] assigns to [x] on monotone bins. *)
Definition bin_index (bins : list R) (x : R) : nat :=
  if np.nondecreasing bins then np.digitize1 bins x else np.digitize1_decr bins x.

(** The invariants of a constructed interpolant that [cdf_inv] relies on:
    at least two radial grid points, a monotone radial grid, and one sampler
    per radial grid point. *)
Definition well_formed (self : rho_from_array) : Prop :=
  (2 <= length (r_bins self))%nat /\
  monotone (r_bins self) = true /\
  length (_cdf_inv self) = length (r_bins self).

(** The value that the loop of [cdf_inv] stores at index [i]. *)
Definition cdf_inv_entry (self : rho_from_array) (m r : list R) (i : nat) : R :=
  let bins := r_bins self in
  let dr := default 0 (bins !! 1%nat) - default 0 (bins !! 0%nat) in
  let m_i := default 0 (m !! i) in
  let r_i := default 0 (r !! i) in
  let j := bin_index bins r_i in
  let z_lo := default (fun _ => 0) (_cdf_inv self !! (j - 1)%nat) m_i in
  let z_hi := default (fun _ => 0) (_cdf_inv self !! j) m_i in
  z_lo + ((z_hi - z_lo) / dr) * (r_i - default 0 (bins !! (j - 1)%nat)).

(** The rule of the specification for the vertical inverse CDF between two
    radial grid points: linear interpolation between the two bracketing
    samplers' values, in proportion to the position of [r] within its
    bracket [[r_lo, r_hi)]. *)
Definition bracket_interpolation (z_lo z_hi r_lo r_hi r : R) : R :=
  z_lo + (z_hi - z_lo) * ((r - r_lo) / (r_hi - r_lo)).

(** A radial grid with constant spacing [dr]. *)
Definition evenly_spaced (bins : list R) (dr : R) : Prop :=
  forall (k : nat) (a b : R),
    bins !! k = Some a -> bins !! (k + 1)%nat = Some b -> b - a = dr.

(** A table of [nz] rows and [nr] columns whose rows are all present. *)
Definition rectangular (nz nr : nat) (A : np.ndarray2) : Prop :=
  np.nrows A = nz /\ np.ncols A = nr /\ length (np.data A) = nz /\
  Forall (fun row => length row = nr) (np.data A).

(** The [n] uniform variates a generator returns from position [start]
    on, and the [n] signs [np.random.choice([-1, 1], n)] picks from there. *)
Definition draws (stream : nat -> R) (start n : nat) : list R :=
  (fun k => stream (start + k)%nat) <$> seq 0 n.

Definition sign_draws (stream : nat -> nat) (start n : nat) : list R :=
  (fun k => default (-1) ([-1; 1] !! (stream (start + k)%nat `mod` 2)%nat)) <$> seq 0 n.

(** ** Example data *)

Module Examples.

(** A profile on [1, 2] whose inverse CDF is [m |-> 1 + m]. *)
Definition sigma_lin : sigma_profile :=
  mk_sigma [1; 2] (fun m => (fun u => 1 + u) <$> m).

Definition world_sigma : World :=
  mk_World (mk_IC None (Some sigma_lin) ICgen_settings.defaults) ∅
           (fun _ => 1 / 2) (fun _ => 0%nat) 0 [].

Definition pos_grid4 : pos_class.pos :=
  pos_class.set_nParticles 4 (pos_class.set_method "grid" pos_class.new).

(** A grid-method sampler holding three radii. *)
Definition pos_grid_r3 : pos_class.pos :=
  pos_class.set_r [1; 2; 4]
    (pos_class.set_nParticles 3 (pos_class.set_method "grid" pos_class.new)).

(** An interpolant on the radial grid [0, 1, 3] (not evenly spaced) and the
    vertical grid [0, 1], with constant samplers 0, 0 and 2. *)
Definition rho_uneven : rho_from_array :=
  {| _rho_spline := fun _ _ => 1;
     rho_binned := np.mk2 2 3 [[1; 1; 1]; [1; 1; 1]];
     r_bins := [0; 1; 3];
     z_bins := [0; 1];
     _cdf_inv := [fun _ => 0; fun _ => 0; fun _ => 2];
     _drho_dr := fun _ _ => 0 |}.

(** An initial-conditions object with [rho] and [sigma] calculated and the
    default settings (grid method). *)
Definition world_full : World :=
  mk_World (mk_IC (Some rho_uneven) (Some sigma_lin) ICgen_settings.defaults) ∅
           (fun _ => 1 / 2) (fun _ => 0%nat) 0 [].

(** A density table of ones on the vertical grid [0, 1, 2, 3] and the radial
    grid [1, 2, 3, 4]. *)
Definition z_grid4 : list R := [0; 1; 2; 3].
Definition r_grid4 : list R := [1; 2; 3; 4].
Definition ones_table : np.ndarray2 := np.mk2 4 4 (replicate 4 (replicate 4 1)).

(** The spline constructor on tables whose entries are all equal to some
    [c]: the interpolating spline of such a table is the constant [c], and
    evaluating it anywhere, inside or outside the grid, gives [c].  Other
    tables are not needed here and are rejected. *)
Definition flat_spline (z r : list R) (rho : np.ndarray2) : result (R -> R -> R) :=
  match np.data rho with
  | (c :: _) :: _ =>
      if bool_decide (Forall (Forall (fun x => x = c)) (np.data rho))
      then Ok (fun _ _ => c)
      else Raise ValueError
  | _ => Raise ValueError
  end.

(** The inverse CDF over [z] of a density that is constant on
    [[0, z_max]]: [m |-> z_max * m]. *)
Definition uniform_cdfinv (z rho : list R) : result (R -> R) :=
  Ok (fun m => default 0 (last z) * m).

(** Settings asking for a table of 2 vertical by 3 radial points. *)
Definition settings_small : ICgen_settings.settings :=
  {| ICgen_settings.s_filenames :=
       ICgen_settings.mk_filenames "IC.p" "snapshot.std" "snapshot.param" None;
     ICgen_settings.s_rho_calc := ICgen_settings.mk_rho_calc 3 2 1 1.001;
     ICgen_settings.s_pos_gen := ICgen_settings.mk_pos_gen 4 "grid";
     ICgen_settings.s_snapshot := ICgen_settings.mk_snapshot 0.01 1 0.01;
     ICgen_settings.s_physical :=
       ICgen_settings.mk_physical 2.00132 0.33 332.406 0.5 (-0.59) 0 None;
     ICgen_settings.settings_filename := None |}.

Definition world_small : World :=
  mk_World (mk_IC None (Some sigma_lin) settings_small) ∅
           (fun _ => 1 / 2) (fun _ => 0%nat) 0 [].

(** A solver that answers, at the radius [r], with the density vector
    [1/r, 0] on the vertical grid [0, 1]. *)
Definition solver_inverse_r (ic : IC) (r : list R) : result (list R * list R) :=
  Ok ([1 / default 1 (r !! 0%nat); 0], [0; 1]).

(** An interpolant on the evenly spaced radial grid [0, 1, 2] whose
    samplers, [m], [2 m] and [3 m], are nondecreasing. *)
Definition rho_even : rho_from_array :=
  {| _rho_spline := fun _ _ => 1;
     rho_binned := np.mk2 2 3 [[1; 1; 1]; [1; 1; 1]];
     r_bins := [0; 1; 2];
     z_bins := [0; 1];
     _cdf_inv := [fun m => m; fun m => 2 * m; fun m => 3 * m];
     _drho_dr := fun _ _ => 0 |}.

(** An initial-conditions object on which nothing has been calculated. *)
Definition world_no_sigma : World :=
  mk_World (mk_IC None None ICgen_settings.defaults) ∅
           (fun _ => 1 / 2) (fun _ => 0%nat) 0 [].

(** Settings asking for no radial point at all. *)
Definition settings_nr0 : ICgen_settings.settings :=
  {| ICgen_settings.s_filenames :=
       ICgen_settings.mk_filenames "IC.p" "snapshot.std" "snapshot.param" None;
     ICgen_settings.s_rho_calc := ICgen_settings.mk_rho_calc 0 2 1 1.001;
     ICgen_settings.s_pos_gen := ICgen_settings.mk_pos_gen 4 "grid";
     ICgen_settings.s_snapshot := ICgen_settings.mk_snapshot 0.01 1 0.01;
     ICgen_settings.s_physical :=
       ICgen_settings.mk_physical 2.00132 0.33 332.406 0.5 (-0.59) 0 None;
     ICgen_settings.settings_filename := None |}.

Definition world_nr0 : World :=
  mk_World (mk_IC None (Some sigma_lin) settings_nr0) ∅
           (fun _ => 1 / 2) (fun _ => 0%nat) 0 [].

(** A solver that fails to converge beyond the radius 3/2 and otherwise
    answers like [solver_inverse_r]. *)
Definition solver_fails_outside (ic : IC) (r : list R) : result (list R * list R) :=
  if bool_decide (default 1 (r !! 0%nat) <= 3 / 2)
  then Ok ([1 / default 1 (r !! 0%nat); 0], [0; 1])
  else Raise ValueError.

(** A random-method sampler asked for three particles. *)
Definition pos_random3 : pos_class.pos :=
  pos_class.set_nParticles 3 (pos_class.set_method "random" pos_class.new).

(** A sampler holding three radii inside the grid of [rho_even]. *)
Definition pos_r3_even : pos_class.pos :=
  pos_class.set_r [1 / 2; 1; 3 / 2]
    (pos_class.set_nParticles 3 (pos_class.set_method "grid" pos_class.new)).

Definition world_even : World :=
  mk_World (mk_IC (Some rho_even) (Some sigma_lin) settings_small) ∅
           (fun _ => 1 / 2) (fun _ => 0%nat) 0 [].

(** A sampler holding cylindrical coordinates for two particles. *)
Definition pos_cyl2 : pos_class.pos :=
  pos_class.mk_pos (Some "grid") (Some 2%Z) (Some [1; 2]) (Some [0; 1 / 2])
                   (Some [0; PI]) None None None.

End Examples.

(** ** Proof tools *)

Ltac unfold_M :=
  cbv [mbind mret M_bind M_ret result_bind result_ret
       emit modify lift gets raise getattr pos_class.call_cdf_inv_r].

Lemma mbind_M_unfold {A B} (f : A -> M B) (c : M A) (w : World) :
  (c ≫= f) w = match c w with
                | (Ok a, w') => f a w'
                | (Raise e, w') => (Raise e, w')
                end.
Proof. reflexivity. Qed.

Lemma mbind_result_Ok {A B} (f : A -> result B) (a : A) : (Ok a ≫= f) = f a.
Proof. reflexivity. Qed.

Lemma mbind_result_Raise {A B} (f : A -> result B) (e : exn) :
  (Raise e ≫= f) = Raise e.
Proof. reflexivity. Qed.

Lemma for_result_cons {A S} (x : A) (xs : list A) (body : A -> S -> result S) (s : S) :
  for_result (x :: xs) body s = body x s ≫= for_result xs body.
Proof. reflexivity. Qed.

Lemma for_result_nil {A S} (body : A -> S -> result S) (s : S) :
  for_result [] body s = Ok s.
Proof. reflexivity. Qed.

(** Evaluate the integer under every [IZR] of the goal. *)
Ltac norm_IZR :=
  repeat match goal with
         | |- context [IZR ?z] =>
             lazymatch z with
             | Z0 => fail
             | Zpos _ => fail
             | Zneg _ => fail
             | _ => let z' := eval vm_compute in z in
                    progress (change (IZR z) with (IZR z'))
             end
         end.

(** Equality of two explicit lists of reals, entry by entry. *)
Ltac list_R_eq :=
  repeat match goal with
         | |- _ :: _ = _ :: _ => f_equal
         end;
  try reflexivity; try lra.

(** ** The radial step of the sampler, grid method *)

Lemma linspace_0_1_6 :
  np.linspace 0 1 (4 + 2) = Ok [0; 1 / 5; 2 / 5; 3 / 5; 4 / 5; 1].
Proof.
  unfold np.linspace. simpl. norm_IZR.
  f_equal. list_R_eq.
Qed.

Lemma slice_interior_6 (a b c d e f : R) :
  np.slice [a; b; c; d; e; f] 1 (Some (-1)%Z) = [b; c; d; e].
Proof. reflexivity. Qed.

Lemma generate_r_grid_run (w : World) (sigma : sigma_profile)
    (self : pos_class.pos) (n : Z) (m : list R) :
  IC_sigma (ICobj w) = Some sigma ->
  pos_class.method self = Some "grid" ->
  pos_class.nParticles self = Some n ->
  np.linspace 0 1 (n + 2) = Ok m ->
  pos_class._generate_r self w =
    (Ok (pos_class.set_r (sigma_cdf_inv sigma (np.slice m 1 (Some (-1)%Z))) self),
     log (Call_sigma_cdf_inv (np.slice m 1 (Some (-1)%Z)))
         (log (Print "Generating r positions") w)).
Proof.
  intros Hsigma Hmeth Hn Hm.
  unfold pos_class._generate_r. unfold_M. simpl.
  rewrite Hsigma, Hmeth. simpl.
  rewrite Hn, Hm. simpl. rewrite Hmeth. simpl. reflexivity.
Qed.

Lemma sigma_cdf_inv_calls_app (t1 t2 : list event) :
  sigma_cdf_inv_calls (t1 ++ t2) = sigma_cdf_inv_calls t1 ++ sigma_cdf_inv_calls t2.
Proof. unfold sigma_cdf_inv_calls. apply omap_app. Qed.

Lemma strictly_increasing_4 (a b c d : R) :
  a < b -> b < c -> c < d -> strictly_increasing [a; b; c; d].
Proof.
  intros Hab Hbc Hcd i j x y Hij Hi Hj.
  destruct i as [|[|[|[|i]]]], j as [|[|[|[|j]]]]; simpl in *;
    try lia; simplify_eq; try lra; try discriminate.
Qed.

(** C1 (as amended).  With [nParticles = 4] and the grid method, the radial
    step builds the six evenly spaced values 0, 1/5, ..., 1, drops the two
    boundary values, calls the radial inverse CDF exactly once, with the four
    interior values 1/5, 2/5, 3/5, 4/5, and stores what the call returns as
    [r].  Whenever the inverse CDF acts entry by entry through a function
    that is strictly increasing on (0, 1) with values strictly between
    [rmin] and [rmax], the result is four strictly increasing radii strictly
    inside ([rmin], [rmax]). *)
Theorem generate_r_grid_four (w : World) (sigma : sigma_profile) (self : pos_class.pos) :
  IC_sigma (ICobj w) = Some sigma ->
  pos_class.method self = Some "grid" ->
  pos_class.nParticles self = Some 4%Z ->
  let interior := [1 / 5; 2 / 5; 3 / 5; 4 / 5] in
  let radii := sigma_cdf_inv sigma interior in
  np.linspace 0 1 (4 + 2) = Ok [0; 1 / 5; 2 / 5; 3 / 5; 4 / 5; 1] /\
  (exists w',
     pos_class._generate_r self w = (Ok (pos_class.set_r radii self), w') /\
     sigma_cdf_inv_calls (trace w') = sigma_cdf_inv_calls (trace w) ++ [interior] /\
     ICobj w' = ICobj w /\ rand_pos w' = rand_pos w) /\
  (forall (f : R -> R) (rmin rmax : R),
     (forall m, sigma_cdf_inv sigma m = f <$> m) ->
     (forall a b, 0 < a -> a < b -> b < 1 -> f a < f b) ->
     (forall a, 0 < a -> a < 1 -> rmin < f a < rmax) ->
     length radii = 4%nat /\ strictly_increasing radii /\
     Forall (fun x => rmin < x < rmax) radii).
Proof.
  intros Hsigma Hmeth Hn interior radii.
  split; [exact linspace_0_1_6|]. split.
  - eexists. split.
    + rewrite (generate_r_grid_run w sigma self 4 _ Hsigma Hmeth Hn linspace_0_1_6).
      rewrite slice_interior_6. reflexivity.
    + simpl. rewrite !sigma_cdf_inv_calls_app. simpl.
      rewrite app_nil_r. auto.
  - intros f rmin rmax Hf Hinc Hin. subst radii interior. rewrite Hf. simpl.
    split; [reflexivity|]. split.
    + apply strictly_increasing_4; apply Hinc; lra.
    + repeat constructor; apply Hin; lra.
Qed.

Lemma generate_r_grid_four_witness :
  exists w',
    pos_class._generate_r Examples.pos_grid4 Examples.world_sigma =
      (Ok (pos_class.set_r [1 + 1 / 5; 1 + 2 / 5; 1 + 3 / 5; 1 + 4 / 5] Examples.pos_grid4), w') /\
    strictly_increasing [1 + 1 / 5; 1 + 2 / 5; 1 + 3 / 5; 1 + 4 / 5] /\
    Forall (fun x => 1 < x < 2) [1 + 1 / 5; 1 + 2 / 5; 1 + 3 / 5; 1 + 4 / 5].
Proof.
  destruct (generate_r_grid_four Examples.world_sigma Examples.sigma_lin Examples.pos_grid4
              eq_refl eq_refl eq_refl) as (_ & (w' & Hrun & _) & Hr).
  exists w'. split; [exact Hrun|].
  apply (Hr (fun u => 1 + u) 1 2).
  - reflexivity.
  - intros; lra.
  - intros; lra.
Defined.

(** C1 (as stated) fails: with [nParticles = 4] and the grid method the
    radial inverse CDF is never called with six values; its only call gets
    the four interior values. *)
Lemma generate_r_grid_four_not_six_values :
  ~ (exists m : list R,
       m ∈ sigma_cdf_inv_calls
             (trace (pos_class._generate_r Examples.pos_grid4 Examples.world_sigma).2) /\
       length m = 6%nat).
Proof.
  rewrite (generate_r_grid_run Examples.world_sigma Examples.sigma_lin Examples.pos_grid4 4 _
             eq_refl eq_refl eq_refl linspace_0_1_6).
  rewrite slice_interior_6. simpl.
  intros (m & Hm & Hlen).
  apply list_elem_of_singleton in Hm. subst m. simpl in Hlen. lia.
Qed.

(** ** Indexing lemmas *)

Lemma getitem_lookup {A} (a : list A) (n : nat) (x : A) :
  a !! n = Some x -> np.getitem a (Z.of_nat n) = Ok x.
Proof.
  intros H. unfold np.getitem.
  pose proof (lookup_lt_Some _ _ _ H) as Hlt.
  destruct (Z.ltb_spec (Z.of_nat n) 0) as [?|_]; [lia|].
  destruct (Z.ltb_spec (Z.of_nat n) 0) as [?|_]; [lia|].
  destruct (Z.leb_spec (Z.of_nat (length a)) (Z.of_nat n)) as [?|_]; [lia|].
  simpl. rewrite Nat2Z.id, H. reflexivity.
Qed.

Lemma getitem_pred_lookup {A} (a : list A) (j : nat) (x : A) :
  (1 <= j)%nat -> a !! (j - 1)%nat = Some x -> np.getitem a (Z.of_nat j - 1) = Ok x.
Proof.
  intros Hj H. replace (Z.of_nat j - 1)%Z with (Z.of_nat (j - 1)) by lia.
  by apply getitem_lookup.
Qed.

Lemma setitem_lt {A} (a : list A) (n : nat) (v : A) :
  (n < length a)%nat -> np.setitem a n v = Ok (<[ n := v ]> a).
Proof. intros H. unfold np.setitem. by rewrite decide_True. Qed.

Lemma broadcast2_same_length (op : R -> R -> R) (a b : list R) :
  length a = length b -> np.broadcast2 op a b = Ok (zip_with op a b).
Proof. intros H. unfold np.broadcast2. by rewrite decide_True. Qed.

Lemma slice_init {A} (a : list A) :
  np.slice a 0 (Some (-1)%Z) = take (length a - 1) a.
Proof.
  unfold np.slice, np.slice_bound. simpl.
  replace (Z.to_nat (0 `max` (Z.of_nat (length a) + -1))) with (length a - 1)%nat by lia.
  reflexivity.
Qed.

Lemma slice_tail {A} (a : list A) : np.slice a 1 None = drop 1 a.
Proof.
  unfold np.slice, np.slice_bound. simpl. rewrite firstn_all.
  destruct a as [|x a]; [reflexivity|].
  replace (Z.to_nat 1 `min` length (x :: a))%nat with 1%nat by (simpl; lia).
  reflexivity.
Qed.

(** ** The azimuthal step of the sampler, grid method *)

Lemma dtheta_of_Ok (r : list R) :
  pos_class.dtheta_of r =
    Ok (zip_with (fun a b => sqrt (2 * PI * (1 - a / b))) (take (length r - 1) r) (drop 1 r)).
Proof.
  unfold pos_class.dtheta_of. rewrite slice_init, slice_tail.
  rewrite broadcast2_same_length.
  - simpl. unfold mret, result_ret. f_equal.
    generalize (take (length r - 1) r) (drop 1 r).
    induction l as [|a l IH]; intros [|b l']; simpl; try reflexivity.
    f_equal. apply IH.
  - rewrite length_take, length_drop. lia.
Qed.

Lemma dtheta_lookup (r : list R) (n : nat) (r_n r_n1 : R) :
  r !! n = Some r_n -> r !! (n + 1)%nat = Some r_n1 ->
  zip_with (fun a b => sqrt (2 * PI * (1 - a / b))) (take (length r - 1) r) (drop 1 r) !! n
    = Some (sqrt (2 * PI * (1 - r_n / r_n1))).
Proof.
  intros Hn Hn1. apply lookup_zip_with_Some. exists r_n, r_n1.
  pose proof (lookup_lt_Some _ _ _ Hn1).
  split; [reflexivity|]. split.
  - rewrite lookup_take_lt by lia. exact Hn.
  - rewrite lookup_drop. rewrite Nat.add_comm. exact Hn1.
Qed.

Lemma theta_loop (dtheta : list R) (cnt : nat) :
  forall (s : nat) (theta : list R),
    (cnt = 0 \/ s + cnt < length theta)%nat ->
    (cnt = 0 \/ s + cnt <= length dtheta)%nat ->
    exists theta',
      for_result (seq s cnt) (pos_class.theta_step dtheta) theta = Ok theta' /\
      length theta' = length theta /\
      (forall i, (i <= s)%nat -> theta' !! i = theta !! i) /\
      (forall n, (s <= n < s + cnt)%nat ->
         exists t d, theta' !! n = Some t /\ dtheta !! n = Some d /\
                     theta' !! (n + 1)%nat = Some (t - d)).
Proof.
  induction cnt as [|cnt IH]; intros s theta Hth Hd.
  - exists theta. simpl. repeat split; auto. intros n Hn. lia.
  - destruct Hth as [?|Hth]; [lia|]. destruct Hd as [?|Hd]; [lia|].
    destruct (lookup_lt_is_Some_2 theta s) as [t Ht]; [lia|].
    destruct (lookup_lt_is_Some_2 dtheta s) as [d Hdl]; [lia|].
    change (seq s (S cnt)) with (s :: seq (S s) cnt). rewrite for_result_cons.
    assert (Hstep : pos_class.theta_step dtheta s theta = Ok (<[ (s + 1)%nat := t - d ]> theta)).
    { unfold pos_class.theta_step.
      rewrite (getitem_lookup _ _ _ Ht), mbind_result_Ok.
      rewrite (getitem_lookup _ _ _ Hdl), mbind_result_Ok.
      apply setitem_lt. lia. }
    rewrite Hstep, mbind_result_Ok.
    destruct (IH (S s) (<[ (s + 1)%nat := t - d ]> theta)) as (theta' & Hrun & Hlen & Hsame & Hrec).
    { right. rewrite length_insert. lia. }
    { right. lia. }
    exists theta'. split; [exact Hrun|].
    rewrite length_insert in Hlen. split; [exact Hlen|]. split.
    + intros i Hi. rewrite Hsame by lia. apply list_lookup_insert_ne. lia.
    + intros n Hn. destruct (decide (n = s)) as [->|Hne].
      * exists t, d. split; [|split; [exact Hdl|]].
        -- rewrite Hsame by lia. rewrite list_lookup_insert_ne by lia. exact Ht.
        -- rewrite Hsame by lia. apply list_lookup_insert_eq. lia.
      * apply Hrec. lia.
Qed.

Lemma adjacent_strictly_decreasing (l : list R) :
  (forall n a b, l !! n = Some a -> l !! (n + 1)%nat = Some b -> b < a) ->
  strictly_decreasing l.
Proof.
  intros Hadj i j a b Hij Hi Hj.
  replace j with (i + S (j - i - 1))%nat in Hj by lia.
  generalize dependent b. generalize (j - i - 1)%nat as k.
  induction k as [|k IH]; intros b Hb.
  - exact (Hadj i a b Hi Hb).
  - destruct (lookup_lt_is_Some_2 l (i + S k)) as [c Hc].
    { apply lookup_lt_Some in Hb. lia. }
    specialize (IH c Hc).
    replace (i + S (S k))%nat with (i + S k + 1)%nat in Hb by lia.
    pose proof (Hadj _ _ _ Hc Hb). lra.
Qed.

Lemma dtheta_positive (a b : R) : 0 <= a -> a < b -> 0 < sqrt (2 * PI * (1 - a / b)).
Proof.
  intros Ha Hab. apply sqrt_lt_R0.
  assert (Hb : 0 < b) by lra.
  assert (Hq : a / b < 1).
  { apply (Rmult_lt_reg_r b); [exact Hb|]. unfold Rdiv.
    rewrite Rmult_assoc, Rinv_l by lra. lra. }
  pose proof PI_RGT_0. nra.
Qed.

Lemma zeros_of_nat (n : nat) : np.zeros (Z.of_nat n) = Ok (replicate n 0).
Proof.
  unfold np.zeros. destruct (Z.ltb_spec (Z.of_nat n) 0); [lia|].
  by rewrite Nat2Z.id.
Qed.

Lemma generate_theta_grid_run (w : World) (self : pos_class.pos) (rs theta : list R) :
  pos_class.method self = Some "grid" ->
  pos_class.nParticles self = Some (Z.of_nat (length rs)) ->
  pos_class.r self = Some rs ->
  for_result (seq 0 (length rs - 1))
    (pos_class.theta_step
       (zip_with (fun a b => sqrt (2 * PI * (1 - a / b))) (take (length rs - 1) rs) (drop 1 rs)))
    (replicate (length rs) 0) = Ok theta ->
  pos_class._generate_theta self w = (Ok (pos_class.set_theta theta self), w).
Proof.
  intros Hmeth Hn Hr Hloop.
  unfold pos_class._generate_theta. unfold_M.
  rewrite Hn, Hmeth. simpl. rewrite Hr, dtheta_of_Ok, zeros_of_nat.
  unfold pos_class.strip_units.
  replace (Z.to_nat (Z.of_nat (length rs) - 1)) with (length rs - 1)%nat by lia.
  rewrite Hloop. simpl. rewrite Hmeth. simpl. reflexivity.
Qed.

(** C5.  For a radial sequence [rs] of length [N = nParticles], the grid
    method's azimuthal step succeeds and stores [N] angles with
    [theta[0] = 0] and [theta[n+1] = theta[n] - sqrt(2 pi (1 - r[n]/r[n+1]))]
    for every [n] with [n + 1 < N]; when the radii are non-negative and
    strictly increasing, the angles are strictly decreasing in the particle
    index.  Nothing but the sampler's [theta] changes. *)
Theorem generate_theta_grid_spiral (w : World) (self : pos_class.pos) (rs : list R) :
  pos_class.method self = Some "grid" ->
  pos_class.nParticles self = Some (Z.of_nat (length rs)) ->
  pos_class.r self = Some rs ->
  exists theta : list R,
    pos_class._generate_theta self w = (Ok (pos_class.set_theta theta self), w) /\
    length theta = length rs /\
    ((0 < length rs)%nat -> theta !! 0%nat = Some 0) /\
    (forall (n : nat) (r_n r_n1 : R),
       rs !! n = Some r_n -> rs !! (n + 1)%nat = Some r_n1 ->
       exists t_n : R,
         theta !! n = Some t_n /\
         theta !! (n + 1)%nat = Some (t_n - sqrt (2 * PI * (1 - r_n / r_n1)))) /\
    (strictly_increasing rs -> (forall x, x ∈ rs -> 0 <= x) ->
     strictly_decreasing theta).
Proof.
  intros Hmeth Hn Hr.
  set (dtheta := zip_with (fun a b => sqrt (2 * PI * (1 - a / b)))
                   (take (length rs - 1) rs) (drop 1 rs)).
  assert (Hdlen : length dtheta = (length rs - 1)%nat).
  { unfold dtheta. rewrite length_zip_with, length_take, length_drop. lia. }
  destruct (theta_loop dtheta (length rs - 1) 0 (replicate (length rs) 0))
    as (theta & Hrun & Hlen & Hsame & Hrec).
  { rewrite length_replicate. lia. }
  { lia. }
  rewrite length_replicate in Hlen.
  assert (Hstep : forall (n : nat) (r_n r_n1 : R),
             rs !! n = Some r_n -> rs !! (n + 1)%nat = Some r_n1 ->
             exists t_n : R,
               theta !! n = Some t_n /\
               theta !! (n + 1)%nat = Some (t_n - sqrt (2 * PI * (1 - r_n / r_n1)))).
  { intros n r_n r_n1 Hrn Hrn1.
    pose proof (lookup_lt_Some _ _ _ Hrn1) as Hlt.
    destruct (Hrec n) as (t & d & Ht & Hd & Ht1); [lia|].
    unfold dtheta in Hd. rewrite (dtheta_lookup rs n r_n r_n1 Hrn Hrn1) in Hd.
    injection Hd as <-. exists t. split; assumption. }
  exists theta. split; [|split; [exact Hlen|split; [|split; [exact Hstep|]]]].
  - apply (generate_theta_grid_run w self rs theta Hmeth Hn Hr Hrun).
  - intros Hpos. rewrite Hsame by lia. apply lookup_replicate_2. exact Hpos.
  - intros Hinc Hnonneg. apply adjacent_strictly_decreasing.
    intros n a b Ha Hb.
    pose proof (lookup_lt_Some _ _ _ Hb) as Hlt. rewrite Hlen in Hlt.
    destruct (lookup_lt_is_Some_2 rs n) as [r_n Hrn]; [lia|].
    destruct (lookup_lt_is_Some_2 rs (n + 1)) as [r_n1 Hrn1]; [lia|].
    destruct (Hstep n r_n r_n1 Hrn Hrn1) as (t & Ht & Ht1).
    rewrite Ha in Ht. injection Ht as <-. rewrite Hb in Ht1. injection Ht1 as ->.
    assert (0 < sqrt (2 * PI * (1 - r_n / r_n1))); [|lra].
    apply dtheta_positive.
    + apply Hnonneg. eapply list_elem_of_lookup_2. exact Hrn.
    + apply (Hinc n (n + 1)%nat); [lia|assumption..].
Qed.

Ltac solve_strict :=
  let i := fresh "i" in
  let j := fresh "j" in
  intros i j ? ? ? ? ?;
  repeat (destruct i as [|i]; simpl in *; try discriminate);
  repeat (destruct j as [|j]; simpl in *; try discriminate; try lia);
  simplify_eq; lra.

Lemma generate_theta_grid_spiral_witness :
  exists theta : list R,
    pos_class._generate_theta Examples.pos_grid_r3 Examples.world_sigma =
      (Ok (pos_class.set_theta theta Examples.pos_grid_r3), Examples.world_sigma) /\
    theta !! 0%nat = Some 0 /\ strictly_decreasing theta.
Proof.
  destruct (generate_theta_grid_spiral Examples.world_sigma Examples.pos_grid_r3 [1; 2; 4]
              eq_refl eq_refl eq_refl) as (theta & Hrun & _ & H0 & _ & Hdec).
  exists theta. split; [exact Hrun|]. split.
  - apply H0. simpl. lia.
  - apply Hdec.
    + solve_strict.
    + intros x Hx. repeat (apply elem_of_cons in Hx as [->|Hx]; [lra|]).
      by apply elem_of_nil in Hx.
Defined.

(** ** Frame and exception lemmas for the sampler's steps *)

Lemma rsafe_Ok {A} (a : A) : rsafe (Ok a).
Proof. intros e He. discriminate. Qed.

Lemma rsafe_bind {A B} (c : result A) (f : A -> result B) :
  rsafe c -> (forall a, rsafe (f a)) -> rsafe (c ≫= f).
Proof.
  intros Hc Hf. destruct c as [a|e]; simpl.
  - apply Hf.
  - intros e' He'. injection He' as <-. by apply (Hc e).
Qed.

Lemma rsafe_for_result {A S} (xs : list A) (body : A -> S -> result S) :
  (forall x s, rsafe (body x s)) -> forall s, rsafe (for_result xs body s).
Proof.
  intros Hbody. induction xs as [|x xs IH]; intros s.
  - apply rsafe_Ok.
  - rewrite for_result_cons. apply rsafe_bind; [apply Hbody|exact IH].
Qed.

Ltac rsafe_prim :=
  let e := fresh "e" in
  let He := fresh "He" in
  intros e He; repeat case_match; simplify_eq; simpl; tauto.

Lemma rsafe_getattr {A} (name : string) (o : option A) : rsafe (getattr name o).
Proof. unfold getattr. rsafe_prim. Qed.

Lemma rsafe_getitem {A} (a : list A) (i : Z) : rsafe (np.getitem a i).
Proof. unfold np.getitem. rsafe_prim. Qed.

Lemma rsafe_setitem {A} (a : list A) (i : nat) (v : A) : rsafe (np.setitem a i v).
Proof. unfold np.setitem. rsafe_prim. Qed.

Lemma rsafe_zeros (n : Z) : rsafe (np.zeros n).
Proof. unfold np.zeros. rsafe_prim. Qed.

Lemma rsafe_zeros2 (n k : Z) : rsafe (np.zeros2 n k).
Proof. unfold np.zeros2. rsafe_prim. Qed.

Lemma rsafe_linspace (a b : R) (n : Z) : rsafe (np.linspace a b n).
Proof. unfold np.linspace. rsafe_prim. Qed.

Lemma rsafe_min (a : list R) : rsafe (np.min a).
Proof. unfold np.min. rsafe_prim. Qed.

Lemma rsafe_max (a : list R) : rsafe (np.max a).
Proof. unfold np.max. rsafe_prim. Qed.

Lemma rsafe_broadcast2 (op : R -> R -> R) (a b : list R) : rsafe (np.broadcast2 op a b).
Proof. unfold np.broadcast2. rsafe_prim. Qed.

Lemma rsafe_set_column (A : np.ndarray2) (k : nat) (v : list R) :
  rsafe (np.set_column A k v).
Proof. unfold np.set_column. rsafe_prim. Qed.

Lemma rsafe_digitize (x bins : list R) : rsafe (np.digitize x bins).
Proof. unfold np.digitize. rsafe_prim. Qed.

Create HintDb rsafe.
#[global] Hint Resolve rsafe_Ok rsafe_getattr rsafe_getitem rsafe_setitem rsafe_zeros
  rsafe_zeros2 rsafe_linspace rsafe_min rsafe_max rsafe_broadcast2 rsafe_set_column
  rsafe_digitize : rsafe.

Ltac rsafe_steps :=
  repeat first
    [ progress auto with rsafe
    | apply rsafe_bind; [|intros]
    | apply rsafe_for_result; intros
    | progress (unfold mret, result_ret)
    | case_decide
    | match goal with
      | |- rsafe (let '(_, _) := ?p in _) => destruct p
      | |- rsafe (match ?x with _ => _ end) => destruct x
      end ].

Lemma rsafe_match_shapes (m r : list R) : rsafe (calc_rho_zr.match_shapes m r).
Proof. unfold calc_rho_zr.match_shapes. rsafe_steps. Qed.

Lemma rsafe_cdf_inv_step (self : rho_from_array) (m r : list R) (dr : R)
    (ij : nat * nat) (z_out : list R) :
  rsafe (calc_rho_zr.cdf_inv_step self m r dr ij z_out).
Proof. unfold calc_rho_zr.cdf_inv_step. rsafe_steps. Qed.

Lemma rsafe_cdf_inv (self : rho_from_array) (m r : calc_rho_zr.arg) :
  rsafe (calc_rho_zr.cdf_inv self m r).
Proof.
  unfold calc_rho_zr.cdf_inv.
  apply rsafe_bind; [apply rsafe_match_shapes|]. intros [m' r'].
  rsafe_steps. apply rsafe_cdf_inv_step.
Qed.

Lemma rsafe_dtheta_of (r : list R) : rsafe (pos_class.dtheta_of r).
Proof. unfold pos_class.dtheta_of. rsafe_steps. Qed.

Lemma rsafe_theta_step (dtheta : list R) (n : nat) (theta : list R) :
  rsafe (pos_class.theta_step dtheta n theta).
Proof. unfold pos_class.theta_step. rsafe_steps. Qed.

#[global] Hint Resolve rsafe_match_shapes rsafe_cdf_inv rsafe_dtheta_of rsafe_theta_step : rsafe.

Lemma steady_ret {A} (a : A) : steady (mret a : M A).
Proof. intros w. simpl. repeat split. intros e He. discriminate. Qed.

Lemma steady_bind {A B} (c : M A) (f : A -> M B) :
  steady c -> (forall a, steady (f a)) -> steady (c ≫= f).
Proof.
  intros Hc Hf w. rewrite mbind_M_unfold.
  destruct (Hc w) as (HIC & Hfiles & Hexn).
  destruct (c w) as [[a|e] w1]; simpl in *.
  - destruct (Hf a w1) as (HIC' & Hfiles' & Hexn').
    rewrite HIC', Hfiles'. split; [exact HIC|]. split; [exact Hfiles|exact Hexn'].
  - split; [exact HIC|]. split; [exact Hfiles|].
    intros e' He'. injection He' as <-. by apply (Hexn e).
Qed.

Lemma steady_lift {A} (c : result A) : rsafe c -> steady (lift c).
Proof. intros Hc w. unfold lift. simpl. repeat split. exact Hc. Qed.

Lemma steady_gets {A} (f : World -> A) : steady (gets f).
Proof. intros w. unfold gets. simpl. repeat split. intros e He. discriminate. Qed.

Lemma steady_emit (ev : event) : steady (emit ev).
Proof. intros w. unfold emit, modify. simpl. repeat split. intros e He. discriminate. Qed.

Lemma steady_rand (n : Z) : steady (np_random_rand n).
Proof.
  intros w. unfold np_random_rand. destruct (n <? 0)%Z; simpl; repeat split;
    intros e He; simplify_eq; simpl; tauto.
Qed.

Lemma steady_choice (a : list R) (n : Z) : steady (np_random_choice a n).
Proof.
  intros w. unfold np_random_choice. destruct (n <? 0)%Z, a; simpl; repeat split;
    intros e He; simplify_eq; simpl; tauto.
Qed.

Ltac steady_steps :=
  repeat first
    [ apply steady_ret
    | apply steady_gets
    | apply steady_emit
    | apply steady_rand
    | apply steady_choice
    | apply steady_lift; solve [auto with rsafe | rsafe_steps]
    | apply steady_bind; [|intros]
    | case_decide ].

Lemma steady_call_cdf_inv_r (sigma : sigma_profile) (m : list R) :
  steady (pos_class.call_cdf_inv_r sigma m).
Proof. unfold pos_class.call_cdf_inv_r. steady_steps. Qed.

Lemma steady_generate_r (self : pos_class.pos) : steady (pos_class._generate_r self).
Proof.
  unfold pos_class._generate_r.
  steady_steps; apply steady_call_cdf_inv_r.
Qed.

Lemma steady_generate_z (self : pos_class.pos) : steady (pos_class._generate_z self).
Proof. unfold pos_class._generate_z. steady_steps. Qed.

Lemma steady_generate_theta (self : pos_class.pos) :
  steady (pos_class._generate_theta self).
Proof. unfold pos_class._generate_theta. steady_steps. Qed.

Lemma steady_cartesian_pos (self : pos_class.pos) :
  steady (pos_class._cartesian_pos self).
Proof. unfold pos_class._cartesian_pos. steady_steps. Qed.

(** The four sampling steps of the constructor, in order. *)
Lemma steady_generate (self : pos_class.pos) :
  steady (self ← pos_class._generate_r self;
          self ← pos_class._generate_z self;
          self ← pos_class._generate_theta self;
          pos_class._cartesian_pos self).
Proof.
  apply steady_bind; [apply steady_generate_r|intros self1].
  apply steady_bind; [apply steady_generate_z|intros self2].
  apply steady_bind; [apply steady_generate_theta|intros self3].
  apply steady_cartesian_pos.
Qed.

(** ** The constructor of the sampler *)

(** The method the constructor settles on. *)
Lemma init_run (meth : option string) (w : World) (rho : rho_from_array)
    (sigma : sigma_profile) :
  IC_rho (ICobj w) = Some rho ->
  IC_sigma (ICobj w) = Some sigma ->
  let s := IC_settings (ICobj w) in
  let v := default (ICgen_settings.method (ICgen_settings.s_pos_gen s)) meth in
  let n := ICgen_settings.nParticles (ICgen_settings.s_pos_gen s) in
  let w0 := match meth with
            | None => w
            | Some v => set_settings (ICgen_settings.set_method v) w
            end in
  let w1 := log (Print ("Generating " +:+ pretty n
                          +:+ " particle positions using method: " +:+ v)) w0 in
  let self1 := pos_class.set_nParticles n (pos_class.set_method v pos_class.new) in
  pos_class.__init__ meth w =
    (self ← pos_class._generate_r self1;
     self ← pos_class._generate_z self;
     self ← pos_class._generate_theta self;
     pos_class._cartesian_pos self) w1.
Proof.
  intros Hrho Hsigma. simpl.
  unfold pos_class.__init__. rewrite mbind_M_unfold. unfold gets at 1.
  rewrite Hrho, Hsigma. destruct meth as [v|]; reflexivity.
Qed.

Lemma init_missing (meth : option string) (w : World) :
  IC_rho (ICobj w) = None \/ IC_sigma (ICobj w) = None ->
  exists msg : string, pos_class.__init__ meth w = (Raise (NameError msg), w).
Proof.
  intros H. unfold pos_class.__init__. rewrite mbind_M_unfold. unfold gets at 1.
  destruct (IC_rho (ICobj w)) as [rho|].
  - destruct H as [H|H]; [discriminate|]. rewrite H. eexists. reflexivity.
  - eexists. reflexivity.
Qed.

(** What the constructor leaves behind in the initial-conditions object. *)
Lemma init_frame (meth : option string) (w : World) :
  ICobj (pos_class.__init__ meth w).2 =
    match meth, IC_rho (ICobj w), IC_sigma (ICobj w) with
    | Some v, Some _, Some _ => ICobj (set_settings (ICgen_settings.set_method v) w)
    | _, _, _ => ICobj w
    end /\
  files (pos_class.__init__ meth w).2 = files w.
Proof.
  destruct (IC_rho (ICobj w)) as [rho|] eqn:Hrho;
    [destruct (IC_sigma (ICobj w)) as [sigma|] eqn:Hsigma|].
  - rewrite (init_run meth w rho sigma Hrho Hsigma).
    match goal with
    | |- context [((pos_class._generate_r ?self ≫= _) ?w1).2] =>
        destruct (steady_generate self w1) as (HIC & Hfiles & _)
    end.
    rewrite HIC, Hfiles. destruct meth as [v|]; simpl; auto.
  - destruct (init_missing meth w) as (msg & Hraise); [right; exact Hsigma|].
    rewrite Hraise. simpl. destruct meth; auto.
  - destruct (init_missing meth w) as (msg & Hraise); [left; exact Hrho|].
    rewrite Hraise. simpl. destruct meth; auto.
Qed.

(** C6 (as amended).  Constructing the sampler never touches [rho], [sigma]
    or the files.  Without an explicit method, or when a precondition check
    fails, the settings are left exactly as they were; with an explicit
    method [v] and both preconditions met, the settings end up with
    [pos_gen.method = v] and every other field unchanged, whatever the
    sampling steps do afterwards. *)
Theorem init_settings_effect (meth : option string) (w : World) :
  let w' := (pos_class.__init__ meth w).2 in
  let s := IC_settings (ICobj w) in
  IC_rho (ICobj w') = IC_rho (ICobj w) /\
  IC_sigma (ICobj w') = IC_sigma (ICobj w) /\
  files w' = files w /\
  IC_settings (ICobj w') =
    match meth, IC_rho (ICobj w), IC_sigma (ICobj w) with
    | Some v, Some _, Some _ => ICgen_settings.set_method v s
    | _, _, _ => s
    end /\
  (forall v : string,
     let s' := ICgen_settings.set_method v s in
     ICgen_settings.method (ICgen_settings.s_pos_gen s') = v /\
     ICgen_settings.nParticles (ICgen_settings.s_pos_gen s')
       = ICgen_settings.nParticles (ICgen_settings.s_pos_gen s) /\
     ICgen_settings.s_filenames s' = ICgen_settings.s_filenames s /\
     ICgen_settings.s_rho_calc s' = ICgen_settings.s_rho_calc s /\
     ICgen_settings.s_snapshot s' = ICgen_settings.s_snapshot s /\
     ICgen_settings.s_physical s' = ICgen_settings.s_physical s /\
     ICgen_settings.settings_filename s' = ICgen_settings.settings_filename s).
Proof.
  intros w' s. subst w' s.
  destruct (init_frame meth w) as (HIC & Hfiles).
  rewrite HIC, Hfiles.
  split; [|split; [|split; [reflexivity|split]]].
  - destruct meth, (IC_rho (ICobj w)) eqn:?, (IC_sigma (ICobj w)) eqn:?; simpl; congruence.
  - destruct meth, (IC_rho (ICobj w)) eqn:?, (IC_sigma (ICobj w)) eqn:?; simpl; congruence.
  - destruct meth, (IC_rho (ICobj w)) eqn:?, (IC_sigma (ICobj w)) eqn:?; reflexivity.
  - intros v. simpl. repeat split.
Qed.

(** C6 (as stated) fails: constructing the sampler with the explicit method
    "random" on an object whose settings say "grid" changes the settings. *)
Lemma init_explicit_method_changes_settings :
  ICgen_settings.method
    (ICgen_settings.s_pos_gen (IC_settings (ICobj Examples.world_full))) = "grid" /\
  ICgen_settings.method
    (ICgen_settings.s_pos_gen
       (IC_settings (ICobj (pos_class.__init__ (Some "random") Examples.world_full).2)))
    = "random" /\
  IC_settings (ICobj (pos_class.__init__ (Some "random") Examples.world_full).2)
    <> IC_settings (ICobj Examples.world_full).
Proof.
  destruct (init_frame (Some "random") Examples.world_full) as (HIC & _).
  rewrite HIC. simpl.
  split; [reflexivity|]. split; [reflexivity|]. discriminate.
Qed.

(** C9.  On an initial-conditions object without [rho] or without [sigma]
    the constructor raises [NameError] at once: the world is left exactly as
    it was, so nothing has been printed, drawn, called or assigned.  With
    both present, whatever the constructor raises is not a [NameError]. *)
Theorem init_precondition (meth : option string) (w : World) :
  (IC_rho (ICobj w) = None \/ IC_sigma (ICobj w) = None ->
   exists msg : string, pos_class.__init__ meth w = (Raise (NameError msg), w)) /\
  (is_Some (IC_rho (ICobj w)) -> is_Some (IC_sigma (ICobj w)) ->
   forall e : exn, (pos_class.__init__ meth w).1 = Raise e -> ~ is_NameError e).
Proof.
  split; [apply init_missing|].
  intros [rho Hrho] [sigma Hsigma] e.
  rewrite (init_run meth w rho sigma Hrho Hsigma).
  match goal with
  | |- context [((pos_class._generate_r ?self ≫= _) ?w1).1] =>
      destruct (steady_generate self w1) as (_ & _ & Hexn)
  end.
  apply Hexn.
Qed.

Lemma init_precondition_witness :
  (exists msg : string,
     pos_class.__init__ None Examples.world_sigma
       = (Raise (NameError msg), Examples.world_sigma)) /\
  (forall e : exn,
     (pos_class.__init__ None Examples.world_full).1 = Raise e -> ~ is_NameError e).
Proof.
  split.
  - apply (proj1 (init_precondition None Examples.world_sigma)). left. reflexivity.
  - apply (proj2 (init_precondition None Examples.world_full)); simpl; eauto.
Defined.

(** ** An unknown method *)

Lemma generate_r_unknown_method (self : pos_class.pos) (w : World)
    (sigma : sigma_profile) (v : string) :
  IC_sigma (ICobj w) = Some sigma ->
  pos_class.method self = Some v -> v <> "grid" -> v <> "random" ->
  pos_class._generate_r self w = (Ok self, log (Print "Generating r positions") w).
Proof.
  intros Hsigma Hmeth Hg Hr.
  unfold pos_class._generate_r. unfold_M. simpl.
  rewrite Hsigma, Hmeth. simpl.
  rewrite decide_False by exact Hg. rewrite Hmeth.
  rewrite decide_False by exact Hr. reflexivity.
Qed.

Lemma generate_z_without_r (self : pos_class.pos) (w : World)
    (rho : rho_from_array) (n : Z) :
  IC_rho (ICobj w) = Some rho ->
  pos_class.nParticles self = Some n -> (0 <= n)%Z ->
  pos_class.r self = None ->
  pos_class._generate_z self w =
    (Raise (AttributeError "r"),
     advance (Z.to_nat n) (log (Print "Generating z positions") w)).
Proof.
  intros Hrho Hn Hpos Hr.
  unfold pos_class._generate_z. unfold_M. simpl.
  rewrite Hrho, Hn. unfold np_random_rand.
  destruct (Z.ltb_spec n 0) as [?|_]; [lia|].
  rewrite Hr. reflexivity.
Qed.

(** C10.  With [rho] and [sigma] present, a non-negative particle count and
    a method that is neither "grid" nor "random" (given explicitly or read
    from the settings), the precondition checks pass, the radial step returns
    normally without calling the inverse CDF and without assigning [r], and
    the constructor fails only in the vertical step, after its random draws,
    with the missing-attribute error for [r]. *)
Theorem init_unknown_method (meth : option string) (w : World)
    (rho : rho_from_array) (sigma : sigma_profile) :
  let s := IC_settings (ICobj w) in
  let v := default (ICgen_settings.method (ICgen_settings.s_pos_gen s)) meth in
  let n := ICgen_settings.nParticles (ICgen_settings.s_pos_gen s) in
  let self1 := pos_class.set_nParticles n (pos_class.set_method v pos_class.new) in
  IC_rho (ICobj w) = Some rho ->
  IC_sigma (ICobj w) = Some sigma ->
  v <> "grid" -> v <> "random" -> (0 <= n)%Z ->
  (forall w1 : World,
     IC_sigma (ICobj w1) = Some sigma ->
     exists w2 : World,
       pos_class._generate_r self1 w1 = (Ok self1, w2) /\
       pos_class.r self1 = None /\
       sigma_cdf_inv_calls (trace w2) = sigma_cdf_inv_calls (trace w1)) /\
  (exists w' : World,
     pos_class.__init__ meth w = (Raise (AttributeError "r"), w') /\
     trace w' = trace w ++
       [Print ("Generating " +:+ pretty n +:+ " particle positions using method: " +:+ v);
        Print "Generating r positions";
        Print "Generating z positions"] /\
     rand_pos w' = (rand_pos w + Z.to_nat n)%nat).
Proof.
  intros s v n self1 Hrho Hsigma Hg Hr Hn. split.
  - intros w1 Hs1. eexists. split; [|split].
    + apply (generate_r_unknown_method self1 w1 sigma v Hs1 eq_refl Hg Hr).
    + reflexivity.
    + simpl. rewrite sigma_cdf_inv_calls_app. simpl. apply app_nil_r.
  - rewrite (init_run meth w rho sigma Hrho Hsigma).
    fold s. fold v. fold n. fold self1.
    rewrite mbind_M_unfold.
    erewrite (generate_r_unknown_method self1 _ sigma v _ eq_refl Hg Hr).
    rewrite mbind_M_unfold.
    erewrite (generate_z_without_r self1 _ rho n _ eq_refl Hn eq_refl).
    eexists. split; [reflexivity|]. split.
    + simpl. destruct meth; simpl; rewrite <- !app_assoc; reflexivity.
    + simpl. destruct meth; reflexivity.
  Unshelve.
  all: destruct meth; simpl; assumption.
Qed.

Lemma init_unknown_method_witness :
  exists w' : World,
    pos_class.__init__ (Some "spiral") Examples.world_full
      = (Raise (AttributeError "r"), w') /\
    sigma_cdf_inv_calls (trace w') = [].
Proof.
  destruct (init_unknown_method (Some "spiral") Examples.world_full
              Examples.rho_uneven Examples.sigma_lin eq_refl eq_refl)
    as (_ & w' & Hrun & Htrace & _).
  - discriminate.
  - discriminate.
  - simpl. lia.
  - exists w'. split; [exact Hrun|]. rewrite Htrace. reflexivity.
Defined.

(** ** Saving the density table *)

(** C8.  [save] writes, under the file name given or else under the
    configured [rhoFileName], a dictionary whose keys are exactly 'rho', 'z'
    and 'r', bound to the binned density and the two grids; no other file
    changes.  Afterwards the settings' [rhoFileName] is the name used, every
    other settings field is as before, and [rho] (the interpolant), [sigma]
    and the random generator are untouched. *)
Theorem save_effect (self : rho_from_array) (filename : option string)
    (w : World) (f : string) :
  let s := IC_settings (ICobj w) in
  match filename with
  | Some f' => Some f'
  | None => ICgen_settings.rhoFileName (ICgen_settings.s_filenames s)
  end = Some f ->
  exists (w' : World) (d : gmap string pickled),
    calc_rho_zr.save self filename w = (Ok tt, w') /\
    files w' = <[ f := d ]> (files w) /\
    dom d = ({[ "rho"; "z"; "r" ]} : gset string) /\
    d !! "rho" = Some (arr2 (rho_binned self)) /\
    d !! "z" = Some (arr1 (z_bins self)) /\
    d !! "r" = Some (arr1 (r_bins self)) /\
    (forall g : string, g <> f -> files w' !! g = files w !! g) /\
    let s' := IC_settings (ICobj w') in
    ICgen_settings.rhoFileName (ICgen_settings.s_filenames s') = Some f /\
    ICgen_settings.IC_file_name (ICgen_settings.s_filenames s')
      = ICgen_settings.IC_file_name (ICgen_settings.s_filenames s) /\
    ICgen_settings.snapshotName (ICgen_settings.s_filenames s')
      = ICgen_settings.snapshotName (ICgen_settings.s_filenames s) /\
    ICgen_settings.paramName (ICgen_settings.s_filenames s')
      = ICgen_settings.paramName (ICgen_settings.s_filenames s) /\
    ICgen_settings.s_rho_calc s' = ICgen_settings.s_rho_calc s /\
    ICgen_settings.s_pos_gen s' = ICgen_settings.s_pos_gen s /\
    ICgen_settings.s_snapshot s' = ICgen_settings.s_snapshot s /\
    ICgen_settings.s_physical s' = ICgen_settings.s_physical s /\
    ICgen_settings.settings_filename s' = ICgen_settings.settings_filename s /\
    IC_rho (ICobj w') = IC_rho (ICobj w) /\
    IC_sigma (ICobj w') = IC_sigma (ICobj w) /\
    rand_pos w' = rand_pos w.
Proof.
  intros s Hname.
  assert (Hrun : exists w', calc_rho_zr.save self filename w = (Ok tt, w') /\
            w' = set_settings (ICgen_settings.set_rhoFileName f)
                   (log (Print ("rho(z,r) saved to " +:+ f))
                      (write_file f
                         (<[ "r" := arr1 (r_bins self) ]>
                            (<[ "z" := arr1 (z_bins self) ]>
                               (<[ "rho" := arr2 (rho_binned self) ]> ∅))) w))).
  { eexists. split; [|reflexivity].
    unfold calc_rho_zr.save. destruct filename as [f'|].
    - injection Hname as ->. reflexivity.
    - unfold_M. simpl. fold s. rewrite Hname. reflexivity. }
  destruct Hrun as (w' & Hrun & ->).
  eexists. eexists. split; [exact Hrun|]. split; [reflexivity|]. split.
  { rewrite !dom_insert_L, dom_empty_L. set_solver. }
  split; [by simplify_map_eq|]. split; [by simplify_map_eq|].
  split; [by simplify_map_eq|]. split.
  { intros g Hg. simpl. by rewrite lookup_insert_ne. }
  simpl. repeat split.
Qed.

Lemma save_effect_witness :
  exists (w' : World) (d : gmap string pickled),
    calc_rho_zr.save Examples.rho_uneven (Some "rho.p") Examples.world_full = (Ok tt, w') /\
    files w' !! "rho.p" = Some d /\
    dom d = ({[ "rho"; "z"; "r" ]} : gset string) /\
    ICgen_settings.rhoFileName (ICgen_settings.s_filenames (IC_settings (ICobj w')))
      = Some "rho.p".
Proof.
  destruct (save_effect Examples.rho_uneven (Some "rho.p") Examples.world_full "rho.p"
              eq_refl)
    as (w' & d & Hrun & Hfiles & Hdom & _ & _ & _ & _ & Hname & _).
  exists w', d. split; [exact Hrun|]. split.
  - rewrite Hfiles. apply lookup_insert_eq.
  - split; [exact Hdom|exact Hname].
Defined.

(** ** The vertical inverse CDF *)

Lemma foldl_Rmin_spec (xs : list R) :
  forall x : R,
    foldl Rmin x xs ∈ x :: xs /\ (forall b, b ∈ x :: xs -> foldl Rmin x xs <= b).
Proof.
  induction xs as [|y xs IH]; intros x; simpl.
  - split; [left|]. intros b Hb. apply list_elem_of_singleton in Hb. lra.
  - destruct (IH (Rmin x y)) as (Hin & Hle). split.
    + apply elem_of_cons in Hin as [Hin|Hin]; [|by do 2 right].
      rewrite Hin. unfold Rmin. destruct (Rle_dec x y); [left|right; left].
    + intros b Hb.
      assert (Hm : foldl Rmin (Rmin x y) xs <= Rmin x y) by (apply Hle; left).
      apply elem_of_cons in Hb as [->|Hb].
      * pose proof (Rmin_l x y). lra.
      * apply elem_of_cons in Hb as [->|Hb].
        -- pose proof (Rmin_r x y). lra.
        -- apply Hle. by right.
Qed.

Lemma foldl_Rmax_spec (xs : list R) :
  forall x : R,
    foldl Rmax x xs ∈ x :: xs /\ (forall b, b ∈ x :: xs -> b <= foldl Rmax x xs).
Proof.
  induction xs as [|y xs IH]; intros x; simpl.
  - split; [left|]. intros b Hb. apply list_elem_of_singleton in Hb. lra.
  - destruct (IH (Rmax x y)) as (Hin & Hle). split.
    + apply elem_of_cons in Hin as [Hin|Hin]; [|by do 2 right].
      rewrite Hin. unfold Rmax. destruct (Rle_dec x y); [right; left|left].
    + intros b Hb.
      assert (Hm : Rmax x y <= foldl Rmax (Rmax x y) xs) by (apply Hle; left).
      apply elem_of_cons in Hb as [->|Hb].
      * pose proof (Rmax_l x y). lra.
      * apply elem_of_cons in Hb as [->|Hb].
        -- pose proof (Rmax_r x y). lra.
        -- apply Hle. by right.
Qed.

Lemma np_min_spec (a : list R) (mn : R) :
  np.min a = Ok mn -> mn ∈ a /\ (forall b, b ∈ a -> mn <= b).
Proof.
  destruct a as [|x xs]; [discriminate|]. simpl. intros [= <-].
  apply foldl_Rmin_spec.
Qed.

Lemma np_max_spec (a : list R) (mx : R) :
  np.max a = Ok mx -> mx ∈ a /\ (forall b, b ∈ a -> b <= mx).
Proof.
  destruct a as [|x xs]; [discriminate|]. simpl. intros [= <-].
  apply foldl_Rmax_spec.
Qed.

Lemma length_filter_pos {A} (P : A -> Prop) `{!forall x, Decision (P x)}
    (l : list A) (x : A) :
  x ∈ l -> P x -> (1 <= length (filter P l))%nat.
Proof.
  intros Hin HP.
  assert (Hf : x ∈ filter P l) by (apply list_elem_of_filter; auto).
  destruct (filter P l); [by apply elem_of_nil in Hf|simpl; lia].
Qed.

Lemma in_range_spec (rmin rmax x : R) :
  calc_rho_zr.in_range rmin rmax x = true <-> rmin <= x /\ x < rmax.
Proof.
  unfold calc_rho_zr.in_range. rewrite andb_true_iff, !bool_decide_eq_true.
  split; intros [? ?]; split; lra.
Qed.

(** Inside the mask, the bin index names a bracket of the grid. *)
Lemma bin_index_bounds (bins : list R) (rmin rmax x : R) :
  np.min bins = Ok rmin -> np.max bins = Ok rmax ->
  calc_rho_zr.in_range rmin rmax x = true ->
  (1 <= bin_index bins x /\ bin_index bins x < length bins)%nat.
Proof.
  intros Hmin Hmax Hx. apply in_range_spec in Hx as [Hlo Hhi].
  destruct (np_min_spec _ _ Hmin) as (Hmin_in & _).
  destruct (np_max_spec _ _ Hmax) as (Hmax_in & _).
  unfold bin_index, np.digitize1, np.digitize1_decr.
  destruct (np.nondecreasing bins); split.
  - apply (length_filter_pos _ _ rmin); assumption.
  - apply (length_filter_lt _ _ rmax); [assumption|lra].
  - apply (length_filter_pos _ _ rmax); [assumption|lra].
  - apply (length_filter_lt _ _ rmin); [assumption|lra].
Qed.

Lemma digitize_monotone (x bins : list R) :
  monotone bins = true -> np.digitize x bins = Ok (bin_index bins <$> x).
Proof.
  unfold monotone, np.digitize, bin_index. intros H.
  destruct (np.nondecreasing bins); [reflexivity|].
  simpl in H. rewrite H. reflexivity.
Qed.

(** The masked loop of [cdf_inv], for any body that stores [val i] at the
    index [i] of each point that passes the mask. *)
Lemma masked_loop (step : nat * nat -> list R -> result (list R)) (val : nat -> R)
    (P : R -> bool) (idx : R -> nat) (r : list R) :
  (forall i r_i z, r !! i = Some r_i -> P r_i = true -> length z = length r ->
                   step (i, idx r_i) z = Ok (<[ i := val i ]> z)) ->
  forall (rs : list R) (s : nat) (z : list R),
    (forall k x, rs !! k = Some x -> r !! (s + k)%nat = Some x) ->
    length z = length r ->
    exists z' : list R,
      for_result (zip (np.compress (P <$> rs) (seq s (length rs)))
                      (np.compress (P <$> rs) (idx <$> rs))) step z = Ok z' /\
      length z' = length r /\
      (forall i, (i < s)%nat -> z' !! i = z !! i) /\
      (forall k r_k, rs !! k = Some r_k ->
         z' !! (s + k)%nat = if P r_k then Some (val (s + k)%nat) else z !! (s + k)%nat).
Proof.
  intros Hstep. induction rs as [|x rs IH]; intros s z Hrs Hlen.
  - exists z. simpl. repeat split; auto. intros k r_k Hk. discriminate.
  - assert (Hx : r !! s = Some x).
    { rewrite <- (Nat.add_0_r s). by apply Hrs. }
    assert (Hrs' : forall k y, rs !! k = Some y -> r !! (S s + k)%nat = Some y).
    { intros k y Hk. replace (S s + k)%nat with (s + S k)%nat by lia. by apply Hrs. }
    simpl. destruct (P x) eqn:HP.
    + simpl. rewrite (Hstep s x z Hx HP Hlen), mbind_result_Ok.
      destruct (IH (S s) (<[ s := val s ]> z) Hrs') as (z' & Hrun & Hlen' & Hsame & Hrec).
      { by rewrite length_insert. }
      exists z'. split; [exact Hrun|]. split; [exact Hlen'|]. split.
      * intros i Hi. rewrite Hsame by lia. apply list_lookup_insert_ne. lia.
      * intros [|k] r_k Hk; simpl in Hk.
        -- injection Hk as <-. rewrite HP, Nat.add_0_r, Hsame by lia.
           apply list_lookup_insert_eq. apply lookup_lt_Some in Hx. lia.
        -- replace (s + S k)%nat with (S s + k)%nat by lia.
           rewrite (Hrec k r_k Hk). destruct (P r_k); [reflexivity|].
           apply list_lookup_insert_ne. lia.
    + destruct (IH (S s) z Hrs' Hlen) as (z' & Hrun & Hlen' & Hsame & Hrec).
      exists z'. split; [exact Hrun|]. split; [exact Hlen'|]. split.
      * intros i Hi. apply Hsame. lia.
      * intros [|k] r_k Hk; simpl in Hk.
        -- injection Hk as <-. rewrite HP, Nat.add_0_r. apply Hsame. lia.
        -- replace (s + S k)%nat with (S s + k)%nat by lia. apply (Hrec k r_k Hk).
Qed.

Lemma cdf_inv_step_Ok (self : rho_from_array) (m r : list R) (rmin rmax : R)
    (i : nat) (r_i : R) (z : list R) :
  well_formed self ->
  np.min (r_bins self) = Ok rmin -> np.max (r_bins self) = Ok rmax ->
  length m = length r ->
  r !! i = Some r_i -> calc_rho_zr.in_range rmin rmax r_i = true ->
  length z = length r ->
  calc_rho_zr.cdf_inv_step self m r
    (default 0 (r_bins self !! 1%nat) - default 0 (r_bins self !! 0%nat))
    (i, bin_index (r_bins self) r_i) z
  = Ok (<[ i := cdf_inv_entry self m r i ]> z).
Proof.
  intros (Hlen2 & Hmono & Hcdf) Hmin Hmax Hmr Hri Hin Hz.
  destruct (bin_index_bounds _ _ _ _ Hmin Hmax Hin) as [Hj1 Hj2].
  pose proof (lookup_lt_Some _ _ _ Hri) as Hi.
  destruct (lookup_lt_is_Some_2 m i) as [m_i Hmi]; [lia|].
  destruct (lookup_lt_is_Some_2 (_cdf_inv self) (bin_index (r_bins self) r_i - 1))
    as [f_lo Hlo]; [lia|].
  destruct (lookup_lt_is_Some_2 (_cdf_inv self) (bin_index (r_bins self) r_i))
    as [f_hi Hhi]; [lia|].
  destruct (lookup_lt_is_Some_2 (r_bins self) (bin_index (r_bins self) r_i - 1))
    as [r_lo Hrlo]; [lia|].
  unfold calc_rho_zr.cdf_inv_step.
  rewrite (getitem_pred_lookup _ _ _ Hj1 Hlo), mbind_result_Ok.
  rewrite (getitem_lookup _ _ _ Hmi), !mbind_result_Ok.
  rewrite (getitem_lookup _ _ _ Hhi), !mbind_result_Ok.
  rewrite (getitem_lookup _ _ _ Hri), !mbind_result_Ok.
  rewrite (getitem_pred_lookup _ _ _ Hj1 Hrlo), !mbind_result_Ok.
  rewrite setitem_lt by lia.
  unfold cdf_inv_entry. rewrite Hmi, Hri. simpl. rewrite Hlo, Hhi, Hrlo. reflexivity.
Qed.

(** What [cdf_inv] returns, entry by entry. *)
Lemma cdf_inv_entries (self : rho_from_array) (m r : calc_rho_zr.arg)
    (m' r' : list R) :
  well_formed self ->
  calc_rho_zr.match_shapes (calc_rho_zr.as_array m) (calc_rho_zr.as_array r) = Ok (m', r') ->
  length m' = length r' ->
  exists (z_out : list R) (rmin rmax : R),
    calc_rho_zr.cdf_inv self m r = Ok z_out /\
    np.min (r_bins self) = Ok rmin /\ np.max (r_bins self) = Ok rmax /\
    length z_out = length r' /\
    (forall i r_i, r' !! i = Some r_i ->
       z_out !! i = Some (if calc_rho_zr.in_range rmin rmax r_i
                          then cdf_inv_entry self m' r' i else 0)).
Proof.
  intros Hwf Hshape Hlen.
  pose proof Hwf as (Hlen2 & Hmono & Hcdf).
  destruct (lookup_lt_is_Some_2 (r_bins self) 0) as [b0 Hb0]; [lia|].
  destruct (lookup_lt_is_Some_2 (r_bins self) 1) as [b1 Hb1]; [lia|].
  destruct (np.min (r_bins self)) as [rmin|e] eqn:Hmin.
  2:{ destruct (r_bins self); simpl in *; [lia|discriminate]. }
  destruct (np.max (r_bins self)) as [rmax|e] eqn:Hmax.
  2:{ destruct (r_bins self); simpl in *; [lia|discriminate]. }
  destruct (masked_loop
              (calc_rho_zr.cdf_inv_step self m' r'
                 (default 0 (r_bins self !! 1%nat) - default 0 (r_bins self !! 0%nat)))
              (cdf_inv_entry self m' r') (calc_rho_zr.in_range rmin rmax)
              (bin_index (r_bins self)) r'
              (fun i r_i z Hri Hin Hz =>
                 cdf_inv_step_Ok self m' r' rmin rmax i r_i z Hwf Hmin Hmax Hlen Hri Hin Hz)
              r' 0%nat (replicate (length r') 0))
    as (z_out & Hrun & Hzlen & _ & Hrec).
  { intros k x Hk. exact Hk. }
  { apply length_replicate. }
  exists z_out, rmin, rmax. split; [|split; [reflexivity|split; [reflexivity|split]]].
  - unfold calc_rho_zr.cdf_inv. rewrite Hshape, mbind_result_Ok.
    change 1%Z with (Z.of_nat 1). change 0%Z with (Z.of_nat 0).
    rewrite (getitem_lookup _ _ _ Hb1), mbind_result_Ok.
    rewrite (getitem_lookup _ _ _ Hb0), mbind_result_Ok.
    rewrite (digitize_monotone _ _ Hmono), mbind_result_Ok.
    rewrite Hmin, mbind_result_Ok, Hmax, mbind_result_Ok.
    rewrite Hb0, Hb1 in Hrun. exact Hrun.
  - exact Hzlen.
  - intros i r_i Hri. specialize (Hrec i r_i Hri). simpl in Hrec. rewrite Hrec.
    destruct (calc_rho_zr.in_range rmin rmax r_i); [reflexivity|].
    apply lookup_replicate_2. by apply lookup_lt_Some in Hri.
Qed.

Lemma nondecreasing_cons (a : R) (l : list R) :
  np.nondecreasing (a :: l) = true ->
  np.nondecreasing l = true /\ (forall b, b ∈ l -> a <= b).
Proof.
  revert a. induction l as [|y l IH]; intros a H.
  - split; [reflexivity|]. intros b Hb. by apply elem_of_nil in Hb.
  - change (bool_decide (a <= y) && np.nondecreasing (y :: l) = true) in H.
    apply andb_true_iff in H as [Hay Hl]. apply bool_decide_eq_true in Hay.
    split; [exact Hl|]. intros b Hb.
    apply elem_of_cons in Hb as [->|Hb]; [exact Hay|].
    destruct (IH y Hl) as [_ Hle]. specialize (Hle b Hb). lra.
Qed.

(** On an ascending grid the bin index splits the grid at [x]. *)
Lemma digitize1_bracket (bins : list R) (x : R) :
  np.nondecreasing bins = true ->
  (forall k b, (k < np.digitize1 bins x)%nat -> bins !! k = Some b -> b <= x) /\
  (forall k b, (np.digitize1 bins x <= k)%nat -> bins !! k = Some b -> x < b).
Proof.
  unfold np.digitize1. induction bins as [|a l IH]; intros Hsorted.
  - split; intros k b _ Hk; discriminate.
  - destruct (nondecreasing_cons a l Hsorted) as [Hl Hle].
    destruct (IH Hl) as [IHlo IHhi].
    rewrite filter_cons. destruct (decide (a <= x)) as [Hax|Hax]; simpl.
    + split; intros [|k] b Hk Hb; simpl in Hb.
      * injection Hb as <-. exact Hax.
      * apply (IHlo k); [lia|exact Hb].
      * lia.
      * apply (IHhi k); [lia|exact Hb].
    + assert (Hnil : filter (fun b => b <= x) l = []).
      { destruct (filter (fun b => b <= x) l) as [|b t] eqn:Hf; [reflexivity|].
        assert (Hb : b ∈ filter (fun b => b <= x) l) by (rewrite Hf; left).
        apply list_elem_of_filter in Hb as [Hbx Hb]. specialize (Hle b Hb). lra. }
      rewrite Hnil. simpl. split; intros [|k] b Hk Hb; simpl in Hb; try lia.
      * injection Hb as <-. lra.
      * apply list_elem_of_lookup_2 in Hb. specialize (Hle b Hb). lra.
Qed.

Ltac eval_Rminmax :=
  unfold Rmax, Rmin; repeat (destruct (Rle_dec _ _); try lra).

(** C2.  On a well-formed interpolant and arguments of matching shapes,
    [cdf_inv] raises nothing and returns one entry per radius; an entry whose
    radius lies outside [[r_min, r_max)] -- in particular at [r_max] itself --
    is the zero the output was initialised with, an entry whose radius lies
    inside holds the value the loop stored, and so only entries for radii
    inside the interval can differ from zero. *)
Theorem cdf_inv_out_of_range (self : rho_from_array) (m r : calc_rho_zr.arg)
    (m' r' : list R) :
  well_formed self ->
  calc_rho_zr.match_shapes (calc_rho_zr.as_array m) (calc_rho_zr.as_array r) = Ok (m', r') ->
  length m' = length r' ->
  exists (z_out : list R) (rmin rmax : R),
    calc_rho_zr.cdf_inv self m r = Ok z_out /\
    np.min (r_bins self) = Ok rmin /\ np.max (r_bins self) = Ok rmax /\
    length z_out = length r' /\
    (forall i r_i, r' !! i = Some r_i -> ~ (rmin <= r_i /\ r_i < rmax) ->
                   z_out !! i = Some 0) /\
    (forall i, r' !! i = Some rmax -> z_out !! i = Some 0) /\
    (forall i r_i, r' !! i = Some r_i -> rmin <= r_i /\ r_i < rmax ->
                   z_out !! i = Some (cdf_inv_entry self m' r' i)) /\
    (forall i z_i, z_out !! i = Some z_i -> z_i <> 0 ->
                   exists r_i, r' !! i = Some r_i /\ rmin <= r_i /\ r_i < rmax).
Proof.
  intros Hwf Hshape Hlen.
  destruct (cdf_inv_entries self m r m' r' Hwf Hshape Hlen)
    as (z_out & rmin & rmax & Hrun & Hmin & Hmax & Hzlen & Hentry).
  assert (Hout : forall i r_i, r' !! i = Some r_i -> ~ (rmin <= r_i /\ r_i < rmax) ->
                               z_out !! i = Some 0).
  { intros i r_i Hri Hnot. rewrite (Hentry i r_i Hri).
    destruct (calc_rho_zr.in_range rmin rmax r_i) eqn:Hin; [|reflexivity].
    apply in_range_spec in Hin. contradiction. }
  exists z_out, rmin, rmax.
  split; [exact Hrun|]. split; [exact Hmin|]. split; [exact Hmax|].
  split; [exact Hzlen|]. split; [exact Hout|]. split; [|split].
  - intros i Hri. apply (Hout i rmax Hri). lra.
  - intros i r_i Hri Hin. rewrite (Hentry i r_i Hri).
    apply in_range_spec in Hin. by rewrite Hin.
  - intros i z_i Hzi Hne.
    destruct (lookup_lt_is_Some_2 r' i) as [r_i Hri].
    { rewrite <- Hzlen. by apply lookup_lt_Some in Hzi. }
    exists r_i. split; [exact Hri|].
    rewrite (Hentry i r_i Hri) in Hzi.
    destruct (calc_rho_zr.in_range rmin rmax r_i) eqn:Hin.
    + by apply in_range_spec in Hin.
    + injection Hzi as <-. contradiction.
Qed.

Lemma rho_uneven_well_formed : well_formed Examples.rho_uneven.
Proof.
  split; [simpl; lia|]. split; [|reflexivity].
  unfold monotone. simpl. rewrite !bool_decide_eq_true_2 by lra. reflexivity.
Qed.

Lemma cdf_inv_out_of_range_witness :
  exists z_out : list R,
    calc_rho_zr.cdf_inv Examples.rho_uneven
      (calc_rho_zr.array [1 / 2; 1 / 2]) (calc_rho_zr.array [3; 5]) = Ok z_out /\
    z_out !! 0%nat = Some 0 /\ z_out !! 1%nat = Some 0.
Proof.
  destruct (cdf_inv_out_of_range Examples.rho_uneven
              (calc_rho_zr.array [1 / 2; 1 / 2]) (calc_rho_zr.array [3; 5])
              [1 / 2; 1 / 2] [3; 5] rho_uneven_well_formed eq_refl eq_refl)
    as (z_out & rmin & rmax & Hrun & Hmin & Hmax & _ & Hout & _).
  simpl in Hmin, Hmax. injection Hmin as <-. injection Hmax as <-.
  exists z_out. split; [exact Hrun|]. split.
  - apply (Hout 0%nat 3); [reflexivity|]. eval_Rminmax.
  - apply (Hout 1%nat 5); [reflexivity|]. eval_Rminmax.
Defined.

(** C4 (as amended).  For a radius [r_i] inside [[r_min, r_max)] on an
    ascending radial grid, [cdf_inv] finds the bracket [[r_lo, r_hi)] of the
    grid that contains [r_i], evaluates the two samplers of the bracket at
    the cumulative probability [m_i], and returns
    [z_lo + ((z_hi - z_lo) / dr) * (r_i - r_lo)], where [dr] is the spacing
    of the first two grid points.  When the grid is evenly spaced this is
    the linear interpolation in proportion to the position of [r_i] within
    its bracket. *)
Theorem cdf_inv_in_range (self : rho_from_array) (m r : calc_rho_zr.arg)
    (m' r' : list R) (rmin rmax : R) (i : nat) (m_i r_i : R) :
  well_formed self ->
  np.nondecreasing (r_bins self) = true ->
  calc_rho_zr.match_shapes (calc_rho_zr.as_array m) (calc_rho_zr.as_array r) = Ok (m', r') ->
  length m' = length r' ->
  np.min (r_bins self) = Ok rmin -> np.max (r_bins self) = Ok rmax ->
  m' !! i = Some m_i -> r' !! i = Some r_i ->
  rmin <= r_i -> r_i < rmax ->
  exists (z_out : list R) (j : nat) (f_lo f_hi : R -> R) (r_lo r_hi b0 b1 : R),
    calc_rho_zr.cdf_inv self m r = Ok z_out /\
    (1 <= j)%nat /\
    r_bins self !! (j - 1)%nat = Some r_lo /\ r_bins self !! j = Some r_hi /\
    r_lo <= r_i /\ r_i < r_hi /\
    _cdf_inv self !! (j - 1)%nat = Some f_lo /\ _cdf_inv self !! j = Some f_hi /\
    r_bins self !! 0%nat = Some b0 /\ r_bins self !! 1%nat = Some b1 /\
    z_out !! i = Some (f_lo m_i + ((f_hi m_i - f_lo m_i) / (b1 - b0)) * (r_i - r_lo)) /\
    (evenly_spaced (r_bins self) (b1 - b0) ->
     z_out !! i = Some (bracket_interpolation (f_lo m_i) (f_hi m_i) r_lo r_hi r_i)).
Proof.
  intros Hwf Hasc Hshape Hlen Hmin Hmax Hmi Hri Hlo Hhi.
  destruct (cdf_inv_entries self m r m' r' Hwf Hshape Hlen)
    as (z_out & rmin' & rmax' & Hrun & Hmin' & Hmax' & _ & Hentry).
  rewrite Hmin in Hmin'. injection Hmin' as <-.
  rewrite Hmax in Hmax'. injection Hmax' as <-.
  assert (Hin : calc_rho_zr.in_range rmin rmax r_i = true) by (apply in_range_spec; lra).
  destruct (bin_index_bounds _ _ _ _ Hmin Hmax Hin) as [Hj1 Hj2].
  pose proof Hwf as (Hlen2 & _ & Hcdf).
  set (j := bin_index (r_bins self) r_i) in *.
  assert (Hj : j = np.digitize1 (r_bins self) r_i).
  { subst j. unfold bin_index. by rewrite Hasc. }
  destruct (lookup_lt_is_Some_2 (r_bins self) (j - 1)) as [r_lo Hrlo]; [lia|].
  destruct (lookup_lt_is_Some_2 (r_bins self) j) as [r_hi Hrhi]; [lia|].
  destruct (lookup_lt_is_Some_2 (_cdf_inv self) (j - 1)) as [f_lo Hflo]; [lia|].
  destruct (lookup_lt_is_Some_2 (_cdf_inv self) j) as [f_hi Hfhi]; [lia|].
  destruct (lookup_lt_is_Some_2 (r_bins self) 0) as [b0 Hb0]; [lia|].
  destruct (lookup_lt_is_Some_2 (r_bins self) 1) as [b1 Hb1]; [lia|].
  destruct (digitize1_bracket (r_bins self) r_i Hasc) as [Hbelow Habove].
  assert (Hrlo_le : r_lo <= r_i) by (apply (Hbelow (j - 1)%nat); [lia|exact Hrlo]).
  assert (Hrhi_gt : r_i < r_hi) by (apply (Habove j); [lia|exact Hrhi]).
  assert (Hz : z_out !! i
               = Some (f_lo m_i + ((f_hi m_i - f_lo m_i) / (b1 - b0)) * (r_i - r_lo))).
  { rewrite (Hentry i r_i Hri), Hin. unfold cdf_inv_entry.
    rewrite Hmi, Hri. simpl. fold j. rewrite Hflo, Hfhi, Hrlo, Hb0, Hb1. reflexivity. }
  exists z_out, j, f_lo, f_hi, r_lo, r_hi, b0, b1.
  repeat (split; [assumption|]).
  intros Heven. rewrite Hz. f_equal. unfold bracket_interpolation.
  assert (Hdr : r_hi - r_lo = b1 - b0).
  { apply (Heven (j - 1)%nat); [exact Hrlo|].
    replace (j - 1 + 1)%nat with j by lia. exact Hrhi. }
  rewrite Hdr. unfold Rdiv. ring.
Qed.

Lemma cdf_inv_in_range_witness :
  exists z_out : list R,
    calc_rho_zr.cdf_inv Examples.rho_uneven
      (calc_rho_zr.scalar (1 / 2)) (calc_rho_zr.scalar (1 / 2)) = Ok z_out /\
    z_out !! 0%nat = Some 0.
Proof.
  destruct (cdf_inv_in_range Examples.rho_uneven
              (calc_rho_zr.scalar (1 / 2)) (calc_rho_zr.scalar (1 / 2))
              [1 / 2] [1 / 2] (Rmin (Rmin 0 1) 3) (Rmax (Rmax 0 1) 3) 0%nat (1 / 2) (1 / 2)
              rho_uneven_well_formed)
    as (z_out & j & f_lo & f_hi & r_lo & r_hi & b0 & b1 & Hrun & Hj & Hrlo & Hrhi
        & Hlo & Hhi & Hflo & Hfhi & Hb0 & Hb1 & Hz & _);
    try reflexivity.
  - simpl. rewrite !bool_decide_eq_true_2 by lra. reflexivity.
  - eval_Rminmax.
  - eval_Rminmax.
  - exists z_out. split; [exact Hrun|]. rewrite Hz. f_equal.
    assert (j = 1%nat) as ->.
    { destruct j as [|[|[|[|j]]]]; simpl in *; simplify_eq; try lia; try lra. }
    simpl in *. simplify_eq. lra.
Defined.

(** C4 (as stated) fails on a radial grid that is not evenly spaced: on the
    grid [0, 1, 3] with samplers that return 0, 0 and 2, the radius 2 lies
    halfway through its bracket [1, 3), where the proportional rule gives 1,
    but [cdf_inv] returns 2. *)
Lemma cdf_inv_not_proportional_on_uneven_grid :
  calc_rho_zr.cdf_inv Examples.rho_uneven
    (calc_rho_zr.scalar (1 / 2)) (calc_rho_zr.scalar 2) = Ok [2] /\
  r_bins Examples.rho_uneven !! 1%nat = Some 1 /\
  r_bins Examples.rho_uneven !! 2%nat = Some 3 /\
  1 <= 2 < 3 /\
  bracket_interpolation 0 2 1 3 2 = 1 /\
  calc_rho_zr.cdf_inv Examples.rho_uneven
    (calc_rho_zr.scalar (1 / 2)) (calc_rho_zr.scalar 2)
  <> Ok [bracket_interpolation 0 2 1 3 2].
Proof.
  assert (Hbi : bracket_interpolation 0 2 1 3 2 = 1).
  { unfold bracket_interpolation. lra. }
  assert (Hrun : calc_rho_zr.cdf_inv Examples.rho_uneven
                   (calc_rho_zr.scalar (1 / 2)) (calc_rho_zr.scalar 2) = Ok [2]).
  { destruct (cdf_inv_entries Examples.rho_uneven
                (calc_rho_zr.scalar (1 / 2)) (calc_rho_zr.scalar 2) [1 / 2] [2]
                rho_uneven_well_formed eq_refl eq_refl)
      as (z_out & rmin & rmax & Hrun & Hmin & Hmax & Hlen & Hentry).
    rewrite Hrun. f_equal.
    simpl in Hmin, Hmax. injection Hmin as <-. injection Hmax as <-.
    specialize (Hentry 0%nat 2 eq_refl).
    assert (Hin : calc_rho_zr.in_range (Rmin (Rmin 0 1) 3) (Rmax (Rmax 0 1) 3) 2 = true).
    { apply in_range_spec. eval_Rminmax. }
    rewrite Hin in Hentry.
    assert (Hj : bin_index (r_bins Examples.rho_uneven) 2 = 2%nat).
    { unfold bin_index, np.digitize1. simpl r_bins.
      replace (np.nondecreasing [0; 1; 3]) with true
        by (simpl; rewrite !bool_decide_eq_true_2 by lra; reflexivity).
      rewrite !filter_cons.
      rewrite (decide_True (P := 0 <= 2)) by lra.
      rewrite (decide_True (P := 1 <= 2)) by lra.
      rewrite (decide_False (P := 3 <= 2)) by lra. reflexivity. }
    unfold cdf_inv_entry in Hentry. simpl in Hentry, Hj. rewrite Hj in Hentry.
    simpl in Hentry.
    destruct z_out as [|z0 [|z1 z_out]]; simpl in Hlen; try lia.
    simpl in Hentry. injection Hentry as ->. f_equal. field. }
  split; [exact Hrun|]. split; [reflexivity|]. split; [reflexivity|].
  split; [lra|]. split; [exact Hbi|].
  rewrite Hrun, Hbi. intros [= H]. lra.
Qed.

(** ** Evaluating the interpolant *)

(** The evaluation is the spline's value at the point asked for; it tests
    no domain. *)
Lemma rho_scalar (self : rho_from_array) (z r : R) :
  calc_rho_zr.rho self (calc_rho_zr.scalar z) (calc_rho_zr.scalar r)
  = Ok (arr2 (np.mk2 1 1 [[_rho_spline self z r]])).
Proof. reflexivity. Qed.

Lemma rho_array_1 (self : rho_from_array) (z r : R) :
  calc_rho_zr.rho self (calc_rho_zr.array [z]) (calc_rho_zr.array [r])
  = Ok (arr1 [_rho_spline self z r]).
Proof. reflexivity. Qed.

Lemma init_ones_table :
  exists drho : R -> R -> R,
    calc_rho_zr.__init__ Examples.uniform_cdfinv Examples.flat_spline
      Examples.ones_table Examples.z_grid4 Examples.r_grid4
    = Ok {| _rho_spline := fun _ _ => 1;
            rho_binned := Examples.ones_table;
            r_bins := Examples.r_grid4;
            z_bins := Examples.z_grid4;
            _cdf_inv := replicate 4 (fun m => 3 * m);
            _drho_dr := drho |}.
Proof.
  unfold calc_rho_zr.__init__.
  assert (Hspline : Examples.flat_spline Examples.z_grid4 Examples.r_grid4 Examples.ones_table
                    = Ok (fun _ _ => 1)).
  { unfold Examples.flat_spline. simpl.
    rewrite bool_decide_eq_true_2; [reflexivity|].
    repeat constructor. }
  rewrite Hspline, mbind_result_Ok.
  assert (Hcdf : calc_rho_zr._cdf_inv_gen Examples.uniform_cdfinv Examples.ones_table
                   Examples.z_grid4 Examples.r_grid4
                 = Ok (replicate 4 (fun m => 3 * m))).
  { reflexivity. }
  rewrite Hcdf, mbind_result_Ok.
  unfold calc_rho_zr._radial_derivative. simpl.
  unfold Examples.flat_spline. simpl.
  rewrite bool_decide_eq_true_2.
  - eexists. reflexivity.
  - unfold np.gradient_row. simpl. repeat constructor; lra.
Qed.

(** C3 fails on the code.  The interpolant built from a table of ones on
    the grids z = [0, 1, 2, 3], r = [1, 2, 3, 4] evaluates to 1, not 0, at the
    point (z, r) = (0, 10), which lies outside the radial range of the
    grid: the evaluation returns whatever the spline returns and never
    tests the domain. *)
Theorem rho_outside_domain_not_zero :
  exists self : rho_from_array,
    calc_rho_zr.__init__ Examples.uniform_cdfinv Examples.flat_spline
      Examples.ones_table Examples.z_grid4 Examples.r_grid4 = Ok self /\
    np.min (r_bins self) = Ok 1 /\ np.max (r_bins self) = Ok 4 /\ 4 < 10 /\
    calc_rho_zr.rho self (calc_rho_zr.scalar 0) (calc_rho_zr.scalar 10)
      = Ok (arr2 (np.mk2 1 1 [[1]])) /\
    calc_rho_zr.rho self (calc_rho_zr.array [0]) (calc_rho_zr.array [10])
      = Ok (arr1 [1]) /\
    1 <> 0.
Proof.
  destruct init_ones_table as (drho & Hinit).
  eexists. split; [exact Hinit|]. simpl.
  split; [f_equal; eval_Rminmax|]. split; [f_equal; eval_Rminmax|].
  split; [lra|]. split; [reflexivity|]. split; [reflexivity|]. lra.
Qed.

(** ** Building the density table *)

Lemma for_M_cons {A S} (x : A) (xs : list A) (body : A -> S -> M S) (s : S) (w : World) :
  for_M (x :: xs) body s w =
    match body x s w with
    | (Ok s', w') => for_M xs body s' w'
    | (Raise e, w') => (Raise e, w')
    end.
Proof. reflexivity. Qed.

Lemma rho_z_calls_app (t1 t2 : list event) :
  rho_z_calls (t1 ++ t2) = rho_z_calls t1 ++ rho_z_calls t2.
Proof. unfold rho_z_calls. apply omap_app. Qed.

(** Writing one entry per row at column [k]. *)
Lemma insert_column_length (k : nat) (rows : list (list R)) :
  forall v : list R, length v = length rows ->
    length (zip_with (fun row x => <[ k := x ]> row) rows v) = length rows.
Proof. intros v Hv. rewrite length_zip_with. lia. Qed.

Lemma insert_column_rows (k c : nat) (rows : list (list R)) :
  Forall (fun row => length row = c) rows ->
  forall v : list R,
    Forall (fun row => length row = c) (zip_with (fun row x => <[ k := x ]> row) rows v).
Proof.
  induction 1 as [|row rows Hrow Hrows IH]; intros [|x v]; simpl; constructor.
  - rewrite length_insert. exact Hrow.
  - apply IH.
Qed.

Lemma insert_column_read (k c : nat) (rows : list (list R)) :
  (k < c)%nat -> Forall (fun row => length row = c) rows ->
  forall v : list R, length v = length rows ->
    (fun row => default 0 (row !! k)) <$> zip_with (fun row x => <[ k := x ]> row) rows v = v.
Proof.
  intros Hk. induction 1 as [|row rows Hrow Hrows IH]; intros [|x v] Hv;
    simpl in *; try lia; try reflexivity.
  rewrite list_lookup_insert_eq by lia. simpl. f_equal. apply IH. lia.
Qed.

Lemma insert_column_other (k n : nat) (rows : list (list R)) :
  n <> k ->
  forall v : list R, length v = length rows ->
    (fun row => default 0 (row !! n)) <$> zip_with (fun row x => <[ k := x ]> row) rows v
    = (fun row => default 0 (row !! n)) <$> rows.
Proof.
  intros Hn. induction rows as [|row rows IH]; intros [|x v] Hv;
    simpl in *; try lia; try reflexivity.
  rewrite list_lookup_insert_ne by lia. f_equal. apply IH. lia.
Qed.

Lemma set_column_spec (nz nr : nat) (A : np.ndarray2) (k : nat) (v : list R) :
  rectangular nz nr A -> (k < nr)%nat -> length v = nz ->
  exists A' : np.ndarray2,
    np.set_column A k v = Ok A' /\ rectangular nz nr A' /\
    np.column A' k = Ok v /\
    (forall n, n <> k -> np.column A' n = np.column A n).
Proof.
  intros (Hrows & Hcols & Hdata & Hall) Hk Hv.
  unfold np.set_column.
  rewrite decide_False by lia. rewrite decide_True by lia.
  eexists. split; [reflexivity|]. split; [|split].
  - split; [exact Hrows|]. split; [exact Hcols|]. simpl. split.
    + rewrite insert_column_length; lia.
    + by apply insert_column_rows.
  - unfold np.column. simpl. rewrite decide_False by lia. f_equal.
    apply (insert_column_read k nr); [assumption..|lia].
  - intros n Hn. unfold np.column. simpl. destruct (decide (np.ncols A <= n)%nat);
      [reflexivity|]. f_equal. apply insert_column_other; [assumption|lia].
Qed.

Section density_field_builder.

Variable rho_z : IC -> list R -> result (list R * list R).

Lemma rho_zr_body_run (r : list R) (nr : Z) (n : nat) (A A' : np.ndarray2)
    (last : option (list R * list R)) (w : World) (x : R) (vec zg : list R) :
  r !! n = Some x ->
  rho_z (ICobj w) [x] = Ok (vec, zg) ->
  np.set_column A n vec = Ok A' ->
  exists w' : World,
    calc_rho_zr.rho_zr_body rho_z r nr n (A, last) w = (Ok (A', Some (vec, zg)), w') /\
    ICobj w' = ICobj w /\ files w' = files w /\
    rho_z_calls (trace w') = rho_z_calls (trace w) ++ [[x]].
Proof.
  intros Hx Hsolve Hset. eexists. split.
  - unfold calc_rho_zr.rho_zr_body. unfold_M. simpl.
    rewrite (getitem_lookup _ _ _ Hx). simpl. rewrite Hsolve. simpl.
    rewrite Hset. reflexivity.
  - simpl. split; [reflexivity|]. split; [reflexivity|].
    rewrite !rho_z_calls_app. simpl. rewrite !app_nil_r. reflexivity.
Qed.

Lemma rho_zr_loop (ic : IC) (r : list R) (nrZ : Z) (nz nr : nat) :
  (forall x, x ∈ r -> exists vec zg, rho_z ic [x] = Ok (vec, zg) /\ length vec = nz) ->
  (length r <= nr)%nat ->
  forall (cnt s : nat) (A : np.ndarray2) (last : option (list R * list R)) (w : World),
    (s + cnt <= length r)%nat -> rectangular nz nr A -> ICobj w = ic ->
    exists (A' : np.ndarray2) (last' : option (list R * list R)) (w' : World),
      for_M (seq s cnt) (calc_rho_zr.rho_zr_body rho_z r nrZ) (A, last) w
        = (Ok (A', last'), w') /\
      rectangular nz nr A' /\ ICobj w' = ic /\ files w' = files w /\
      rho_z_calls (trace w')
        = rho_z_calls (trace w) ++ ((fun x => [x]) <$> take cnt (drop s r)) /\
      (forall n x, (s <= n < s + cnt)%nat -> r !! n = Some x ->
         exists vec zg, rho_z ic [x] = Ok (vec, zg) /\ np.column A' n = Ok vec) /\
      (forall n, (n < s)%nat -> np.column A' n = np.column A n) /\
      (cnt = 0%nat -> last' = last) /\
      ((0 < cnt)%nat ->
         exists x vec zg, r !! (s + cnt - 1)%nat = Some x /\
                          rho_z ic [x] = Ok (vec, zg) /\ last' = Some (vec, zg)).
Proof.
  intros Hsolver Hnr. induction cnt as [|cnt IH]; intros s A last w Hs HA Hic.
  - exists A, last, w. simpl. rewrite app_nil_r.
    split; [reflexivity|]. split; [exact HA|]. split; [exact Hic|].
    split; [reflexivity|]. split; [reflexivity|].
    split; [intros; lia|]. split; [reflexivity|]. split; [reflexivity|intros; lia].
  - destruct (lookup_lt_is_Some_2 r s) as [x Hx]; [lia|].
    destruct (Hsolver x) as (vec & zg & Hsolve & Hvec).
    { eapply list_elem_of_lookup_2. exact Hx. }
    destruct (set_column_spec nz nr A s vec HA) as (A1 & Hset & HA1 & Hcol & Hother);
      [lia|exact Hvec|].
    rewrite <- Hic in Hsolve.
    destruct (rho_zr_body_run r nrZ s A A1 last w x vec zg Hx Hsolve Hset)
      as (w1 & Hbody & Hic1 & Hfiles1 & Hcalls1).
    rewrite Hic in Hsolve.
    destruct (IH (S s) A1 (Some (vec, zg)) w1) as
      (A' & last' & w' & Hrun & HA' & Hic' & Hfiles' & Hcalls' & Hcols & Hkeep & _ & Hlast);
      [lia|exact HA1|congruence|].
    exists A', (if decide (cnt = 0)%nat then Some (vec, zg) else last'), w'.
    split; [|split; [exact HA'|split; [exact Hic'|split; [congruence|split; [|split; [|split; [|split]]]]]]].
    + change (seq s (S cnt)) with (s :: seq (S s) cnt).
      rewrite for_M_cons, Hbody, Hrun.
      destruct (decide (cnt = 0)%nat) as [->|Hne]; [|reflexivity].
      simpl in Hrun. injection Hrun as <- <- <-. reflexivity.
    + rewrite Hcalls', Hcalls1, (drop_S r x s Hx). simpl.
      rewrite <- app_assoc. reflexivity.
    + intros n y Hn Hy. destruct (decide (n = s)) as [->|Hne].
      * rewrite Hx in Hy. injection Hy as <-. exists vec, zg.
        split; [exact Hsolve|]. rewrite Hkeep by lia. exact Hcol.
      * apply (Hcols n y); [lia|exact Hy].
    + intros n Hn. rewrite Hkeep by lia. apply Hother. lia.
    + intros H. lia.
    + intros _. destruct (decide (cnt = 0)%nat) as [->|Hne].
      * exists x, vec, zg. replace (s + 1 - 1)%nat with s by lia. auto.
      * destruct Hlast as (y & vec' & zg' & Hy & Hsolve' & ->); [lia|].
        exists y, vec', zg'. replace (s + S cnt - 1)%nat with (S s + cnt - 1)%nat by lia.
        auto.
Qed.

End density_field_builder.

Lemma linspace_spec (start stop : R) (n : nat) :
  exists r : list R,
    np.linspace start stop (Z.of_nat n) = Ok r /\ length r = n /\
    ((1 <= n)%nat -> r !! 0%nat = Some start) /\
    ((2 <= n)%nat -> r !! (n - 1)%nat = Some stop) /\
    ((2 <= n)%nat -> forall k : nat, (k < n)%nat ->
       r !! k = Some (start + IZR (Z.of_nat k) * ((stop - start) / IZR (Z.of_nat n - 1)))).
Proof.
  unfold np.linspace.
  destruct (Z.ltb_spec (Z.of_nat n) 0) as [?|_]; [lia|].
  rewrite Nat2Z.id.
  destruct n as [|[|n]].
  - exists []. repeat split; intros; simpl in *; lia.
  - exists [start]. repeat split; intros; simpl in *; try lia.
  - set (N := S (S n)).
    set (step := (stop - start) / IZR (Z.of_nat N - 1)).
    set (y := (fun k : nat => IZR (Z.of_nat k) * step + start) <$> seq 0 N).
    assert (Hylen : length y = N).
    { unfold y. by rewrite length_fmap, length_seq. }
    assert (Hd : 0 < IZR (Z.of_nat N - 1)).
    { apply IZR_lt. unfold N. lia. }
    assert (Hy : forall k, (k < N)%nat -> y !! k = Some (IZR (Z.of_nat k) * step + start)).
    { intros k Hk. unfold y. rewrite list_lookup_fmap, lookup_seq_lt by lia. reflexivity. }
    assert (Hall : forall k, (k < N)%nat ->
              <[ (N - 1)%nat := stop ]> y !! k = Some (start + IZR (Z.of_nat k) * step)).
    { intros k Hk. destruct (decide (k = N - 1)%nat) as [->|Hne].
      - rewrite list_lookup_insert_eq by lia. f_equal. unfold step.
        replace (Z.of_nat (N - 1)) with (Z.of_nat N - 1)%Z by lia. field. lra.
      - rewrite list_lookup_insert_ne by lia. rewrite Hy by lia. f_equal. ring. }
    exists (<[ (N - 1)%nat := stop ]> y).
    split; [reflexivity|]. split; [by rewrite length_insert|].
    split; [|split].
    + intros _. rewrite Hall by (unfold N; lia). f_equal. simpl. ring.
    + intros _. apply list_lookup_insert_eq. lia.
    + intros _. exact Hall.
Qed.

Lemma zeros2_rectangular (nz nr : nat) :
  exists A : np.ndarray2,
    np.zeros2 (Z.of_nat nz) (Z.of_nat nr) = Ok A /\ rectangular nz nr A.
Proof.
  unfold np.zeros2.
  destruct (Z.ltb_spec (Z.of_nat nz) 0) as [?|_]; [lia|].
  destruct (Z.ltb_spec (Z.of_nat nr) 0) as [?|_]; [lia|].
  rewrite !Nat2Z.id. eexists. split; [reflexivity|].
  repeat split; simpl.
  - apply length_replicate.
  - apply Forall_replicate. apply length_replicate.
Qed.

(** C7.  With [nr >= 1] and a solver that answers every radial grid point
    with a density vector of [nz] entries, [rho_zr] returns a table, a
    vertical grid and the radial grid [r = linspace(rmin, rmax, nr)], where
    [rmin] and [rmax] are the minimum and maximum of the surface-density
    profile's radial grid: [nr] points starting at [rmin], evenly spaced and
    ending at [rmax] once there are two of them.  The solver is called
    exactly once per grid point, in the order of the grid; the table has [nz]
    rows and [nr] columns, column [n] being the solver's vector at [r[n]];
    the one vertical grid returned is the solver's grid, the same for every
    radius whenever the solver's grid does not depend on the radius.  The
    initial-conditions object and the files are untouched. *)
Theorem rho_zr_builds_table (rho_z : IC -> list R -> result (list R * list R))
    (w : World) (sigma : sigma_profile) (rmin rmax : R) (nr nz : nat) (r : list R) :
  let s := IC_settings (ICobj w) in
  IC_sigma (ICobj w) = Some sigma ->
  np.min (sigma_r_bins sigma) = Ok rmin ->
  np.max (sigma_r_bins sigma) = Ok rmax ->
  ICgen_settings.nr (ICgen_settings.s_rho_calc s) = Z.of_nat nr ->
  ICgen_settings.nz (ICgen_settings.s_rho_calc s) = Z.of_nat nz ->
  (1 <= nr)%nat ->
  np.linspace rmin rmax (Z.of_nat nr) = Ok r ->
  (forall x, x ∈ r -> exists vec zg, rho_z (ICobj w) [x] = Ok (vec, zg) /\ length vec = nz) ->
  exists (rho : np.ndarray2) (z : list R) (w' : World),
    calc_rho_zr.rho_zr rho_z w = (Ok (rho, z, r), w') /\
    length r = nr /\
    r !! 0%nat = Some rmin /\
    ((2 <= nr)%nat -> r !! (nr - 1)%nat = Some rmax) /\
    ((2 <= nr)%nat -> forall k : nat, (k < nr)%nat ->
       r !! k = Some (rmin + IZR (Z.of_nat k) * ((rmax - rmin) / IZR (Z.of_nat nr - 1)))) /\
    rho_z_calls (trace w') = rho_z_calls (trace w) ++ ((fun x => [x]) <$> r) /\
    rectangular nz nr rho /\
    (forall n x, r !! n = Some x ->
       exists vec zg, rho_z (ICobj w) [x] = Ok (vec, zg) /\ np.column rho n = Ok vec) /\
    (exists x vec, r !! (nr - 1)%nat = Some x /\ rho_z (ICobj w) [x] = Ok (vec, z)) /\
    (forall zg0 : list R,
       (forall x vec zg, x ∈ r -> rho_z (ICobj w) [x] = Ok (vec, zg) -> zg = zg0) ->
       z = zg0) /\
    ICobj w' = ICobj w /\ files w' = files w.
Proof.
  intros s Hsigma Hmin Hmax Hnr Hnz Hpos Hlin Hsolver.
  destruct (linspace_spec rmin rmax nr) as (r0 & Hlin0 & Hlen & Hfirst & Hlast & Heven).
  rewrite Hlin in Hlin0. injection Hlin0 as <-.
  destruct (zeros2_rectangular nz nr) as (A0 & Hzeros & HA0).
  destruct (rho_zr_loop rho_z (ICobj w) r (Z.of_nat nr) nz nr Hsolver ltac:(lia)
              nr 0%nat A0 None w ltac:(lia) HA0 eq_refl)
    as (rho & last & w' & Hrun & Hrect & Hic & Hfiles & Hcalls & Hcols & _ & _ & Hlastv).
  destruct Hlastv as (x & vec & z & Hx & Hsolve & ->); [lia|].
  simpl in Hx. rewrite drop_0, take_ge in Hcalls by lia.
  exists rho, z, w'.
  split; [|split; [exact Hlen|split; [apply Hfirst; lia|split; [exact Hlast|split;
    [exact Heven|split; [exact Hcalls|split; [exact Hrect|split; [|split; [|split;
    [|split; [exact Hic|exact Hfiles]]]]]]]]]]].
  - unfold calc_rho_zr.rho_zr. unfold_M. simpl. fold s.
    rewrite Hsigma. simpl. rewrite Hmin, Hmax, Hnr, Hnz, Hlin, Hzeros, Nat2Z.id.
    rewrite Hrun. reflexivity.
  - intros n y Hy. apply (Hcols n y); [|exact Hy].
    apply lookup_lt_Some in Hy. lia.
  - exists x, vec. split; assumption.
  - intros zg0 Hsame. apply (Hsame x vec z); [|exact Hsolve].
    eapply list_elem_of_lookup_2. exact Hx.
Qed.

Lemma rho_zr_builds_table_witness :
  exists (rho : np.ndarray2) (z r : list R) (w' : World),
    calc_rho_zr.rho_zr Examples.solver_inverse_r Examples.world_small = (Ok (rho, z, r), w') /\
    length r = 3%nat /\ z = [0; 1] /\
    length (rho_z_calls (trace w')) = 3%nat /\
    np.nrows rho = 2%nat /\ np.ncols rho = 3%nat.
Proof.
  destruct (linspace_spec (Rmin 1 2) (Rmax 1 2) 3) as (r & Hlin & _).
  destruct (rho_zr_builds_table Examples.solver_inverse_r Examples.world_small
              Examples.sigma_lin (Rmin 1 2) (Rmax 1 2) 3 2 r
              eq_refl eq_refl eq_refl eq_refl eq_refl)
    as (rho & z & w' & Hrun & Hlen & _ & _ & _ & Hcalls & Hrect & _ & _ & Hz & _).
  - lia.
  - exact Hlin.
  - intros x _. eexists. eexists. split; reflexivity.
  - exists rho, z, r, w'. split; [exact Hrun|]. split; [exact Hlen|]. split.
    + apply Hz. intros x vec zg _ Hsolve. unfold Examples.solver_inverse_r in Hsolve.
      by injection Hsolve as _ <-.
    + split; [|split; [apply Hrect|apply Hrect]].
      rewrite Hcalls. simpl. rewrite length_fmap. exact Hlen.
Defined.

(** * Further properties of the code *)

(** ** Saving and loading the settings *)


(** X2.  Round trip: after [save] to a file, [load] of that file -- into
    any settings object, or through the constructor -- gives exactly the
    object as [save] left it: the five groups of settings as saved and the
    file name recorded. *)
Theorem settings_save_load_round_trip (self self' other : ICgen_settings.settings)
    (f : string) (e e' : ICgen_settings.env) :
  ICgen_settings.save self (Some f) e = (inr self', e') ->
  ICgen_settings.load other f e' = (inr self', e') /\
  ICgen_settings.__init__ (Some f) e' = (inr self', e') /\
  ICgen_settings.s_filenames self' = ICgen_settings.s_filenames self /\
  ICgen_settings.s_rho_calc self' = ICgen_settings.s_rho_calc self /\
  ICgen_settings.s_pos_gen self' = ICgen_settings.s_pos_gen self /\
  ICgen_settings.s_snapshot self' = ICgen_settings.s_snapshot self /\
  ICgen_settings.s_physical self' = ICgen_settings.s_physical self /\
  ICgen_settings.settings_filename self' = Some f.
Proof.
  unfold ICgen_settings.save. intros [= <- <-].
  unfold ICgen_settings.__init__, ICgen_settings.load. simpl.
  rewrite lookup_insert_eq. repeat split.
Qed.

Lemma settings_save_load_round_trip_witness :
  exists (s : ICgen_settings.settings) (e : ICgen_settings.env),
    ICgen_settings.save ICgen_settings.defaults (Some "IC_settings.p")
      (ICgen_settings.mk_env ∅ []) = (inr s, e) /\
    ICgen_settings.__init__ (Some "IC_settings.p") e = (inr s, e) /\
    ICgen_settings.s_pos_gen s = ICgen_settings.s_pos_gen ICgen_settings.defaults.
Proof.
  eexists. eexists. split; [reflexivity|].
  destruct (settings_save_load_round_trip ICgen_settings.defaults _ ICgen_settings.defaults
              "IC_settings.p" (ICgen_settings.mk_env ∅ []) _ eq_refl)
    as (_ & Hinit & _ & _ & Hpos & _).
  split; [exact Hinit|exact Hpos].
Defined.

(** X3.  A save to a named file followed by a save without a name writes
    the same file again: the second save succeeds, leaves the object as it
    is, and the file then holds the object with its file name recorded. *)
Theorem settings_save_again (self self1 : ICgen_settings.settings) (f : string)
    (e e1 : ICgen_settings.env) :
  ICgen_settings.save self (Some f) e = (inr self1, e1) ->
  exists e2 : ICgen_settings.env,
    ICgen_settings.save self1 None e1 = (inr self1, e2) /\
    ICgen_settings.pickles e2 !! f = Some self1 /\
    (forall g : string, g <> f ->
       ICgen_settings.pickles e2 !! g = ICgen_settings.pickles e !! g) /\
    ICgen_settings.load self f e2 = (inr self1, e2).
Proof.
  unfold ICgen_settings.save. intros [= <- <-]. simpl.
  eexists. split; [reflexivity|]. simpl.
  split; [apply lookup_insert_eq|]. split.
  - intros g Hg. by rewrite !lookup_insert_ne.
  - unfold ICgen_settings.load. simpl. rewrite lookup_insert_eq. reflexivity.
Qed.

Lemma settings_save_again_witness :
  exists (s : ICgen_settings.settings) (e2 : ICgen_settings.env),
    ICgen_settings.save
      (ICgen_settings.set_settings_filename "IC_settings.p" ICgen_settings.defaults)
      None (ICgen_settings.mk_env
              {[ "IC_settings.p" := ICgen_settings.defaults ]}
              ["Settings saved to IC_settings.p"]) = (inr s, e2) /\
    ICgen_settings.pickles e2 !! "IC_settings.p" = Some s.
Proof.
  destruct (settings_save_again ICgen_settings.defaults
              (ICgen_settings.set_settings_filename "IC_settings.p" ICgen_settings.defaults)
              "IC_settings.p" (ICgen_settings.mk_env ∅ [])
              (ICgen_settings.mk_env {[ "IC_settings.p" := ICgen_settings.defaults ]}
                 ["Settings saved to IC_settings.p"]))
    as (e2 & Hsave & Hfile & _).
  - unfold ICgen_settings.save. simpl. rewrite insert_empty. reflexivity.
  - eexists. exists e2. split; [exact Hsave|exact Hfile].
Defined.

(** ** Evaluating the interpolant and its radial derivative on arrays *)


Lemma fill_loop_overflow (vals : list R) :
  forall (s : nat) (out : list R),
    (s <= length out < s + length vals)%nat ->
    for_result (zip (seq s (length vals)) vals)
      (fun iv o => np.setitem o iv.1 iv.2) out
    = Raise IndexError.
Proof.
  induction vals as [|v vals IH]; intros s out Hlen; simpl in *; [lia|].
  destruct (decide (s < length out)%nat) as [Hs|Hs].
  - rewrite setitem_lt by lia. rewrite mbind_result_Ok.
    apply IH. rewrite length_insert. lia.
  - unfold np.setitem. rewrite decide_False by lia. reflexivity.
Qed.





(** X5.  Shape errors of [rho]: a one-element [z] against a longer [r]
    raises [IndexError] (the output has the shape of [z], the iteration that
    of [r]); arrays of different lengths, neither of length one, raise
    [ValueError]. *)
Theorem rho_shape_errors (self : rho_from_array) (zs rs : list R) :
  (length zs = 1%nat -> (2 <= length rs)%nat ->
   calc_rho_zr.rho self (calc_rho_zr.array zs) (calc_rho_zr.array rs) = Raise IndexError) /\
  (length zs <> length rs -> length zs <> 1%nat -> length rs <> 1%nat ->
   calc_rho_zr.rho self (calc_rho_zr.array zs) (calc_rho_zr.array rs) = Raise ValueError).
Proof.
  split.
  - intros Hz Hr. destruct zs as [|z [|z' zs]]; simpl in Hz; try lia.
    unfold calc_rho_zr.rho. simpl. unfold np.broadcast2.
    rewrite decide_False by (simpl; lia). rewrite mbind_result_Ok.
    rewrite fill_loop_overflow; [reflexivity|].
    rewrite length_fmap. simpl. lia.
  - intros Hne Hz Hr. unfold calc_rho_zr.rho. simpl. unfold np.broadcast2.
    rewrite decide_False by exact Hne.
    destruct zs as [|z [|z' zs]], rs as [|r [|r' rs]]; simpl in *; try lia; reflexivity.
Qed.

Lemma rho_shape_errors_witness :
  calc_rho_zr.rho Examples.rho_uneven (calc_rho_zr.array [0]) (calc_rho_zr.array [1; 2])
    = Raise IndexError /\
  calc_rho_zr.rho Examples.rho_uneven (calc_rho_zr.array [0; 1; 2]) (calc_rho_zr.array [1; 2])
    = Raise ValueError.
Proof.
  split.
  - apply (proj1 (rho_shape_errors Examples.rho_uneven [0] [1; 2])); simpl; lia.
  - apply (proj2 (rho_shape_errors Examples.rho_uneven [0; 1; 2] [1; 2])); simpl; lia.
Defined.

(** ** What a constructed interpolant satisfies *)

Lemma getitem_Ok_lt {A} (a : list A) (n : nat) (x : A) :
  np.getitem a (Z.of_nat n) = Ok x -> (n < length a)%nat /\ a !! n = Some x.
Proof.
  unfold np.getitem.
  destruct (Z.ltb_spec (Z.of_nat n) 0) as [?|_]; [lia|].
  destruct (Z.ltb_spec (Z.of_nat n) 0) as [?|_]; [lia|].
  destruct (Z.leb_spec (Z.of_nat (length a)) (Z.of_nat n)) as [?|Hlt]; [discriminate|].
  simpl. rewrite Nat2Z.id. destruct (a !! n) as [y|] eqn:Hy; [|discriminate].
  intros [= <-]. split; [lia|reflexivity].
Qed.

Lemma cdf_inv_gen_loop (cdfinv_z : list R -> list R -> result (R -> R))
    (rho : np.ndarray2) (z : list R) (cnt : nat) :
  forall (s : nat) (acc fs : list (R -> R)),
    for_result (seq s cnt)
      (fun n cdf_inv =>
         col ← np.column rho n;
         f ← cdfinv_z z col;
         mret (cdf_inv ++ [f])) acc = Ok fs ->
    length fs = (length acc + cnt)%nat /\
    (forall k, (k < cnt)%nat ->
       exists col f, np.column rho (s + k) = Ok col /\ cdfinv_z z col = Ok f /\
                     fs !! (length acc + k)%nat = Some f) /\
    (forall i, (i < length acc)%nat -> fs !! i = acc !! i).
Proof.
  induction cnt as [|cnt IH]; intros s acc fs Hrun.
  - simpl in Hrun. injection Hrun as <-.
    split; [lia|]. split; [intros; lia|reflexivity].
  - change (seq s (S cnt)) with (s :: seq (S s) cnt) in Hrun.
    rewrite for_result_cons in Hrun.
    destruct (np.column rho s) as [col|e] eqn:Hcol; [|discriminate].
    rewrite mbind_result_Ok in Hrun.
    destruct (cdfinv_z z col) as [f|e] eqn:Hf; [|discriminate].
    rewrite !mbind_result_Ok in Hrun.
    destruct (IH (S s) (acc ++ [f]) fs Hrun) as (Hlen & Hrec & Hkeep).
    rewrite length_app in Hlen, Hrec, Hkeep. simpl in Hlen, Hrec, Hkeep.
    split; [lia|]. split.
    + intros [|k] Hk.
      * exists col, f. rewrite !Nat.add_0_r. split; [exact Hcol|]. split; [exact Hf|].
        rewrite Hkeep by lia. apply list_lookup_middle. reflexivity.
      * destruct (Hrec k) as (col' & f' & Hcol' & Hf' & Hfs); [lia|].
        exists col', f'. replace (s + S k)%nat with (S s + k)%nat by lia.
        split; [exact Hcol'|]. split; [exact Hf'|].
        replace (length acc + S k)%nat with (length acc + 1 + k)%nat by lia. exact Hfs.
    + intros i Hi. rewrite Hkeep by lia. apply lookup_app_l. exact Hi.
Qed.

(** X6.  Whenever the constructor of the interpolant returns, the object
    stores the table and the two grids it was given and the spline of the
    table; both grids have at least two points and the table at least two
    rows and two columns; and there is exactly one vertical sampler per
    radial grid point, the one built from the grid [z] and column [n] of the
    table.  With a monotone radial grid these are the invariants [cdf_inv]
    relies on. *)
Theorem rho_from_array_init_invariants
    (cdfinv_z : list R -> list R -> result (R -> R))
    (RectBivariateSpline : list R -> list R -> np.ndarray2 -> result (R -> R -> R))
    (rho : np.ndarray2) (z r : list R) (self : rho_from_array) :
  calc_rho_zr.__init__ cdfinv_z RectBivariateSpline rho z r = Ok self ->
  rho_binned self = rho /\ r_bins self = r /\ z_bins self = z /\
  RectBivariateSpline z r rho = Ok (_rho_spline self) /\
  (2 <= length r)%nat /\ (2 <= length z)%nat /\
  (2 <= np.nrows rho)%nat /\ (2 <= np.ncols rho)%nat /\
  length (_cdf_inv self) = length r /\
  (forall n, (n < length r)%nat ->
     exists col f, np.column rho n = Ok col /\ cdfinv_z z col = Ok f /\
                   _cdf_inv self !! n = Some f) /\
  (monotone r = true -> well_formed self).
Proof.
  unfold calc_rho_zr.__init__. intros Hinit.
  destruct (RectBivariateSpline z r rho) as [spline|e] eqn:Hspline; [|discriminate].
  rewrite mbind_result_Ok in Hinit.
  destruct (calc_rho_zr._cdf_inv_gen cdfinv_z rho z r) as [fs|e] eqn:Hgen; [|discriminate].
  rewrite mbind_result_Ok in Hinit.
  destruct (calc_rho_zr._radial_derivative RectBivariateSpline rho z r) as [drho|e] eqn:Hder;
    [|discriminate].
  injection Hinit as <-. simpl.
  destruct (cdf_inv_gen_loop cdfinv_z rho z (length r) 0 [] fs Hgen) as (Hlen & Hrec & _).
  simpl in Hlen, Hrec.
  unfold calc_rho_zr._radial_derivative in Hder.
  change 1%Z with (Z.of_nat 1) in Hder. change 0%Z with (Z.of_nat 0) in Hder.
  destruct (np.getitem z (Z.of_nat 1)) as [z1|e] eqn:Hz1; [|discriminate].
  rewrite mbind_result_Ok in Hder.
  destruct (np.getitem z (Z.of_nat 0)) as [z0|e] eqn:Hz0; [|discriminate].
  rewrite mbind_result_Ok in Hder.
  destruct (np.getitem r (Z.of_nat 1)) as [r1|e] eqn:Hr1; [|discriminate].
  rewrite mbind_result_Ok in Hder.
  destruct (np.getitem r (Z.of_nat 0)) as [r0|e] eqn:Hr0; [|discriminate].
  rewrite mbind_result_Ok in Hder.
  apply getitem_Ok_lt in Hz1 as [Hz1 _]. apply getitem_Ok_lt in Hr1 as [Hr1 _].
  unfold np.gradient_axis1 in Hder.
  destruct (decide (np.nrows rho < 2 \/ np.ncols rho < 2)%nat) as [?|Hshape];
    [discriminate|].
  repeat (split; [first [reflexivity | lia]|]). split.
  - intros n Hn. destruct (Hrec n Hn) as (col & f & ? & ? & ?). by exists col, f.
  - intros Hmono. split; [simpl; lia|]. split; [exact Hmono|exact Hlen].
Qed.

Lemma rho_from_array_init_invariants_witness :
  exists self : rho_from_array,
    calc_rho_zr.__init__ Examples.uniform_cdfinv Examples.flat_spline
      Examples.ones_table Examples.z_grid4 Examples.r_grid4 = Ok self /\
    length (_cdf_inv self) = 4%nat /\ well_formed self.
Proof.
  destruct init_ones_table as (drho & Hinit).
  destruct (rho_from_array_init_invariants _ _ _ _ _ _ Hinit)
    as (_ & _ & _ & _ & _ & _ & _ & _ & Hlen & _ & Hwf).
  eexists. split; [exact Hinit|]. split; [exact Hlen|]. apply Hwf.
  unfold monotone. simpl. rewrite !bool_decide_eq_true_2 by lra. reflexivity.
Defined.

(** ** More on the vertical inverse CDF *)

Lemma match_shapes_same (m r : list R) :
  length m = length r -> calc_rho_zr.match_shapes m r = Ok (m, r).
Proof.
  intros H. unfold calc_rho_zr.match_shapes.
  rewrite !decide_False by lia. reflexivity.
Qed.

(** The value [cdf_inv] returns for a radius inside the range of an
    ascending grid, with the bracket named by the bin index. *)
Lemma cdf_inv_bracket (self : rho_from_array) (m r : list R) (rmin rmax : R)
    (i : nat) (m_i r_i : R) :
  well_formed self ->
  np.nondecreasing (r_bins self) = true ->
  length m = length r ->
  np.min (r_bins self) = Ok rmin -> np.max (r_bins self) = Ok rmax ->
  m !! i = Some m_i -> r !! i = Some r_i ->
  rmin <= r_i -> r_i < rmax ->
  let j := bin_index (r_bins self) r_i in
  exists (z_out : list R) (f_lo f_hi : R -> R) (r_lo r_hi b0 b1 : R),
    calc_rho_zr.cdf_inv self (calc_rho_zr.array m) (calc_rho_zr.array r) = Ok z_out /\
    (1 <= j)%nat /\
    r_bins self !! (j - 1)%nat = Some r_lo /\ r_bins self !! j = Some r_hi /\
    r_lo <= r_i /\ r_i < r_hi /\
    _cdf_inv self !! (j - 1)%nat = Some f_lo /\ _cdf_inv self !! j = Some f_hi /\
    r_bins self !! 0%nat = Some b0 /\ r_bins self !! 1%nat = Some b1 /\
    z_out !! i = Some (f_lo m_i + ((f_hi m_i - f_lo m_i) / (b1 - b0)) * (r_i - r_lo)).
Proof.
  intros Hwf Hasc Hlen Hmin Hmax Hmi Hri Hlo Hhi j.
  destruct (cdf_inv_entries self (calc_rho_zr.array m) (calc_rho_zr.array r) m r Hwf
              (match_shapes_same m r Hlen) Hlen)
    as (z_out & rmin' & rmax' & Hrun & Hmin' & Hmax' & _ & Hentry).
  rewrite Hmin in Hmin'. injection Hmin' as <-.
  rewrite Hmax in Hmax'. injection Hmax' as <-.
  assert (Hin : calc_rho_zr.in_range rmin rmax r_i = true) by (apply in_range_spec; lra).
  destruct (bin_index_bounds _ _ _ _ Hmin Hmax Hin) as [Hj1 Hj2].
  pose proof Hwf as (Hlen2 & _ & Hcdf).
  fold j in Hj1, Hj2.
  assert (Hj : j = np.digitize1 (r_bins self) r_i).
  { subst j. unfold bin_index. by rewrite Hasc. }
  destruct (lookup_lt_is_Some_2 (r_bins self) (j - 1)) as [r_lo Hrlo]; [lia|].
  destruct (lookup_lt_is_Some_2 (r_bins self) j) as [r_hi Hrhi]; [lia|].
  destruct (lookup_lt_is_Some_2 (_cdf_inv self) (j - 1)) as [f_lo Hflo]; [lia|].
  destruct (lookup_lt_is_Some_2 (_cdf_inv self) j) as [f_hi Hfhi]; [lia|].
  destruct (lookup_lt_is_Some_2 (r_bins self) 0) as [b0 Hb0]; [lia|].
  destruct (lookup_lt_is_Some_2 (r_bins self) 1) as [b1 Hb1]; [lia|].
  destruct (digitize1_bracket (r_bins self) r_i Hasc) as [Hbelow Habove].
  assert (Hrlo_le : r_lo <= r_i) by (apply (Hbelow (j - 1)%nat); [lia|exact Hrlo]).
  assert (Hrhi_gt : r_i < r_hi) by (apply (Habove j); [lia|exact Hrhi]).
  exists z_out, f_lo, f_hi, r_lo, r_hi, b0, b1.
  repeat (split; [assumption|]).
  rewrite (Hentry i r_i Hri), Hin. unfold cdf_inv_entry.
  rewrite Hmi, Hri. simpl. fold j. rewrite Hflo, Hfhi, Hrlo, Hb0, Hb1. reflexivity.
Qed.

Lemma strictly_increasing_tail (x : R) (l : list R) :
  strictly_increasing (x :: l) -> strictly_increasing l.
Proof. intros H i j a b Hij Hi Hj. apply (H (S i) (S j)); [lia|exact Hi|exact Hj]. Qed.

Lemma strictly_increasing_nondecreasing (l : list R) :
  strictly_increasing l -> np.nondecreasing l = true.
Proof.
  induction l as [|x [|y t] IH]; intros H; try reflexivity.
  change (bool_decide (x <= y) && np.nondecreasing (y :: t) = true).
  apply andb_true_iff. split.
  - apply bool_decide_eq_true. pose proof (H 0%nat 1%nat x y). simpl in *.
    assert (x < y) by auto with lia. lra.
  - apply IH. by apply strictly_increasing_tail in H.
Qed.

Lemma strictly_increasing_index (l : list R) (a b : nat) (x y : R) :
  strictly_increasing l -> l !! a = Some x -> l !! b = Some y -> x <= y -> (a <= b)%nat.
Proof.
  intros H Ha Hb Hxy. destruct (le_lt_dec a b) as [?|Hlt]; [assumption|].
  pose proof (H b a y x Hlt Hb Ha). lra.
Qed.

(** X7.  At a radius of the grid itself -- any grid point but the last, on a
    strictly increasing grid -- [cdf_inv] returns exactly what that grid
    point's own sampler returns. *)
Theorem cdf_inv_at_grid_point (self : rho_from_array) (m r : list R)
    (i k : nat) (m_i r_i : R) (f_k : R -> R) :
  well_formed self ->
  strictly_increasing (r_bins self) ->
  length m = length r ->
  m !! i = Some m_i -> r !! i = Some r_i ->
  r_bins self !! k = Some r_i -> (k + 1 < length (r_bins self))%nat ->
  _cdf_inv self !! k = Some f_k ->
  exists z_out : list R,
    calc_rho_zr.cdf_inv self (calc_rho_zr.array m) (calc_rho_zr.array r) = Ok z_out /\
    z_out !! i = Some (f_k m_i).
Proof.
  intros Hwf Hinc Hlen Hmi Hri Hk Hk1 Hfk.
  pose proof (strictly_increasing_nondecreasing _ Hinc) as Hasc.
  pose proof Hwf as (Hlen2 & _ & _).
  destruct (np.min (r_bins self)) as [rmin|e] eqn:Hmin.
  2:{ destruct (r_bins self); simpl in *; [lia|discriminate]. }
  destruct (np.max (r_bins self)) as [rmax|e] eqn:Hmax.
  2:{ destruct (r_bins self); simpl in *; [lia|discriminate]. }
  destruct (np_min_spec _ _ Hmin) as (_ & Hmin_le).
  destruct (np_max_spec _ _ Hmax) as (_ & Hmax_ge).
  destruct (lookup_lt_is_Some_2 (r_bins self) (k + 1)) as [r_next Hnext]; [lia|].
  assert (Hlt : r_i < r_next) by (apply (Hinc k (k + 1)%nat); [lia|assumption..]).
  assert (Hlo : rmin <= r_i) by (apply Hmin_le; eapply list_elem_of_lookup_2; exact Hk).
  assert (Hhi : r_i < rmax).
  { assert (r_next <= rmax) by (apply Hmax_ge; eapply list_elem_of_lookup_2; exact Hnext).
    lra. }
  destruct (cdf_inv_bracket self m r rmin rmax i m_i r_i Hwf Hasc Hlen Hmin Hmax Hmi Hri Hlo Hhi)
    as (z_out & f_lo & f_hi & r_lo & r_hi & b0 & b1 & Hrun & Hj & Hrlo & Hrhi
        & Hle & Hgt & Hflo & Hfhi & Hb0 & Hb1 & Hz).
  set (j := bin_index (r_bins self) r_i) in *.
  assert (Hjk : (j - 1)%nat = k).
  { pose proof (strictly_increasing_index _ _ _ _ _ Hinc Hrlo Hk Hle).
    destruct (le_lt_dec j k) as [Hjle|?]; [|lia].
    assert (r_hi <= r_i); [|lra].
    destruct (decide (j = k)) as [->|Hne].
    - rewrite Hk in Hrhi. injection Hrhi as ->. lra.
    - assert (r_hi < r_i); [|lra].
      apply (Hinc j k); [lia|assumption..]. }
  rewrite Hjk in Hrlo, Hflo. rewrite Hk in Hrlo. injection Hrlo as <-.
  rewrite Hfk in Hflo. injection Hflo as <-.
  exists z_out. split; [exact Hrun|]. rewrite Hz. f_equal. unfold Rdiv. ring.
Qed.

Lemma cdf_inv_at_grid_point_witness :
  exists z_out : list R,
    calc_rho_zr.cdf_inv Examples.rho_uneven
      (calc_rho_zr.array [1 / 2]) (calc_rho_zr.array [1]) = Ok z_out /\
    z_out !! 0%nat = Some 0.
Proof.
  apply (cdf_inv_at_grid_point Examples.rho_uneven [1 / 2] [1] 0 1 (1 / 2) 1 (fun _ => 0)
           rho_uneven_well_formed); try reflexivity.
  - solve_strict.
  - simpl. lia.
Defined.

(** X8.  On an ascending, evenly spaced grid, the height [cdf_inv] returns
    for a radius inside the range lies between the heights the two samplers
    of its bracket return. *)
Theorem cdf_inv_between_samplers (self : rho_from_array) (m r : list R)
    (dr rmin rmax : R) (i : nat) (m_i r_i : R) :
  well_formed self ->
  np.nondecreasing (r_bins self) = true ->
  evenly_spaced (r_bins self) dr ->
  length m = length r ->
  np.min (r_bins self) = Ok rmin -> np.max (r_bins self) = Ok rmax ->
  m !! i = Some m_i -> r !! i = Some r_i ->
  rmin <= r_i -> r_i < rmax ->
  let j := bin_index (r_bins self) r_i in
  exists (z_out : list R) (f_lo f_hi : R -> R) (z_i : R),
    calc_rho_zr.cdf_inv self (calc_rho_zr.array m) (calc_rho_zr.array r) = Ok z_out /\
    _cdf_inv self !! (j - 1)%nat = Some f_lo /\ _cdf_inv self !! j = Some f_hi /\
    z_out !! i = Some z_i /\
    Rmin (f_lo m_i) (f_hi m_i) <= z_i <= Rmax (f_lo m_i) (f_hi m_i).
Proof.
  intros Hwf Hasc Heven Hlen Hmin Hmax Hmi Hri Hlo Hhi j.
  destruct (cdf_inv_bracket self m r rmin rmax i m_i r_i Hwf Hasc Hlen Hmin Hmax Hmi Hri Hlo Hhi)
    as (z_out & f_lo & f_hi & r_lo & r_hi & b0 & b1 & Hrun & Hj & Hrlo & Hrhi
        & Hle & Hgt & Hflo & Hfhi & Hb0 & Hb1 & Hz).
  fold j in Hj, Hrlo, Hrhi, Hflo, Hfhi.
  assert (Hdr : r_hi - r_lo = b1 - b0).
  { rewrite (Heven 0%nat b0 b1 Hb0 Hb1). apply (Heven (j - 1)%nat); [exact Hrlo|].
    replace (j - 1 + 1)%nat with j by lia. exact Hrhi. }
  eexists z_out, f_lo, f_hi, _.
  split; [exact Hrun|]. split; [exact Hflo|]. split; [exact Hfhi|]. split; [exact Hz|].
  rewrite <- Hdr.
  set (t := (r_i - r_lo) / (r_hi - r_lo)).
  assert (Ht : 0 <= t < 1).
  { unfold t. split.
    - apply Rmult_le_pos; [lra|]. left. apply Rinv_0_lt_compat. lra.
    - apply (Rmult_lt_reg_r (r_hi - r_lo)); [lra|]. unfold Rdiv.
      rewrite Rmult_assoc, Rinv_l by lra. lra. }
  replace (f_lo m_i + (f_hi m_i - f_lo m_i) / (r_hi - r_lo) * (r_i - r_lo))
    with (f_lo m_i + (f_hi m_i - f_lo m_i) * t) by (unfold t, Rdiv; ring).
  unfold Rmin, Rmax. destruct (Rle_dec (f_lo m_i) (f_hi m_i)); split; nra.
Qed.

Lemma rho_even_well_formed : well_formed Examples.rho_even.
Proof.
  split; [simpl; lia|]. split; [|reflexivity].
  unfold monotone. simpl. rewrite !bool_decide_eq_true_2 by lra. reflexivity.
Qed.

Lemma rho_even_ascending : np.nondecreasing (r_bins Examples.rho_even) = true.
Proof. simpl. rewrite !bool_decide_eq_true_2 by lra. reflexivity. Qed.

Lemma rho_even_evenly_spaced : evenly_spaced (r_bins Examples.rho_even) 1.
Proof.
  intros k a b Ha Hb. simpl in Ha, Hb.
  destruct k as [|[|[|k]]]; simpl in *; simplify_eq; lra.
Qed.

Lemma cdf_inv_between_samplers_witness :
  exists (z_out : list R) (z_i : R),
    calc_rho_zr.cdf_inv Examples.rho_even
      (calc_rho_zr.array [1 / 2]) (calc_rho_zr.array [1 / 2]) = Ok z_out /\
    z_out !! 0%nat = Some z_i.
Proof.
  destruct (cdf_inv_between_samplers Examples.rho_even [1 / 2] [1 / 2] 1
              (Rmin (Rmin 0 1) 2) (Rmax (Rmax 0 1) 2) 0 (1 / 2) (1 / 2)
              rho_even_well_formed rho_even_ascending rho_even_evenly_spaced)
    as (z_out & f_lo & f_hi & z_i & Hrun & _ & _ & Hz & _); try reflexivity.
  - eval_Rminmax.
  - eval_Rminmax.
  - exists z_out, z_i. split; assumption.
Defined.

(** X9.  On an ascending, evenly spaced grid whose samplers are all
    nondecreasing, [cdf_inv] is nondecreasing in the cumulative probability:
    raising entries of [m] at fixed radii never lowers an entry of the
    result. *)
Theorem cdf_inv_monotone_in_m (self : rho_from_array) (m1 m2 r : list R) (dr : R) :
  well_formed self ->
  np.nondecreasing (r_bins self) = true ->
  evenly_spaced (r_bins self) dr ->
  (forall f : R -> R, f ∈ _cdf_inv self -> forall a b : R, a <= b -> f a <= f b) ->
  length m1 = length r -> length m2 = length r ->
  (forall i a b, m1 !! i = Some a -> m2 !! i = Some b -> a <= b) ->
  exists z1 z2 : list R,
    calc_rho_zr.cdf_inv self (calc_rho_zr.array m1) (calc_rho_zr.array r) = Ok z1 /\
    calc_rho_zr.cdf_inv self (calc_rho_zr.array m2) (calc_rho_zr.array r) = Ok z2 /\
    length z1 = length r /\ length z2 = length r /\
    (forall i a b, z1 !! i = Some a -> z2 !! i = Some b -> a <= b).
Proof.
  intros Hwf Hasc Heven Hmono Hlen1 Hlen2 Hm.
  destruct (cdf_inv_entries self (calc_rho_zr.array m1) (calc_rho_zr.array r) m1 r Hwf
              (match_shapes_same m1 r Hlen1) Hlen1)
    as (z1 & rmin & rmax & Hrun1 & Hmin & Hmax & Hz1len & Hentry1).
  destruct (cdf_inv_entries self (calc_rho_zr.array m2) (calc_rho_zr.array r) m2 r Hwf
              (match_shapes_same m2 r Hlen2) Hlen2)
    as (z2 & rmin' & rmax' & Hrun2 & Hmin' & Hmax' & Hz2len & Hentry2).
  rewrite Hmin in Hmin'. injection Hmin' as <-.
  rewrite Hmax in Hmax'. injection Hmax' as <-.
  exists z1, z2. repeat (split; [assumption|]).
  intros i a b Ha Hb.
  destruct (lookup_lt_is_Some_2 r i) as [r_i Hri].
  { rewrite <- Hz1len. by apply lookup_lt_Some in Ha. }
  destruct (calc_rho_zr.in_range rmin rmax r_i) eqn:Hin.
  2:{ rewrite (Hentry1 i r_i Hri), Hin in Ha. rewrite (Hentry2 i r_i Hri), Hin in Hb.
      simplify_eq. lra. }
  apply in_range_spec in Hin as [Hlo Hhi].
  destruct (lookup_lt_is_Some_2 m1 i) as [a_i Hai].
  { rewrite Hlen1. by apply lookup_lt_Some in Hri. }
  destruct (lookup_lt_is_Some_2 m2 i) as [b_i Hbi].
  { rewrite Hlen2. by apply lookup_lt_Some in Hri. }
  destruct (cdf_inv_bracket self m1 r rmin rmax i a_i r_i Hwf Hasc Hlen1 Hmin Hmax Hai Hri Hlo Hhi)
    as (z1' & f_lo & f_hi & r_lo & r_hi & b0 & b1 & Hrun1' & Hj & Hrlo & Hrhi
        & Hle & Hgt & Hflo & Hfhi & Hb0 & Hb1 & Hza).
  destruct (cdf_inv_bracket self m2 r rmin rmax i b_i r_i Hwf Hasc Hlen2 Hmin Hmax Hbi Hri Hlo Hhi)
    as (z2' & f_lo' & f_hi' & r_lo' & r_hi' & b0' & b1' & Hrun2' & _ & Hrlo' & Hrhi'
        & _ & _ & Hflo' & Hfhi' & Hb0' & Hb1' & Hzb).
  rewrite Hrun1 in Hrun1'. injection Hrun1' as <-.
  rewrite Hrun2 in Hrun2'. injection Hrun2' as <-.
  simplify_eq.
  assert (Hdr : r_hi - r_lo = b1 - b0).
  { rewrite (Heven 0%nat b0 b1 Hb0 Hb1).
    apply (Heven (bin_index (r_bins self) r_i - 1)%nat); [exact Hrlo|].
    replace (bin_index (r_bins self) r_i - 1 + 1)%nat
      with (bin_index (r_bins self) r_i) by lia.
    exact Hrhi. }
  rewrite <- Hdr.
  set (t := (r_i - r_lo) / (r_hi - r_lo)).
  assert (Ht : 0 <= t < 1).
  { unfold t. split.
    - apply Rmult_le_pos; [lra|]. left. apply Rinv_0_lt_compat. lra.
    - apply (Rmult_lt_reg_r (r_hi - r_lo)); [lra|]. unfold Rdiv.
      rewrite Rmult_assoc, Rinv_l by lra. lra. }
  assert (Hab : a_i <= b_i) by (apply (Hm i); assumption).
  assert (Hlo_mono : f_lo a_i <= f_lo b_i).
  { apply Hmono; [|exact Hab]. eapply list_elem_of_lookup_2. exact Hflo. }
  assert (Hhi_mono : f_hi a_i <= f_hi b_i).
  { apply Hmono; [|exact Hab]. eapply list_elem_of_lookup_2. exact Hfhi. }
  replace (f_lo a_i + (f_hi a_i - f_lo a_i) / (r_hi - r_lo) * (r_i - r_lo))
    with ((1 - t) * f_lo a_i + t * f_hi a_i) by (unfold t, Rdiv; ring).
  replace (f_lo b_i + (f_hi b_i - f_lo b_i) / (r_hi - r_lo) * (r_i - r_lo))
    with ((1 - t) * f_lo b_i + t * f_hi b_i) by (unfold t, Rdiv; ring).
  nra.
Qed.

Lemma cdf_inv_monotone_in_m_witness :
  exists z1 z2 : list R,
    calc_rho_zr.cdf_inv Examples.rho_even
      (calc_rho_zr.array [1 / 4]) (calc_rho_zr.array [1 / 2]) = Ok z1 /\
    calc_rho_zr.cdf_inv Examples.rho_even
      (calc_rho_zr.array [3 / 4]) (calc_rho_zr.array [1 / 2]) = Ok z2 /\
    (forall a b, z1 !! 0%nat = Some a -> z2 !! 0%nat = Some b -> a <= b).
Proof.
  destruct (cdf_inv_monotone_in_m Examples.rho_even [1 / 4] [3 / 4] [1 / 2] 1
              rho_even_well_formed rho_even_ascending rho_even_evenly_spaced)
    as (z1 & z2 & Hrun1 & Hrun2 & _ & _ & Hle); try reflexivity.
  - intros f Hf a b Hab. simpl in Hf.
    repeat (apply elem_of_cons in Hf as [->|Hf]; [lra|]).
    by apply elem_of_nil in Hf.
  - intros [|i] a b Ha Hb; simpl in *; simplify_eq. lra.
  - exists z1, z2. split; [exact Hrun1|]. split; [exact Hrun2|]. intros a b. apply Hle.
Defined.

Lemma match_shapes_scalar_m (m0 : R) (rs : list R) :
  (2 <= length rs)%nat ->
  calc_rho_zr.match_shapes [m0] rs = Ok (replicate (length rs) m0, rs).
Proof.
  intros H. unfold calc_rho_zr.match_shapes. simpl.
  rewrite decide_False by lia. rewrite decide_True by lia.
  unfold np.broadcast2. rewrite length_replicate. simpl.
  rewrite decide_False by lia. simpl. unfold mret, result_ret.
  rewrite fmap_replicate, Rmult_1_r. reflexivity.
Qed.

Lemma match_shapes_scalar_r (ms : list R) (r0 : R) :
  (2 <= length ms)%nat ->
  calc_rho_zr.match_shapes ms [r0] = Ok (ms, replicate (length ms) r0).
Proof.
  intros H. unfold calc_rho_zr.match_shapes. simpl.
  rewrite decide_True by lia.
  unfold np.broadcast2. rewrite length_replicate. simpl.
  rewrite decide_False by lia. simpl. unfold mret, result_ret.
  rewrite fmap_replicate, Rmult_1_r. reflexivity.
Qed.

(** X10.  A single cumulative probability is used for every radius, and a
    single radius for every cumulative probability: [cdf_inv] with a scalar
    argument returns what it returns with that scalar repeated to the length
    of the other argument. *)
Theorem cdf_inv_scalar_broadcast (self : rho_from_array) (m0 r0 : R) (ms rs : list R) :
  calc_rho_zr.cdf_inv self (calc_rho_zr.scalar m0) (calc_rho_zr.array rs)
    = calc_rho_zr.cdf_inv self (calc_rho_zr.array (replicate (length rs) m0))
        (calc_rho_zr.array rs) /\
  (ms <> [] ->
   calc_rho_zr.cdf_inv self (calc_rho_zr.array ms) (calc_rho_zr.scalar r0)
     = calc_rho_zr.cdf_inv self (calc_rho_zr.array ms)
         (calc_rho_zr.array (replicate (length ms) r0))).
Proof.
  split.
  - destruct rs as [|x [|y rs]]; [reflexivity|reflexivity|].
    unfold calc_rho_zr.cdf_inv. cbn [calc_rho_zr.as_array].
    rewrite match_shapes_scalar_m by (simpl; lia).
    rewrite match_shapes_same by (rewrite length_replicate; reflexivity).
    reflexivity.
  - intros Hms. destruct ms as [|x [|y ms]]; [contradiction|reflexivity|].
    unfold calc_rho_zr.cdf_inv. cbn [calc_rho_zr.as_array].
    rewrite match_shapes_scalar_r by (simpl; lia).
    rewrite match_shapes_same by (rewrite length_replicate; reflexivity).
    reflexivity.
Qed.

Lemma cdf_inv_scalar_broadcast_witness :
  calc_rho_zr.cdf_inv Examples.rho_even (calc_rho_zr.array [1 / 4; 3 / 4])
    (calc_rho_zr.scalar (1 / 2))
  = calc_rho_zr.cdf_inv Examples.rho_even (calc_rho_zr.array [1 / 4; 3 / 4])
      (calc_rho_zr.array [1 / 2; 1 / 2]).
Proof.
  apply (proj2 (cdf_inv_scalar_broadcast Examples.rho_even 0 (1 / 2) [1 / 4; 3 / 4] [])).
  discriminate.
Defined.

(** X11.  [cdf_inv] on arrays of different lengths, neither of length one,
    raises [ValueError], whatever the interpolant. *)
Theorem cdf_inv_errors (self : rho_from_array) (m r : calc_rho_zr.arg) :
  let ms := calc_rho_zr.as_array m in
  let rs := calc_rho_zr.as_array r in
  length ms <> length rs -> length ms <> 1%nat -> length rs <> 1%nat ->
  calc_rho_zr.cdf_inv self m r = Raise ValueError.
Proof.
  intros ms rs Hne Hm Hr. unfold calc_rho_zr.cdf_inv. fold ms rs.
  assert (Hshape : calc_rho_zr.match_shapes ms rs = Raise ValueError).
  { unfold calc_rho_zr.match_shapes, np.broadcast2.
    rewrite !length_replicate.
    destruct (decide (length rs < length ms)%nat).
    - rewrite decide_False by lia.
      destruct rs as [|x [|y rs']], ms as [|a [|b ms']]; simpl in *; try lia; reflexivity.
    - rewrite decide_True by lia. rewrite decide_False by lia.
      destruct rs as [|x [|y rs']], ms as [|a [|b ms']]; simpl in *; try lia; reflexivity. }
  rewrite Hshape. reflexivity.
Qed.

Lemma cdf_inv_errors_witness :
  calc_rho_zr.cdf_inv Examples.rho_even (calc_rho_zr.array [1 / 4; 1 / 2; 3 / 4])
    (calc_rho_zr.array [1 / 2; 1 / 2]) = Raise ValueError.
Proof.
  apply (cdf_inv_errors Examples.rho_even (calc_rho_zr.array [1 / 4; 1 / 2; 3 / 4])
           (calc_rho_zr.array [1 / 2; 1 / 2])); simpl; lia.
Defined.

(** ** More on saving the density table *)

(** X12.  [save] without a file name on settings that hold no
    [rhoFileName] -- the state of freshly made settings -- raises
    [AttributeError] and leaves everything as it was: no file is written,
    nothing is printed, the settings are unchanged. *)
Theorem save_without_destination (self : rho_from_array) (w : World) :
  ICgen_settings.rhoFileName (ICgen_settings.s_filenames (IC_settings (ICobj w))) = None ->
  calc_rho_zr.save self None w = (Raise (AttributeError "rhoFileName"), w).
Proof.
  intros Hname. unfold calc_rho_zr.save. unfold_M. simpl.
  rewrite Hname. reflexivity.
Qed.

Lemma save_without_destination_witness :
  calc_rho_zr.save Examples.rho_uneven None Examples.world_full
    = (Raise (AttributeError "rhoFileName"), Examples.world_full).
Proof. apply (save_without_destination Examples.rho_uneven Examples.world_full eq_refl). Defined.

(** X13.  After a save under a name, a save without a name succeeds and
    writes the same table to the same file: files and settings are as the
    first save left them. *)
Theorem save_then_save_again (self : rho_from_array) (f : string) (w : World) :
  exists w1 w2 : World,
    calc_rho_zr.save self (Some f) w = (Ok tt, w1) /\
    calc_rho_zr.save self None w1 = (Ok tt, w2) /\
    files w2 = files w1 /\ ICobj w2 = ICobj w1 /\
    ICgen_settings.rhoFileName (ICgen_settings.s_filenames (IC_settings (ICobj w2)))
      = Some f.
Proof.
  eexists. eexists.
  split; [unfold calc_rho_zr.save; unfold_M; simpl; reflexivity|].
  split; [unfold calc_rho_zr.save; unfold_M; simpl; reflexivity|].
  simpl. split; [apply insert_insert_eq|]. split; reflexivity.
Qed.

(** ** More on building the density table *)

(** X14.  [rho_zr] stops before any work when it cannot start: without
    [sigma] it raises [AttributeError]; with [sigma] but [nr = 0] it raises
    the unbound-variable error for [rho_vector], since the loop that binds it
    never runs.  In both cases the solver is never called and the world is
    unchanged. *)
Theorem rho_zr_fails_early (rho_z : IC -> list R -> result (list R * list R)) (w : World) :
  let s := IC_settings (ICobj w) in
  (IC_sigma (ICobj w) = None ->
   calc_rho_zr.rho_zr rho_z w = (Raise (AttributeError "sigma"), w)) /\
  (forall sigma : sigma_profile,
     IC_sigma (ICobj w) = Some sigma ->
     sigma_r_bins sigma <> [] ->
     ICgen_settings.nr (ICgen_settings.s_rho_calc s) = 0%Z ->
     (0 <= ICgen_settings.nz (ICgen_settings.s_rho_calc s))%Z ->
     calc_rho_zr.rho_zr rho_z w = (Raise (UnboundLocalError "rho_vector"), w)).
Proof.
  intros s. split.
  - intros Hsigma. unfold calc_rho_zr.rho_zr. unfold_M. simpl. rewrite Hsigma. reflexivity.
  - intros sigma Hsigma Hbins Hnr Hnz.
    unfold calc_rho_zr.rho_zr. unfold_M. simpl. fold s. rewrite Hsigma. simpl.
    destruct (sigma_r_bins sigma) as [|b bins]; [contradiction|]. simpl.
    rewrite Hnr. simpl. unfold np.zeros2.
    destruct (Z.ltb_spec (ICgen_settings.nz (ICgen_settings.s_rho_calc s)) 0) as [?|_]; [lia|].
    simpl. reflexivity.
Qed.

Lemma rho_zr_fails_early_witness :
  calc_rho_zr.rho_zr Examples.solver_inverse_r Examples.world_no_sigma
    = (Raise (AttributeError "sigma"), Examples.world_no_sigma) /\
  calc_rho_zr.rho_zr Examples.solver_inverse_r Examples.world_nr0
    = (Raise (UnboundLocalError "rho_vector"), Examples.world_nr0).
Proof.
  split.
  - apply (proj1 (rho_zr_fails_early Examples.solver_inverse_r Examples.world_no_sigma)).
    reflexivity.
  - apply (proj2 (rho_zr_fails_early Examples.solver_inverse_r Examples.world_nr0)
             Examples.sigma_lin); try reflexivity.
    + discriminate.
    + simpl. lia.
Defined.

Section solver_failure.

Variable rho_z : IC -> list R -> result (list R * list R).

Lemma rho_zr_body_fail (r : list R) (nr : Z) (n : nat) (A : np.ndarray2)
    (last : option (list R * list R)) (w : World) (x : R) (e : exn) :
  r !! n = Some x ->
  rho_z (ICobj w) [x] = Raise e ->
  exists w' : World,
    calc_rho_zr.rho_zr_body rho_z r nr n (A, last) w = (Raise e, w') /\
    ICobj w' = ICobj w /\ files w' = files w /\
    rho_z_calls (trace w') = rho_z_calls (trace w) ++ [[x]].
Proof.
  intros Hx Hsolve. eexists. split.
  - unfold calc_rho_zr.rho_zr_body. unfold_M. simpl.
    rewrite (getitem_lookup _ _ _ Hx). simpl. rewrite Hsolve. reflexivity.
  - simpl. split; [reflexivity|]. split; [reflexivity|].
    rewrite !rho_z_calls_app. simpl. rewrite !app_nil_r. reflexivity.
Qed.

Lemma rho_zr_loop_fail (ic : IC) (r : list R) (nrZ : Z) (nz nr k : nat) (x_k : R) (e : exn) :
  (length r <= nr)%nat ->
  r !! k = Some x_k -> rho_z ic [x_k] = Raise e ->
  (forall n x, (n < k)%nat -> r !! n = Some x ->
     exists vec zg, rho_z ic [x] = Ok (vec, zg) /\ length vec = nz) ->
  forall (cnt s : nat) (A : np.ndarray2) (last : option (list R * list R)) (w : World),
    (s <= k < s + cnt)%nat -> rectangular nz nr A -> ICobj w = ic ->
    exists w' : World,
      for_M (seq s cnt) (calc_rho_zr.rho_zr_body rho_z r nrZ) (A, last) w = (Raise e, w') /\
      ICobj w' = ic /\ files w' = files w /\
      rho_z_calls (trace w')
        = rho_z_calls (trace w) ++ ((fun x => [x]) <$> take (k + 1 - s) (drop s r)).
Proof.
  intros Hnr Hk Hfail Hbefore.
  induction cnt as [|cnt IH]; intros s A last w Hs HA Hic; [lia|].
  change (seq s (S cnt)) with (s :: seq (S s) cnt). rewrite for_M_cons.
  destruct (decide (s = k)) as [->|Hne].
  - rewrite <- Hic in Hfail.
    destruct (rho_zr_body_fail r nrZ k A last w x_k e Hk Hfail)
      as (w' & Hbody & Hic' & Hfiles & Hcalls).
    rewrite Hbody. exists w'. split; [reflexivity|]. split; [congruence|].
    split; [exact Hfiles|]. rewrite Hcalls.
    replace (k + 1 - k)%nat with 1%nat by lia.
    rewrite (drop_S r x_k k Hk). reflexivity.
  - destruct (lookup_lt_is_Some_2 r s) as [x Hx].
    { apply lookup_lt_Some in Hk. lia. }
    destruct (Hbefore s x) as (vec & zg & Hsolve & Hvec); [lia|exact Hx|].
    destruct (set_column_spec nz nr A s vec HA) as (A1 & Hset & HA1 & _).
    { apply lookup_lt_Some in Hk. lia. }
    { exact Hvec. }
    rewrite <- Hic in Hsolve.
    destruct (rho_zr_body_run rho_z r nrZ s A A1 last w x vec zg Hx Hsolve Hset)
      as (w1 & Hbody & Hic1 & Hfiles1 & Hcalls1).
    rewrite Hbody.
    destruct (IH (S s) A1 (Some (vec, zg)) w1) as (w' & Hrun & Hic' & Hfiles' & Hcalls');
      [lia|exact HA1|congruence|].
    exists w'. split; [exact Hrun|]. split; [exact Hic'|]. split; [congruence|].
    rewrite Hcalls', Hcalls1, (drop_S r x s Hx).
    replace (k + 1 - s)%nat with (S (k + 1 - S s)) by lia.
    simpl. rewrite <- app_assoc. reflexivity.
Qed.

(** X15.  A failure of the solver aborts the build at once: if the solver
    answers the first [k] radial grid points and raises at the next one,
    [rho_zr] raises that exception, the solver has been called for the first
    [k + 1] grid points only, and the initial-conditions object and the
    files are unchanged. *)
Theorem rho_zr_solver_failure (w : World) (sigma : sigma_profile) (rmin rmax : R)
    (nr nz k : nat) (r : list R) (x_k : R) (e : exn) :
  let s := IC_settings (ICobj w) in
  IC_sigma (ICobj w) = Some sigma ->
  np.min (sigma_r_bins sigma) = Ok rmin ->
  np.max (sigma_r_bins sigma) = Ok rmax ->
  ICgen_settings.nr (ICgen_settings.s_rho_calc s) = Z.of_nat nr ->
  ICgen_settings.nz (ICgen_settings.s_rho_calc s) = Z.of_nat nz ->
  np.linspace rmin rmax (Z.of_nat nr) = Ok r ->
  r !! k = Some x_k -> rho_z (ICobj w) [x_k] = Raise e ->
  (forall n x, (n < k)%nat -> r !! n = Some x ->
     exists vec zg, rho_z (ICobj w) [x] = Ok (vec, zg) /\ length vec = nz) ->
  exists w' : World,
    calc_rho_zr.rho_zr rho_z w = (Raise e, w') /\
    rho_z_calls (trace w') = rho_z_calls (trace w) ++ ((fun x => [x]) <$> take (k + 1) r) /\
    ICobj w' = ICobj w /\ files w' = files w.
Proof.
  intros s Hsigma Hmin Hmax Hnr Hnz Hlin Hk Hfail Hbefore.
  destruct (linspace_spec rmin rmax nr) as (r0 & Hlin0 & Hlen & _).
  rewrite Hlin in Hlin0. injection Hlin0 as <-.
  destruct (zeros2_rectangular nz nr) as (A0 & Hzeros & HA0).
  pose proof (lookup_lt_Some _ _ _ Hk) as Hklt.
  destruct (rho_zr_loop_fail (ICobj w) r (Z.of_nat nr) nz nr k x_k e ltac:(lia)
              Hk Hfail Hbefore nr 0%nat A0 None w ltac:(lia) HA0 eq_refl)
    as (w' & Hrun & Hic & Hfiles & Hcalls).
  exists w'. split; [|split; [|split; [exact Hic|exact Hfiles]]].
  - unfold calc_rho_zr.rho_zr. unfold_M. simpl. fold s.
    rewrite Hsigma. simpl. rewrite Hmin, Hmax, Hnr, Hnz, Hlin, Hzeros, Nat2Z.id.
    rewrite Hrun. reflexivity.
  - rewrite Hcalls, Nat.sub_0_r, drop_0. reflexivity.
Qed.

End solver_failure.

Lemma rho_zr_solver_failure_witness :
  exists w' : World,
    calc_rho_zr.rho_zr Examples.solver_fails_outside Examples.world_small
      = (Raise ValueError, w') /\
    length (rho_z_calls (trace w')) = 3%nat.
Proof.
  destruct (linspace_spec (Rmin 1 2) (Rmax 1 2) 3) as (r & Hlin & Hlen & _ & Hlast & Heven).
  destruct (rho_zr_solver_failure Examples.solver_fails_outside Examples.world_small
              Examples.sigma_lin (Rmin 1 2) (Rmax 1 2) 3 2 2 r (Rmax 1 2) ValueError
              eq_refl eq_refl eq_refl eq_refl eq_refl Hlin)
    as (w' & Hrun & Hcalls & _).
  - apply Hlast. lia.
  - unfold Examples.solver_fails_outside. simpl.
    rewrite bool_decide_eq_false_2; [reflexivity|]. eval_Rminmax.
  - intros n x Hn Hx. rewrite (Heven ltac:(lia) n ltac:(lia)) in Hx. injection Hx as <-.
    eexists. eexists. unfold Examples.solver_fails_outside. simpl.
    rewrite bool_decide_eq_true_2; [split; reflexivity|].
    destruct n as [|[|n]]; [| |lia]; simpl; norm_IZR; eval_Rminmax.
  - exists w'. split; [exact Hrun|]. rewrite Hcalls. simpl.
    rewrite length_fmap, length_take. lia.
Defined.

(** ** The sampler's steps in general *)

Lemma slice_interior {A} (a : list A) :
  np.slice a 1 (Some (-1)%Z) = drop 1 (take (length a - 1) a).
Proof.
  unfold np.slice, np.slice_bound. simpl.
  replace (Z.to_nat (0 `max` (Z.of_nat (length a) + -1))) with (length a - 1)%nat by lia.
  destruct a as [|x a]; [reflexivity|].
  replace (Z.to_nat 1 `min` length (x :: a))%nat with 1%nat by (simpl; lia).
  reflexivity.
Qed.

(** The cumulative probabilities of the grid method: the interior points
    of [linspace(0, 1, n + 2)]. *)
Lemma linspace_interior (n : nat) :
  exists m : list R,
    np.linspace 0 1 (Z.of_nat n + 2) = Ok m /\
    length (np.slice m 1 (Some (-1)%Z)) = n /\
    (forall i, (i < n)%nat ->
       np.slice m 1 (Some (-1)%Z) !! i
       = Some (IZR (Z.of_nat (i + 1)) / IZR (Z.of_nat (n + 1)))).
Proof.
  destruct (linspace_spec 0 1 (n + 2)) as (m & Hlin & Hlen & _ & _ & Heven).
  exists m. split; [|split].
  - rewrite <- Hlin. f_equal. lia.
  - rewrite slice_interior, length_drop, length_take. lia.
  - intros i Hi. rewrite slice_interior, lookup_drop, lookup_take_lt by lia.
    rewrite (Heven ltac:(lia) (1 + i)%nat ltac:(lia)). f_equal.
    replace (Z.of_nat (n + 2) - 1)%Z with (Z.of_nat (n + 1)) by lia.
    replace (1 + i)%nat with (i + 1)%nat by lia.
    assert (0 < IZR (Z.of_nat (n + 1))) by (apply IZR_lt; lia).
    field. lra.
Qed.

Lemma grid_fraction_bounds (n i : nat) :
  (i < n)%nat ->
  0 < IZR (Z.of_nat (i + 1)) / IZR (Z.of_nat (n + 1)) < 1.
Proof.
  intros Hi.
  assert (Hd : 0 < IZR (Z.of_nat (n + 1))) by (apply IZR_lt; lia).
  assert (Hn : 0 < IZR (Z.of_nat (i + 1))) by (apply IZR_lt; lia).
  assert (Hlt : IZR (Z.of_nat (i + 1)) < IZR (Z.of_nat (n + 1))) by (apply IZR_lt; lia).
  split.
  - apply Rdiv_lt_0_compat; assumption.
  - apply (Rmult_lt_reg_r (IZR (Z.of_nat (n + 1)))); [exact Hd|].
    unfold Rdiv. rewrite Rmult_assoc, Rinv_l by lra. lra.
Qed.

(** X16.  For any particle count [n], the grid method's radial step calls
    the radial inverse CDF exactly once, with the [n] values
    [(i + 1)/(n + 1)], [i = 0 .. n-1]: strictly increasing and strictly
    between 0 and 1, so the boundary probabilities 0 and 1 are never passed.
    It stores what the call returns and draws no random number. *)
Theorem generate_r_grid_values (w : World) (sigma : sigma_profile)
    (self : pos_class.pos) (n : nat) :
  IC_sigma (ICobj w) = Some sigma ->
  pos_class.method self = Some "grid" ->
  pos_class.nParticles self = Some (Z.of_nat n) ->
  exists (ms : list R) (w' : World),
    pos_class._generate_r self w = (Ok (pos_class.set_r (sigma_cdf_inv sigma ms) self), w') /\
    length ms = n /\
    (forall i, (i < n)%nat ->
       ms !! i = Some (IZR (Z.of_nat (i + 1)) / IZR (Z.of_nat (n + 1)))) /\
    Forall (fun x => 0 < x < 1) ms /\
    strictly_increasing ms /\
    sigma_cdf_inv_calls (trace w') = sigma_cdf_inv_calls (trace w) ++ [ms] /\
    rand_pos w' = rand_pos w /\ ICobj w' = ICobj w.
Proof.
  intros Hsigma Hmeth Hn.
  destruct (linspace_interior n) as (m & Hlin & Hlen & Hval).
  exists (np.slice m 1 (Some (-1)%Z)). eexists.
  split; [apply (generate_r_grid_run w sigma self (Z.of_nat n) m Hsigma Hmeth Hn Hlin)|].
  split; [exact Hlen|]. split; [exact Hval|]. split; [|split; [|split; [|split]]].
  - apply Forall_lookup. intros i x Hx.
    pose proof (lookup_lt_Some _ _ _ Hx) as Hi. rewrite Hlen in Hi.
    rewrite (Hval i Hi) in Hx. injection Hx as <-. by apply grid_fraction_bounds.
  - intros i j a b Hij Ha Hb.
    pose proof (lookup_lt_Some _ _ _ Hb) as Hj. rewrite Hlen in Hj.
    rewrite (Hval i ltac:(lia)) in Ha. rewrite (Hval j Hj) in Hb.
    injection Ha as <-. injection Hb as <-.
    assert (Hd : 0 < IZR (Z.of_nat (n + 1))) by (apply IZR_lt; lia).
    assert (Hlt : IZR (Z.of_nat (i + 1)) < IZR (Z.of_nat (j + 1))) by (apply IZR_lt; lia).
    unfold Rdiv. apply Rmult_lt_compat_r; [|exact Hlt]. by apply Rinv_0_lt_compat.
  - simpl. rewrite !sigma_cdf_inv_calls_app. simpl. rewrite app_nil_r. reflexivity.
  - reflexivity.
  - reflexivity.
Qed.

Lemma generate_r_grid_values_witness :
  exists (ms : list R) (w' : World),
    pos_class._generate_r Examples.pos_grid4 Examples.world_sigma
      = (Ok (pos_class.set_r (sigma_cdf_inv Examples.sigma_lin ms) Examples.pos_grid4), w') /\
    length ms = 4%nat /\ Forall (fun x => 0 < x < 1) ms.
Proof.
  destruct (generate_r_grid_values Examples.world_sigma Examples.sigma_lin
              Examples.pos_grid4 4 eq_refl eq_refl eq_refl)
    as (ms & w' & Hrun & Hlen & _ & Hin & _).
  exists ms, w'. split; [exact Hrun|]. split; assumption.
Defined.

Lemma np_random_rand_run (n : nat) (w : World) :
  np_random_rand (Z.of_nat n) w
  = (Ok (draws (rand_stream w) (rand_pos w) n), advance n w).
Proof.
  unfold np_random_rand. destruct (Z.ltb_spec (Z.of_nat n) 0); [lia|].
  rewrite Nat2Z.id. reflexivity.
Qed.

Lemma np_random_choice_signs (n : nat) (w : World) :
  np_random_choice [-1; 1] (Z.of_nat n) w
  = (Ok (sign_draws (choice_stream w) (rand_pos w) n), advance n w).
Proof.
  unfold np_random_choice. destruct (Z.ltb_spec (Z.of_nat n) 0); [lia|].
  rewrite Nat2Z.id. reflexivity.
Qed.

Lemma length_draws (stream : nat -> R) (start n : nat) : length (draws stream start n) = n.
Proof. unfold draws. by rewrite length_fmap, length_seq. Qed.

Lemma length_sign_draws (stream : nat -> nat) (start n : nat) :
  length (sign_draws stream start n) = n.
Proof. unfold sign_draws. by rewrite length_fmap, length_seq. Qed.

Lemma sign_draws_values (stream : nat -> nat) (start n i : nat) (s : R) :
  sign_draws stream start n !! i = Some s -> s = -1 \/ s = 1.
Proof.
  unfold sign_draws. rewrite list_lookup_fmap.
  destruct (seq 0 n !! i) as [k|]; [|discriminate].
  pose proof (Nat.mod_upper_bound (stream (start + k)%nat) 2 ltac:(lia)) as Hlt.
  cbn [fmap option_fmap option_map].
  generalize dependent (stream (start + k)%nat `mod` 2)%nat.
  intros c Hc. destruct c as [|[|c]]; [| |lia]; intros [= <-]; [left|right]; reflexivity.
Qed.

Lemma generate_r_random_run (w : World) (sigma : sigma_profile)
    (self : pos_class.pos) (n : nat) :
  IC_sigma (ICobj w) = Some sigma ->
  pos_class.method self = Some "random" ->
  pos_class.nParticles self = Some (Z.of_nat n) ->
  let us := draws (rand_stream w) (rand_pos w) n in
  pos_class._generate_r self w =
    (Ok (pos_class.set_r (sigma_cdf_inv sigma us) self),
     log (Call_sigma_cdf_inv us) (advance n (log (Print "Generating r positions") w))).
Proof.
  intros Hsigma Hmeth Hn us.
  unfold pos_class._generate_r. unfold_M. simpl.
  rewrite Hsigma, Hmeth. simpl. rewrite Hmeth. simpl. rewrite Hn. unfold np_random_rand.
  destruct (Z.ltb_spec (Z.of_nat n) 0); [lia|].
  rewrite Nat2Z.id. reflexivity.
Qed.

(** X17.  The random method's radial step draws exactly [nParticles]
    uniform variates, calls the radial inverse CDF once with exactly those,
    and stores what the call returns; with a negative particle count it
    raises [ValueError] without calling the inverse CDF. *)
Theorem generate_r_random (w : World) (sigma : sigma_profile) (self : pos_class.pos) :
  IC_sigma (ICobj w) = Some sigma ->
  pos_class.method self = Some "random" ->
  (forall n : nat,
     pos_class.nParticles self = Some (Z.of_nat n) ->
     let us := draws (rand_stream w) (rand_pos w) n in
     exists w' : World,
       pos_class._generate_r self w = (Ok (pos_class.set_r (sigma_cdf_inv sigma us) self), w') /\
       length us = n /\
       sigma_cdf_inv_calls (trace w') = sigma_cdf_inv_calls (trace w) ++ [us] /\
       rand_pos w' = (rand_pos w + n)%nat /\ ICobj w' = ICobj w) /\
  (forall z : Z,
     pos_class.nParticles self = Some z -> (z < 0)%Z ->
     exists w' : World,
       pos_class._generate_r self w = (Raise ValueError, w') /\
       sigma_cdf_inv_calls (trace w') = sigma_cdf_inv_calls (trace w) /\
       rand_pos w' = rand_pos w).
Proof.
  intros Hsigma Hmeth. split.
  - intros n Hn us. eexists.
    split; [apply (generate_r_random_run w sigma self n Hsigma Hmeth Hn)|].
    split; [apply length_draws|]. simpl.
    rewrite !sigma_cdf_inv_calls_app. simpl. rewrite app_nil_r. auto.
  - intros z Hz Hneg. eexists. split.
    + unfold pos_class._generate_r. unfold_M. simpl.
      rewrite Hsigma, Hmeth. simpl. rewrite Hmeth. simpl. rewrite Hz.
      unfold np_random_rand.
      destruct (Z.ltb_spec z 0); [|lia]. reflexivity.
    + simpl. rewrite sigma_cdf_inv_calls_app. simpl. rewrite app_nil_r. auto.
Qed.

Lemma generate_r_random_witness :
  exists w' : World,
    pos_class._generate_r Examples.pos_random3 Examples.world_sigma
      = (Ok (pos_class.set_r
               (sigma_cdf_inv Examples.sigma_lin
                  (draws (rand_stream Examples.world_sigma) 0 3))
               Examples.pos_random3), w') /\
    rand_pos w' = 3%nat.
Proof.
  destruct (proj1 (generate_r_random Examples.world_sigma Examples.sigma_lin
                     Examples.pos_random3 eq_refl eq_refl) 3%nat eq_refl)
    as (w' & Hrun & _ & _ & Hpos & _).
  exists w'. split; [exact Hrun|exact Hpos].
Defined.

Lemma generate_z_run (w : World) (rho : rho_from_array) (self : pos_class.pos)
    (n : nat) (rs zc : list R) :
  IC_rho (ICobj w) = Some rho ->
  pos_class.nParticles self = Some (Z.of_nat n) ->
  pos_class.r self = Some rs ->
  calc_rho_zr.cdf_inv rho (calc_rho_zr.array (draws (rand_stream w) (rand_pos w) n))
    (calc_rho_zr.array rs) = Ok zc ->
  length zc = n ->
  pos_class._generate_z self w =
    (Ok (pos_class.set_z
           (zip_with Rmult zc (sign_draws (choice_stream w) (rand_pos w + n) n)) self),
     advance n (advance n (log (Print "Generating z positions") w))).
Proof.
  intros Hrho Hn Hr Hcdf Hlen.
  unfold pos_class._generate_z. unfold_M. simpl.
  rewrite Hrho, Hn. unfold np_random_rand.
  destruct (Z.ltb_spec (Z.of_nat n) 0); [lia|].
  rewrite Nat2Z.id, Hr. simpl.
  change ((fun k : nat => rand_stream w (rand_pos w + k)%nat) <$> seq 0 n)
    with (draws (rand_stream w) (rand_pos w) n).
  rewrite Hcdf. unfold np_random_choice.
  destruct (Z.ltb_spec (Z.of_nat n) 0); [lia|].
  rewrite Nat2Z.id. simpl.
  change ((fun k : nat =>
             default (-1) ([-1; 1] !! (choice_stream w (rand_pos w + n + k)%nat `mod` 2)%nat))
            <$> seq 0 n)
    with (sign_draws (choice_stream w) (rand_pos w + n) n).
  rewrite broadcast2_same_length by (rewrite length_fmap, length_seq; exact Hlen).
  reflexivity.
Qed.

(** X18.  On a well-formed interpolant and [n = nParticles] radii, the
    vertical step succeeds: it draws [n] uniform variates, inverts them
    through the interpolant's [cdf_inv] at the particles' radii, then draws
    [n] signs; each stored height is the inverted height times +1 or -1, a
    particle whose radius is outside [[r_min, r_max)] gets height 0, and the
    generator has advanced by [2 n]. *)
Theorem generate_z_signed_heights (w : World) (rho : rho_from_array)
    (self : pos_class.pos) (n : nat) (rs : list R) :
  IC_rho (ICobj w) = Some rho -> well_formed rho ->
  pos_class.nParticles self = Some (Z.of_nat n) ->
  pos_class.r self = Some rs -> length rs = n ->
  exists (zc zs : list R) (rmin rmax : R) (w' : World),
    calc_rho_zr.cdf_inv rho (calc_rho_zr.array (draws (rand_stream w) (rand_pos w) n))
      (calc_rho_zr.array rs) = Ok zc /\
    pos_class._generate_z self w = (Ok (pos_class.set_z zs self), w') /\
    length zs = n /\
    (forall i c, zc !! i = Some c ->
       exists s : R, (s = -1 \/ s = 1) /\ zs !! i = Some (c * s)) /\
    np.min (r_bins rho) = Ok rmin /\ np.max (r_bins rho) = Ok rmax /\
    (forall i r_i, rs !! i = Some r_i -> ~ (rmin <= r_i /\ r_i < rmax) ->
       zs !! i = Some 0) /\
    rand_pos w' = (rand_pos w + 2 * n)%nat /\ ICobj w' = ICobj w /\
    sigma_cdf_inv_calls (trace w') = sigma_cdf_inv_calls (trace w).
Proof.
  intros Hrho Hwf Hn Hr Hlen.
  set (us := draws (rand_stream w) (rand_pos w) n).
  assert (Hus : length us = length rs) by (unfold us; rewrite length_draws; lia).
  destruct (cdf_inv_entries rho (calc_rho_zr.array us) (calc_rho_zr.array rs) us rs Hwf
              (match_shapes_same us rs Hus) Hus)
    as (zc & rmin & rmax & Hcdf & Hmin & Hmax & Hzlen & Hentry).
  assert (Hzc : length zc = n) by lia.
  set (signs := sign_draws (choice_stream w) (rand_pos w + n) n).
  assert (Hsign : forall i c, zc !! i = Some c ->
            exists s : R, (s = -1 \/ s = 1) /\ zip_with Rmult zc signs !! i = Some (c * s)).
  { intros i c Hc.
    destruct (lookup_lt_is_Some_2 signs i) as [s Hs].
    { unfold signs. rewrite length_sign_draws. apply lookup_lt_Some in Hc. lia. }
    exists s. split; [apply (sign_draws_values _ _ _ _ _ Hs)|].
    apply lookup_zip_with_Some. exists c, s. auto. }
  exists zc, (zip_with Rmult zc signs), rmin, rmax. eexists.
  split; [exact Hcdf|].
  split; [apply (generate_z_run w rho self n rs zc Hrho Hn Hr Hcdf Hzc)|].
  split; [rewrite length_zip_with; unfold signs; rewrite length_sign_draws; lia|].
  split; [exact Hsign|]. split; [exact Hmin|]. split; [exact Hmax|]. split; [|split; [|split]].
  - intros i r_i Hri Hout.
    assert (Hzero : zc !! i = Some 0).
    { rewrite (Hentry i r_i Hri).
      destruct (calc_rho_zr.in_range rmin rmax r_i) eqn:Hin; [|reflexivity].
      apply in_range_spec in Hin. contradiction. }
    destruct (Hsign i 0 Hzero) as (s & _ & Hz). rewrite Hz. f_equal. ring.
  - simpl. lia.
  - reflexivity.
  - simpl. rewrite sigma_cdf_inv_calls_app. simpl. apply app_nil_r.
Qed.

Lemma generate_z_signed_heights_witness :
  exists (zs : list R) (w' : World),
    pos_class._generate_z Examples.pos_r3_even Examples.world_even
      = (Ok (pos_class.set_z zs Examples.pos_r3_even), w') /\
    length zs = 3%nat /\ rand_pos w' = 6%nat.
Proof.
  destruct (generate_z_signed_heights Examples.world_even Examples.rho_even
              Examples.pos_r3_even 3 [1 / 2; 1; 3 / 2] eq_refl rho_even_well_formed
              eq_refl eq_refl eq_refl)
    as (zc & zs & rmin & rmax & w' & _ & Hrun & Hlen & _ & _ & _ & _ & Hpos & _).
  exists zs, w'. split; [exact Hrun|]. split; [exact Hlen|exact Hpos].
Defined.

Lemma generate_theta_random_run (w : World) (self : pos_class.pos) (n : nat) :
  pos_class.method self = Some "random" ->
  pos_class.nParticles self = Some (Z.of_nat n) ->
  pos_class._generate_theta self w =
    (Ok (pos_class.set_theta
           ((fun u => 2 * PI * u) <$> draws (rand_stream w) (rand_pos w) n) self),
     advance n w).
Proof.
  intros Hmeth Hn.
  unfold pos_class._generate_theta. unfold_M.
  rewrite Hn, Hmeth. simpl. rewrite Hmeth. simpl. unfold np_random_rand.
  destruct (Z.ltb_spec (Z.of_nat n) 0); [lia|].
  rewrite Nat2Z.id. reflexivity.
Qed.

(** X19.  The random method's azimuthal step draws [nParticles] uniform
    variates and stores [2 pi u] for each: as many angles as particles, each
    in [[0, 2 pi)] when the generator's variates are in [[0, 1)]. *)
Theorem generate_theta_random (w : World) (self : pos_class.pos) (n : nat) :
  pos_class.method self = Some "random" ->
  pos_class.nParticles self = Some (Z.of_nat n) ->
  exists (theta : list R) (w' : World),
    pos_class._generate_theta self w = (Ok (pos_class.set_theta theta self), w') /\
    length theta = n /\
    (forall i, (i < n)%nat ->
       theta !! i = Some (2 * PI * rand_stream w (rand_pos w + i)%nat)) /\
    ((forall k, 0 <= rand_stream w k < 1) -> Forall (fun t => 0 <= t < 2 * PI) theta) /\
    rand_pos w' = (rand_pos w + n)%nat /\ ICobj w' = ICobj w /\ trace w' = trace w.
Proof.
  intros Hmeth Hn.
  assert (Hval : forall i, (i < n)%nat ->
            ((fun u => 2 * PI * u) <$> draws (rand_stream w) (rand_pos w) n) !! i
            = Some (2 * PI * rand_stream w (rand_pos w + i)%nat)).
  { intros i Hi. unfold draws. rewrite !list_lookup_fmap, lookup_seq_lt by lia. reflexivity. }
  eexists. eexists.
  split; [apply (generate_theta_random_run w self n Hmeth Hn)|].
  split; [by rewrite length_fmap, length_draws|]. split; [exact Hval|].
  split; [|simpl; auto].
  intros Hunit. apply Forall_lookup. intros i t Ht.
  pose proof (lookup_lt_Some _ _ _ Ht) as Hi.
  rewrite length_fmap, length_draws in Hi.
  rewrite (Hval i Hi) in Ht. injection Ht as <-.
  pose proof (Hunit (rand_pos w + i)%nat). pose proof PI_RGT_0. nra.
Qed.

Lemma generate_theta_random_witness :
  exists (theta : list R) (w' : World),
    pos_class._generate_theta Examples.pos_random3 Examples.world_sigma
      = (Ok (pos_class.set_theta theta Examples.pos_random3), w') /\
    Forall (fun t => 0 <= t < 2 * PI) theta.
Proof.
  destruct (generate_theta_random Examples.world_sigma Examples.pos_random3 3
              eq_refl eq_refl) as (theta & w' & Hrun & _ & _ & Hin & _).
  exists theta, w'. split; [exact Hrun|]. apply Hin. intros k. simpl. lra.
Defined.

Lemma cartesian_pos_run (w : World) (self : pos_class.pos) (n : nat)
    (rs zs ths : list R) :
  pos_class.nParticles self = Some (Z.of_nat n) ->
  pos_class.r self = Some rs -> pos_class.z self = Some zs ->
  pos_class.theta self = Some ths ->
  length rs = n -> length zs = n -> length ths = n ->
  let xs := zip_with Rmult rs (cos <$> ths) in
  let ys := zip_with Rmult rs (sin <$> ths) in
  exists xyz : np.ndarray2,
    pos_class._cartesian_pos self w = (Ok (pos_class.set_xy_xyz xs ys xyz self), w) /\
    length xs = n /\ length ys = n /\
    rectangular n 3 xyz /\
    np.column xyz 0 = Ok xs /\ np.column xyz 1 = Ok ys /\ np.column xyz 2 = Ok zs.
Proof.
  intros Hn Hr Hz Hth Hrlen Hzlen Hthlen xs ys.
  assert (Hxlen : length xs = n).
  { unfold xs. rewrite length_zip_with, length_fmap. lia. }
  assert (Hylen : length ys = n).
  { unfold ys. rewrite length_zip_with, length_fmap. lia. }
  destruct (zeros2_rectangular n 3) as (A0 & Hzeros & HA0).
  destruct (set_column_spec n 3 A0 0 xs HA0 ltac:(lia) Hxlen) as (A1 & Hset1 & HA1 & Hc10 & _).
  destruct (set_column_spec n 3 A1 1 ys HA1 ltac:(lia) Hylen) as (A2 & Hset2 & HA2 & Hc21 & Ho2).
  destruct (set_column_spec n 3 A2 2 zs HA2 ltac:(lia) Hzlen) as (A3 & Hset3 & HA3 & Hc32 & Ho3).
  exists A3. split; [|split; [exact Hxlen|split; [exact Hylen|split; [exact HA3|
    split; [|split; [|exact Hc32]]]]]].
  - unfold pos_class._cartesian_pos. unfold_M.
    rewrite Hr, Hz, Hth. simpl.
    rewrite !broadcast2_same_length by (rewrite length_fmap; lia).
    rewrite Hn. change 3%Z with (Z.of_nat 3). rewrite Hzeros.
    unfold pos_class.match_units. fold xs ys.
    rewrite Hset1, Hset2, Hset3. reflexivity.
  - rewrite Ho3 by lia. rewrite Ho2 by lia. exact Hc10.
  - rewrite Ho3 by lia. exact Hc21.
Qed.

(** X20.  Given [n = nParticles] radii, heights and angles, the Cartesian
    step succeeds without touching the world: [x[i] = r[i] cos(theta[i])],
    [y[i] = r[i] sin(theta[i])], so that [x[i]^2 + y[i]^2 = r[i]^2], and
    [xyz] is an [n x 3] table whose columns are [x], [y] and [z]. *)
Theorem cartesian_pos_on_circle (w : World) (self : pos_class.pos) (n : nat)
    (rs zs ths : list R) :
  pos_class.nParticles self = Some (Z.of_nat n) ->
  pos_class.r self = Some rs -> pos_class.z self = Some zs ->
  pos_class.theta self = Some ths ->
  length rs = n -> length zs = n -> length ths = n ->
  exists (xs ys : list R) (xyz : np.ndarray2),
    pos_class._cartesian_pos self w = (Ok (pos_class.set_xy_xyz xs ys xyz self), w) /\
    length xs = n /\ length ys = n /\
    (forall i r_i t_i, rs !! i = Some r_i -> ths !! i = Some t_i ->
       xs !! i = Some (r_i * cos t_i) /\ ys !! i = Some (r_i * sin t_i)) /\
    (forall i x y r_i, xs !! i = Some x -> ys !! i = Some y -> rs !! i = Some r_i ->
       x * x + y * y = r_i * r_i) /\
    rectangular n 3 xyz /\
    np.column xyz 0 = Ok xs /\ np.column xyz 1 = Ok ys /\ np.column xyz 2 = Ok zs.
Proof.
  intros Hn Hr Hz Hth Hrlen Hzlen Hthlen.
  destruct (cartesian_pos_run w self n rs zs ths Hn Hr Hz Hth Hrlen Hzlen Hthlen)
    as (xyz & Hrun & Hxlen & Hylen & Hrect & Hc0 & Hc1 & Hc2).
  set (xs := zip_with Rmult rs (cos <$> ths)) in *.
  set (ys := zip_with Rmult rs (sin <$> ths)) in *.
  assert (Hxy : forall i r_i t_i, rs !! i = Some r_i -> ths !! i = Some t_i ->
            xs !! i = Some (r_i * cos t_i) /\ ys !! i = Some (r_i * sin t_i)).
  { intros i r_i t_i Hri Hti. split; apply lookup_zip_with_Some.
    - exists r_i, (cos t_i). rewrite list_lookup_fmap, Hti. auto.
    - exists r_i, (sin t_i). rewrite list_lookup_fmap, Hti. auto. }
  exists xs, ys, xyz. repeat (split; [assumption|]). split; [|auto].
  intros i x y r_i Hx Hy Hri.
  destruct (lookup_lt_is_Some_2 ths i) as [t_i Hti].
  { apply lookup_lt_Some in Hri. lia. }
  destruct (Hxy i r_i t_i Hri Hti) as [Hx' Hy'].
  rewrite Hx in Hx'. rewrite Hy in Hy'. injection Hx' as ->. injection Hy' as ->.
  pose proof (sin2_cos2 t_i) as Hsc. unfold Rsqr in Hsc. nra.
Qed.

Lemma cartesian_pos_on_circle_witness :
  exists (xs ys : list R) (xyz : np.ndarray2),
    pos_class._cartesian_pos Examples.pos_cyl2 Examples.world_sigma
      = (Ok (pos_class.set_xy_xyz xs ys xyz Examples.pos_cyl2), Examples.world_sigma) /\
    xs !! 1%nat = Some (2 * cos PI) /\ np.column xyz 2 = Ok [0; 1 / 2].
Proof.
  destruct (cartesian_pos_on_circle Examples.world_sigma Examples.pos_cyl2 2
              [1; 2] [0; 1 / 2] [0; PI] eq_refl eq_refl eq_refl eq_refl eq_refl eq_refl eq_refl)
    as (xs & ys & xyz & Hrun & _ & _ & Hxy & _ & _ & _ & _ & Hz).
  exists xs, ys, xyz. split; [exact Hrun|]. split; [|exact Hz].
  apply (Hxy 1%nat 2 PI); reflexivity.
Defined.

(** ** The constructor end to end *)

(** X21.  On an initial-conditions object with a well-formed interpolant and
    a surface-density profile whose inverse CDF returns one radius per
    probability, the constructor with the grid or the random method and a
    particle count [n] succeeds: the sampler holds [n] radii, heights,
    angles and Cartesian [x], [y], and an [n x 3] table [xyz] whose columns
    are [x], [y] and [z].  It has called the radial inverse CDF exactly once
    and drawn [2 n] random numbers with the grid method, [4 n] with the
    random one. *)
Theorem init_succeeds (meth : option string) (w : World) (rho : rho_from_array)
    (sigma : sigma_profile) (n : nat) :
  let s := IC_settings (ICobj w) in
  let v := default (ICgen_settings.method (ICgen_settings.s_pos_gen s)) meth in
  IC_rho (ICobj w) = Some rho -> well_formed rho ->
  IC_sigma (ICobj w) = Some sigma ->
  (forall m, length (sigma_cdf_inv sigma m) = length m) ->
  ICgen_settings.nParticles (ICgen_settings.s_pos_gen s) = Z.of_nat n ->
  v = "grid" \/ v = "random" ->
  exists (self : pos_class.pos) (w' : World) (rs zs ths xs ys : list R) (xyz : np.ndarray2),
    pos_class.__init__ meth w = (Ok self, w') /\
    pos_class.method self = Some v /\
    pos_class.nParticles self = Some (Z.of_nat n) /\
    pos_class.r self = Some rs /\ pos_class.z self = Some zs /\
    pos_class.theta self = Some ths /\
    pos_class.x self = Some xs /\ pos_class.y self = Some ys /\
    pos_class.xyz self = Some xyz /\
    length rs = n /\ length zs = n /\ length ths = n /\ length xs = n /\ length ys = n /\
    rectangular n 3 xyz /\
    np.column xyz 0 = Ok xs /\ np.column xyz 1 = Ok ys /\ np.column xyz 2 = Ok zs /\
    length (sigma_cdf_inv_calls (trace w')) = S (length (sigma_cdf_inv_calls (trace w))) /\
    rand_pos w' = (rand_pos w + if decide (v = "grid") then 2 * n else 4 * n)%nat.
Proof.
  intros s v Hrho Hwf Hsigma Hsig_len Hnp Hv.
  rewrite (init_run meth w rho sigma Hrho Hsigma). fold s. fold v. rewrite Hnp.
  set (self1 := pos_class.set_nParticles (Z.of_nat n) (pos_class.set_method v pos_class.new)).
  match goal with |- context [_ (log ?e ?w0)] => set (w1 := log e w0) end.
  assert (Hrho1 : IC_rho (ICobj w1) = Some rho) by (subst w1; destruct meth; exact Hrho).
  assert (Hsigma1 : IC_sigma (ICobj w1) = Some sigma) by (subst w1; destruct meth; exact Hsigma).
  assert (Hpos1 : rand_pos w1 = rand_pos w) by (subst w1; destruct meth; reflexivity).
  assert (Hcalls1 : sigma_cdf_inv_calls (trace w1) = sigma_cdf_inv_calls (trace w)).
  { subst w1. simpl. rewrite sigma_cdf_inv_calls_app. simpl. rewrite app_nil_r.
    destruct meth; reflexivity. }
  clearbody w1.
  (* the radial step *)
  assert (Hstep1 : exists (rs : list R) (w2 : World),
            pos_class._generate_r self1 w1 = (Ok (pos_class.set_r rs self1), w2) /\
            length rs = n /\ ICobj w2 = ICobj w1 /\
            length (sigma_cdf_inv_calls (trace w2))
              = S (length (sigma_cdf_inv_calls (trace w1))) /\
            rand_pos w2 = (rand_pos w1 + if decide (v = "grid") then 0 else n)%nat).
  { destruct Hv as [Hg|Hr].
    - destruct (linspace_interior n) as (m & Hlin & Hlen & _).
      eexists. eexists.
      split; [apply (generate_r_grid_run w1 sigma self1 (Z.of_nat n) m Hsigma1);
              [simpl; by rewrite Hg|reflexivity|exact Hlin]|].
      split; [by rewrite Hsig_len|]. split; [reflexivity|]. split.
      + simpl. rewrite !sigma_cdf_inv_calls_app. simpl. rewrite app_nil_r, length_app.
        simpl. lia.
      + rewrite decide_True by exact Hg. simpl. lia.
    - eexists. eexists.
      split; [apply (generate_r_random_run w1 sigma self1 n Hsigma1);
              [simpl; by rewrite Hr|reflexivity]|].
      split; [by rewrite Hsig_len, length_draws|]. split; [reflexivity|]. split.
      + simpl. rewrite !sigma_cdf_inv_calls_app. simpl. rewrite app_nil_r, length_app.
        simpl. lia.
      + rewrite decide_False by (rewrite Hr; discriminate). simpl. lia. }
  destruct Hstep1 as (rs & w2 & Hrun1 & Hrlen & Hic2 & Hcalls2 & Hpos2).
  set (self2 := pos_class.set_r rs self1) in *.
  (* the vertical step *)
  assert (Hrho2 : IC_rho (ICobj w2) = Some rho) by (rewrite Hic2; exact Hrho1).
  set (us := draws (rand_stream w2) (rand_pos w2) n).
  assert (Hus : length us = length rs) by (unfold us; rewrite length_draws; lia).
  destruct (cdf_inv_entries rho (calc_rho_zr.array us) (calc_rho_zr.array rs) us rs Hwf
              (match_shapes_same us rs Hus) Hus)
    as (zc & rmin & rmax & Hcdf & _ & _ & Hzclen & _).
  pose proof (generate_z_run w2 rho self2 n rs zc Hrho2 eq_refl eq_refl Hcdf ltac:(lia))
    as Hrun2.
  set (zs := zip_with Rmult zc (sign_draws (choice_stream w2) (rand_pos w2 + n) n)) in *.
  assert (Hzlen : length zs = n).
  { unfold zs. rewrite length_zip_with, length_sign_draws. lia. }
  set (self3 := pos_class.set_z zs self2) in *.
  set (w3 := advance n (advance n (log (Print "Generating z positions") w2))) in *.
  (* the azimuthal step *)
  assert (Hstep3 : exists (ths : list R) (w4 : World),
            pos_class._generate_theta self3 w3 = (Ok (pos_class.set_theta ths self3), w4) /\
            length ths = n /\ trace w4 = trace w3 /\
            rand_pos w4 = (rand_pos w3 + if decide (v = "grid") then 0 else n)%nat).
  { destruct Hv as [Hg|Hr].
    - destruct (theta_loop
                  (zip_with (fun a b => sqrt (2 * PI * (1 - a / b)))
                     (take (length rs - 1) rs) (drop 1 rs))
                  (length rs - 1) 0 (replicate (length rs) 0))
        as (ths & Hloop & Hthlen & _).
      { rewrite length_replicate. lia. }
      { rewrite length_zip_with, length_take, length_drop. lia. }
      rewrite length_replicate in Hthlen.
      exists ths, w3.
      split; [apply (generate_theta_grid_run w3 self3 rs ths);
              [simpl; by rewrite Hg|simpl; by rewrite Hrlen|reflexivity|exact Hloop]|].
      split; [lia|]. split; [reflexivity|].
      rewrite decide_True by exact Hg. lia.
    - eexists. eexists.
      split; [apply (generate_theta_random_run w3 self3 n); [simpl; by rewrite Hr|reflexivity]|].
      split; [by rewrite length_fmap, length_draws|]. split; [reflexivity|].
      rewrite decide_False by (rewrite Hr; discriminate). reflexivity. }
  destruct Hstep3 as (ths & w4 & Hrun3 & Hthlen & Htrace4 & Hpos4).
  set (self4 := pos_class.set_theta ths self3) in *.
  (* the Cartesian step *)
  destruct (cartesian_pos_run w4 self4 n rs zs ths eq_refl eq_refl eq_refl eq_refl
              Hrlen Hzlen Hthlen)
    as (xyz & Hrun4 & Hxlen & Hylen & Hrect & Hc0 & Hc1 & Hc2).
  eexists. exists w4, rs, zs, ths. eexists. eexists. exists xyz.
  split.
  { rewrite mbind_M_unfold, Hrun1. rewrite mbind_M_unfold, Hrun2.
    rewrite mbind_M_unfold, Hrun3. exact Hrun4. }
  simpl. repeat (split; [first [reflexivity | assumption]|]). split.
  - rewrite Htrace4. unfold w3. simpl. rewrite sigma_cdf_inv_calls_app. simpl.
    rewrite app_nil_r. rewrite Hcalls2, Hcalls1. reflexivity.
  - rewrite Hpos4. unfold w3. simpl. rewrite Hpos2, Hpos1.
    destruct (decide (v = "grid")); lia.
Qed.

Lemma init_succeeds_witness :
  exists (self : pos_class.pos) (w' : World) (rs : list R),
    pos_class.__init__ None Examples.world_even = (Ok self, w') /\
    pos_class.r self = Some rs /\ length rs = 4%nat /\ rand_pos w' = 8%nat.
Proof.
  destruct (init_succeeds None Examples.world_even Examples.rho_even Examples.sigma_lin 4
              eq_refl rho_even_well_formed eq_refl)
    as (self & w' & rs & zs & ths & xs & ys & xyz & Hrun & _ & _ & Hr & _ & _ & _ & _ & _
        & Hlen & _ & _ & _ & _ & _ & _ & _ & _ & _ & Hpos).
  - intros m. simpl. by rewrite length_fmap.
  - reflexivity.
  - left. reflexivity.
  - exists self, w', rs. split; [exact Hrun|]. split; [exact Hr|]. split; [exact Hlen|].
    rewrite Hpos. reflexivity.
Defined.
